(** * Centry: the ingestion / retrieval / quiz core

    A shallow embedding of the parts of the repository that carry the
    invariants of the RAG core:

    - the PostgreSQL schema (tables, constraints, triggers and SQL functions
      of the migration script): [sync_chunks_active_from_file],
      [prune_orphan_category], [match_documents], [delete_quiz_content],
      the partial unique index [uq_correct_option_per_question];
    - the statements the Next.js client sends through the Supabase client:
      [handleFiles], [setChunksActiveForFile], [toggleInclude], [deleteFile]
      (TopicUpload.tsx) and [submit] (the quiz runner page).

    A table is the list of its rows in heap (insertion) order; an update
    rewrites a row where it stands in the list.  A statement is a function
    on the database; a statement that a constraint can reject returns a
    [result].  Row-level security policies are not modelled: every
    statement is run with the rights of the table owner.  Columns that no
    modelled statement reads (names of people, mime types, sizes, the
    created_at stamps, and the updated_at stamps that the [set_updated_at]
    triggers maintain) are left out of the rows. *)

From Stdlib Require Import List String Ascii Bool ZArith QArith Qround Lia Lqa.
From Stdlib Require Import Permutation Sorted.
From Stdlib Require Import Uint63 PrimFloat SpecFloat FloatOps DecimalString.
Import ListNotations.
Local Open Scope string_scope.
Local Open Scope Z_scope.

(* ================================================================== *)
(** * Part I.  The embedding *)
(* ================================================================== *)

(** ** Scalars *)

(** [uuid] columns are handled by the client as strings. *)
Definition uuid := string.
Definition timestamptz := Z.
Definition jsonb := string.

(** pgvector's [vector(1536)]: the components, with rationals standing for
    the single-precision components. *)
Definition vector := list Q.

Definition mem (x : uuid) (l : list uuid) : bool := existsb (String.eqb x) l.

Definition is_some {A} (o : option A) : bool :=
  match o with Some _ => true | None => false end.

Definition option_uuid_eqb (a b : option uuid) : bool :=
  match a, b with
  | Some x, Some y => String.eqb x y
  | None, None => true
  | _, _ => false
  end.

(** ** Errors raised by the database *)

Inductive pg_error :=
| unique_violation (constraint : string)
| foreign_key_violation (constraint : string)
| not_null_violation (column : string)
| check_violation (constraint : string)
| invalid_row_count_in_limit_clause.

Inductive result (A : Type) :=
| Ok (a : A)
| Err (e : pg_error).
Arguments Ok {A} a.
Arguments Err {A} e.

Definition bind {A B} (r : result A) (k : A -> result B) : result B :=
  match r with
  | Ok a => k a
  | Err e => Err e
  end.

Notation "x <- r ;; k" := (bind r (fun x => k))
  (at level 61, r at next level, right associativity).

Definition guard (b : bool) (e : pg_error) : result unit :=
  if b then Ok tt else Err e.

(** ** Enumerations *)

(** [vector_status text check (vector_status in (...))] *)
Inductive VectorStatus := not_ingested | ingesting | ingested | excluded | deleted.

Definition VectorStatus_eqb (a b : VectorStatus) : bool :=
  match a, b with
  | not_ingested, not_ingested | ingesting, ingesting | ingested, ingested
  | excluded, excluded | deleted, deleted => true
  | _, _ => false
  end.

(** [processing_status] *)
Inductive processing_status := pending | processing | ready | failed.

(** [topic_status] *)
Inductive topic_status := active | archived.

(** ** Rows *)

Record Category := {
  cat_id : uuid;
  cat_user_id : uuid;
  cat_name : string
}.

Record Topic := {
  topic_id : uuid;
  topic_user_id : uuid;
  category_id : option uuid;
  topic_name : string;
  status : topic_status;
  last_used_at : timestamptz
}.

Record TopicFile := {
  file_id : uuid;
  file_topic_id : uuid;
  file_user_id : uuid;
  storage_path : string;
  file_name : string;
  include_in_rag : bool;
  vector_status : VectorStatus;
  deleted_at : option timestamptz
}.

Record Document := {
  doc_id : uuid;
  doc_topic_id : uuid;
  topic_file_id : uuid
}.

Record Chunk := {
  chunk_id : Z;
  document_id : uuid;
  chunk_topic_id : uuid;
  content : string;
  embedding : option vector;
  is_active : bool;
  metadata : option jsonb
}.

Record Quiz := {
  quiz_id : uuid;
  quiz_topic_id : uuid;
  quiz_user_id : uuid;
  quiz_length : Z;
  quiz_status : processing_status
}.

Record QuizQuestion := {
  qq_id : uuid;
  qq_quiz_id : uuid;
  question : string;
  order_index : Z
}.

Record QuizOption := {
  qo_id : uuid;
  qo_question_id : uuid;
  option_text : string;
  is_correct : bool
}.

Record QuizAttempt := {
  qa_id : uuid;
  qa_quiz_id : uuid;
  qa_user_id : uuid;
  submitted_at : option timestamptz;
  score_percent : option Z;
  duration_sec : option Z
}.

Record AttemptAnswer := {
  attempt_id : uuid;
  aa_question_id : uuid;
  selected_option_id : uuid;
  aa_is_correct : bool
}.

(** ** The database *)

Record DB := {
  categories : list Category;
  topics : list Topic;
  topic_files : list TopicFile;
  documents : list Document;
  chunks : list Chunk;
  quizzes : list Quiz;
  quiz_questions : list QuizQuestion;
  quiz_options : list QuizOption;
  quiz_attempts : list QuizAttempt;
  attempt_answers : list AttemptAnswer
}.

Definition with_categories (db : DB) (l : list Category) : DB :=
  {| categories := l; topics := topics db; topic_files := topic_files db;
     documents := documents db; chunks := chunks db; quizzes := quizzes db;
     quiz_questions := quiz_questions db; quiz_options := quiz_options db;
     quiz_attempts := quiz_attempts db; attempt_answers := attempt_answers db |}.

Definition with_topics (db : DB) (l : list Topic) : DB :=
  {| categories := categories db; topics := l; topic_files := topic_files db;
     documents := documents db; chunks := chunks db; quizzes := quizzes db;
     quiz_questions := quiz_questions db; quiz_options := quiz_options db;
     quiz_attempts := quiz_attempts db; attempt_answers := attempt_answers db |}.

Definition with_topic_files (db : DB) (l : list TopicFile) : DB :=
  {| categories := categories db; topics := topics db; topic_files := l;
     documents := documents db; chunks := chunks db; quizzes := quizzes db;
     quiz_questions := quiz_questions db; quiz_options := quiz_options db;
     quiz_attempts := quiz_attempts db; attempt_answers := attempt_answers db |}.

Definition with_documents (db : DB) (l : list Document) : DB :=
  {| categories := categories db; topics := topics db; topic_files := topic_files db;
     documents := l; chunks := chunks db; quizzes := quizzes db;
     quiz_questions := quiz_questions db; quiz_options := quiz_options db;
     quiz_attempts := quiz_attempts db; attempt_answers := attempt_answers db |}.

Definition with_chunks (db : DB) (l : list Chunk) : DB :=
  {| categories := categories db; topics := topics db; topic_files := topic_files db;
     documents := documents db; chunks := l; quizzes := quizzes db;
     quiz_questions := quiz_questions db; quiz_options := quiz_options db;
     quiz_attempts := quiz_attempts db; attempt_answers := attempt_answers db |}.

Definition with_quizzes (db : DB) (l : list Quiz) : DB :=
  {| categories := categories db; topics := topics db; topic_files := topic_files db;
     documents := documents db; chunks := chunks db; quizzes := l;
     quiz_questions := quiz_questions db; quiz_options := quiz_options db;
     quiz_attempts := quiz_attempts db; attempt_answers := attempt_answers db |}.

Definition with_quiz_questions (db : DB) (l : list QuizQuestion) : DB :=
  {| categories := categories db; topics := topics db; topic_files := topic_files db;
     documents := documents db; chunks := chunks db; quizzes := quizzes db;
     quiz_questions := l; quiz_options := quiz_options db;
     quiz_attempts := quiz_attempts db; attempt_answers := attempt_answers db |}.

Definition with_quiz_options (db : DB) (l : list QuizOption) : DB :=
  {| categories := categories db; topics := topics db; topic_files := topic_files db;
     documents := documents db; chunks := chunks db; quizzes := quizzes db;
     quiz_questions := quiz_questions db; quiz_options := l;
     quiz_attempts := quiz_attempts db; attempt_answers := attempt_answers db |}.

Definition with_quiz_attempts (db : DB) (l : list QuizAttempt) : DB :=
  {| categories := categories db; topics := topics db; topic_files := topic_files db;
     documents := documents db; chunks := chunks db; quizzes := quizzes db;
     quiz_questions := quiz_questions db; quiz_options := quiz_options db;
     quiz_attempts := l; attempt_answers := attempt_answers db |}.

Definition with_attempt_answers (db : DB) (l : list AttemptAnswer) : DB :=
  {| categories := categories db; topics := topics db; topic_files := topic_files db;
     documents := documents db; chunks := chunks db; quizzes := quizzes db;
     quiz_questions := quiz_questions db; quiz_options := quiz_options db;
     quiz_attempts := quiz_attempts db; attempt_answers := l |}.

Definition empty_db : DB :=
  {| categories := []; topics := []; topic_files := []; documents := [];
     chunks := []; quizzes := []; quiz_questions := []; quiz_options := [];
     quiz_attempts := []; attempt_answers := [] |}.

(* ------------------------------------------------------------------ *)
(** ** topic_files, documents, chunks: statements and triggers *)
(* ------------------------------------------------------------------ *)

Definition set_is_active (b : bool) (c : Chunk) : Chunk :=
  {| chunk_id := chunk_id c; document_id := document_id c;
     chunk_topic_id := chunk_topic_id c; content := content c;
     embedding := embedding c; is_active := b; metadata := metadata c |}.

Definition set_last_used_at (now : timestamptz) (t : Topic) : Topic :=
  {| topic_id := topic_id t; topic_user_id := topic_user_id t;
     category_id := category_id t; topic_name := topic_name t;
     status := status t; last_used_at := now |}.

(** [bump_topic_last_used_from_topic()]:
    [update topics set last_used_at = now() where id = new.topic_id].
    (The update also runs [t_topics_updated_at], which sets [updated_at],
    a column the rows of the model do not have.) *)
Definition bump_topic_last_used_from_topic
    (new_topic_id : uuid) (now : timestamptz) (db : DB) : DB :=
  with_topics db
    (map (fun t => if String.eqb (topic_id t) new_topic_id
                   then set_last_used_at now t else t)
         (topics db)).

(** The documents of a file:
    [select d.id from documents d where d.topic_file_id = new.id]. *)
Definition documents_of_file (db : DB) (fid : uuid) : list uuid :=
  map doc_id (filter (fun d => String.eqb (topic_file_id d) fid) (documents db)).

(** The value the trigger writes:
    [new.include_in_rag and new.vector_status = 'ingested']. *)
Definition file_queryable (f : TopicFile) : bool :=
  include_in_rag f && VectorStatus_eqb (vector_status f) ingested.

(** What [sync_chunks_active_from_file()] does to one chunk, [docs] being
    the documents table:
    [set is_active = (new.include_in_rag and new.vector_status = 'ingested')
     where c.document_id in (select d.id from documents d
                             where d.topic_file_id = new.id)]. *)
Definition sync_chunk (docs : list Document) (c : Chunk) (new : TopicFile) : Chunk :=
  if mem (document_id c)
         (map doc_id (filter (fun d => String.eqb (topic_file_id d) (file_id new)) docs))
  then set_is_active (file_queryable new) c else c.

(** [sync_chunks_active_from_file()], run with [new] the updated row. *)
Definition sync_chunks_active_from_file (new : TopicFile) (db : DB) : DB :=
  with_chunks db (map (fun c => sync_chunk (documents db) c new) (chunks db)).

(** The SET list of an [update topic_files] statement. *)
Record file_set := {
  set_include_in_rag : option bool;
  set_vector_status : option VectorStatus;
  set_deleted_at : option (option timestamptz)
}.

Definition apply_file_set (s : file_set) (f : TopicFile) : TopicFile :=
  {| file_id := file_id f; file_topic_id := file_topic_id f;
     file_user_id := file_user_id f; storage_path := storage_path f;
     file_name := file_name f;
     include_in_rag :=
       match set_include_in_rag s with Some b => b | None => include_in_rag f end;
     vector_status :=
       match set_vector_status s with Some v => v | None => vector_status f end;
     deleted_at :=
       match set_deleted_at s with Some d => d | None => deleted_at f end |}.

(** [t_file_sync_chunks] is declared
    [after update of include_in_rag, vector_status]: it fires for a statement
    whose SET list names one of the two columns. *)
Definition fires_t_file_sync_chunks (s : file_set) : bool :=
  is_some (set_include_in_rag s) || is_some (set_vector_status s).

(** The row-level AFTER UPDATE triggers of topic_files, in the order
    PostgreSQL fires them (by name): [t_file_sync_chunks], then
    [t_topic_files_bump]. *)
Definition after_update_topic_files
    (s : file_set) (now : timestamptz) (db : DB) (new : TopicFile) : DB :=
  let db1 := if fires_t_file_sync_chunks s
             then sync_chunks_active_from_file new db else db in
  bump_topic_last_used_from_topic (file_topic_id new) now db1.

(** [update topic_files set ... where ...]: the rows are rewritten, then the
    AFTER triggers run once per updated row. *)
Definition update_topic_files
    (where_ : TopicFile -> bool) (s : file_set) (now : timestamptz) (db : DB) : DB :=
  let updated := map (apply_file_set s) (filter where_ (topic_files db)) in
  let db1 := with_topic_files db
               (map (fun f => if where_ f then apply_file_set s f else f)
                    (topic_files db)) in
  fold_left (after_update_topic_files s now) updated db1.

(** [insert into topic_files]: primary key, [unique(topic_id, storage_path)],
    the foreign key to topics; then [t_topic_files_bump]. *)
Definition insert_topic_file (row : TopicFile) (now : timestamptz) (db : DB)
  : result DB :=
  _ <- guard (negb (mem (file_id row) (map file_id (topic_files db))))
             (unique_violation "topic_files_pkey") ;;
  _ <- guard (negb (existsb (fun f => String.eqb (file_topic_id f) (file_topic_id row)
                                      && String.eqb (storage_path f) (storage_path row))
                            (topic_files db)))
             (unique_violation "topic_files_topic_id_storage_path_key") ;;
  _ <- guard (mem (file_topic_id row) (map topic_id (topics db)))
             (foreign_key_violation "topic_files_topic_id_fkey") ;;
  Ok (bump_topic_last_used_from_topic (file_topic_id row) now
        (with_topic_files db (topic_files db ++ [row]))).

(** A row offered to [insert into chunks]; [is_active] may be left to its
    column default. *)
Record chunk_insert := {
  ins_chunk_id : Z;
  ins_document_id : uuid;
  ins_topic_id : uuid;
  ins_content : string;
  ins_embedding : option vector;
  ins_token_count : option Z;
  ins_is_active : option bool;
  ins_metadata : option jsonb
}.

(** [is_active boolean not null default true] *)
Definition chunks_is_active_default : bool := true.

Definition chunk_of_insert (r : chunk_insert) : Chunk :=
  {| chunk_id := ins_chunk_id r; document_id := ins_document_id r;
     chunk_topic_id := ins_topic_id r; content := ins_content r;
     embedding := ins_embedding r;
     is_active := match ins_is_active r with
                  | Some b => b
                  | None => chunks_is_active_default
                  end;
     metadata := ins_metadata r |}.

(** [insert into chunks]: primary key and the two foreign keys.  No trigger
    is declared on chunks. *)
Definition insert_chunk (r : chunk_insert) (db : DB) : result DB :=
  _ <- guard (negb (existsb (fun c => Z.eqb (chunk_id c) (ins_chunk_id r)) (chunks db)))
             (unique_violation "chunks_pkey") ;;
  _ <- guard (mem (ins_document_id r) (map doc_id (documents db)))
             (foreign_key_violation "chunks_document_id_fkey") ;;
  _ <- guard (mem (ins_topic_id r) (map topic_id (topics db)))
             (foreign_key_violation "chunks_topic_id_fkey") ;;
  Ok (with_chunks db (chunks db ++ [chunk_of_insert r])).

(** [update chunks set is_active = $1 where document_id in ($2...)] *)
Definition update_chunks_is_active (ids : list uuid) (a : bool) (db : DB) : DB :=
  with_chunks db
    (map (fun c => if mem (document_id c) ids then set_is_active a c else c)
         (chunks db)).

(** [delete from chunks where document_id in (...)] *)
Definition delete_chunks_in_documents (ids : list uuid) (db : DB) : DB :=
  with_chunks db (filter (fun c => negb (mem (document_id c) ids)) (chunks db)).

(** [delete from documents where id in (...)]; chunks reference documents
    [on delete cascade]. *)
Definition delete_documents (ids : list uuid) (db : DB) : DB :=
  let gone := filter (fun d => mem (doc_id d) ids) (documents db) in
  let db1 := with_documents db
               (filter (fun d => negb (mem (doc_id d) ids)) (documents db)) in
  delete_chunks_in_documents (map doc_id gone) db1.

(** The chunk [c] belongs to a document of the file [f]. *)
Definition owns (db : DB) (f : TopicFile) (c : Chunk) : Prop :=
  exists d, In d (documents db) /\ topic_file_id d = file_id f
            /\ document_id c = doc_id d.

(** Invariant 1 of the content store:
    [chunk.is_active <-> (file.include_in_rag and file.vector_status = ingested)]
    for the file the chunk belongs to. *)
Definition chunk_synced (db : DB) : Prop :=
  forall f c, In f (topic_files db) -> In c (chunks db) -> owns db f c ->
              is_active c = file_queryable f.

(* ------------------------------------------------------------------ *)
(** ** TopicUpload.tsx: the upload component *)
(* ------------------------------------------------------------------ *)

(** The statements the component sends to the database, as a log. *)
Inductive request :=
| update_topic_files_eq_id (id : uuid) (s : file_set)
| select_documents_eq_topic_file_id (id : uuid)
| update_chunks_in_document_id (ids : list uuid) (a : bool)
| delete_chunks_in_document_id (ids : list uuid)
| delete_documents_in_id (ids : list uuid).

Definition writes_chunks_is_active (r : request) : bool :=
  match r with
  | update_chunks_in_document_id _ _ => true
  | _ => false
  end.

Definition eq_id (id : uuid) (f : TopicFile) : bool := String.eqb (file_id f) id.

(** [setChunksActiveForFile(topicFileId, active)]: reads the documents of
    the file and, unless there is none, writes [is_active] on their chunks. *)
Definition setChunksActiveForFile (topicFileId : uuid) (a : bool) (db : DB)
  : DB * list request :=
  let ids := documents_of_file db topicFileId in
  match ids with
  | [] => (db, [select_documents_eq_topic_file_id topicFileId])
  | _ :: _ =>
      (update_chunks_is_active ids a db,
       [select_documents_eq_topic_file_id topicFileId;
        update_chunks_in_document_id ids a])
  end.

(** The SET list [toggleInclude] sends:
    [{ include_in_rag: next, vector_status: next ? "ingested" : "excluded" }].
    (For its own list of files the handler computes another status when a
    file is switched on: [ingested] for a file that is [excluded], the
    status it has for any other file.) *)
Definition toggle_set (next : bool) : file_set :=
  {| set_include_in_rag := Some next;
     set_vector_status := Some (if next then ingested else excluded);
     set_deleted_at := None |}.

(** [toggleInclude(file, next)].  [busy] is the component's flag: the
    handler returns at once while another operation runs. *)
Definition toggleInclude (busy : bool) (file : TopicFile) (next : bool)
    (now : timestamptz) (db : DB) : DB * list request :=
  if busy then (db, [])
  else
    let db1 := update_topic_files (eq_id (file_id file)) (toggle_set next) now db in
    let '(db2, log) := setChunksActiveForFile (file_id file) next db1 in
    (db2, update_topic_files_eq_id (file_id file) (toggle_set next) :: log).

(** The SET list [deleteFile] sends. *)
Definition delete_set (now : timestamptz) : file_set :=
  {| set_include_in_rag := Some false;
     set_vector_status := Some deleted;
     set_deleted_at := Some (Some now) |}.

(** [deleteFile(file)]: chunks and documents of the file are deleted, then
    the row is soft-deleted.  (The removal of the stored object in between
    does not touch the database.) *)
Definition deleteFile (file : TopicFile) (now : timestamptz) (db : DB)
  : DB * list request :=
  let docIds := documents_of_file db (file_id file) in
  let '(db1, log1) :=
    match docIds with
    | [] => (db, [])
    | _ :: _ =>
        (delete_documents docIds (delete_chunks_in_documents docIds db),
         [delete_chunks_in_document_id docIds; delete_documents_in_id docIds])
    end in
  (update_topic_files (eq_id (file_id file)) (delete_set now) now db1,
   select_documents_eq_topic_file_id (file_id file) :: log1
   ++ [update_topic_files_eq_id (file_id file) (delete_set now)]).

(** A browser [File], with what the storage upload and the insert decide
    for it: the id the database generates and the [Date.now()] of the path. *)
Record File := {
  name : string;
  size : Z;
  generated_id : uuid;
  date_now : Z
}.

Definition MAX_BYTES : Z := 50 * 1024 * 1024.

Definition string_of_Z (z : Z) : string :=
  DecimalString.NilZero.string_of_int (Z.to_int z).

(** [`${auth.user.id}/${topic.id}/${Date.now()}_${file.name}`] *)
Definition storagePath (user topic : uuid) (f : File) : string :=
  user ++ "/" ++ topic ++ "/" ++ string_of_Z (date_now f) ++ "_" ++ name f.

(** The row [handleFiles] inserts for one file. *)
Definition handleFiles_row (user topic : uuid) (f : File) : TopicFile :=
  {| file_id := generated_id f; file_topic_id := topic; file_user_id := user;
     storage_path := storagePath user topic f; file_name := name f;
     include_in_rag := true; vector_status := ingesting; deleted_at := None |}.

Inductive upload_error :=
| not_authenticated
| over_50MB (file : string)
| backend_url_not_configured
| storage_error (path : string)
| postgrest (e : pg_error)
| ingestion_failed (file : string).

Section HandleFiles.

(** [process.env.NEXT_PUBLIC_BACKEND_URL] *)
Variable BACKEND_URL : string.

(** [supabase.storage.from("topic-files").upload(storagePath, ...)]: the
    object store is outside the database; [false] stands for an error. *)
Variable storage_upload : string -> bool.

(** [POST /api/rag/ingest]: the ingestion backend is not part of the
    sources; it is a parameter, [None] standing for a response that is
    not ok. *)
Variable ingest : uuid -> DB -> option DB.

(** The topic the component shows. *)
Variable topic : uuid.

(** The upload loop: the first error ends it and is shown; what was
    written before stays. *)
Fixpoint handleFiles_loop (user : uuid) (list : list File) (now : timestamptz)
    (db : DB) : DB * option upload_error :=
  match list with
  | [] => (db, None)
  | file :: rest =>
      if negb (storage_upload (storagePath user topic file))
      then (db, Some (storage_error (storagePath user topic file)))
      else
        match insert_topic_file (handleFiles_row user topic file) now db with
        | Err e => (db, Some (postgrest e))
        | Ok db1 =>
            match ingest (generated_id file) db1 with
            | None => (db1, Some (ingestion_failed (name file)))
            | Some db2 => handleFiles_loop user rest now db2
            end
        end
  end.

(** [handleFiles(list)]: the user, every size and the backend URL are
    checked before anything is sent. *)
Definition handleFiles (authed : option uuid) (list : list File)
    (now : timestamptz) (db : DB) : DB * option upload_error :=
  match authed with
  | None => (db, Some not_authenticated)
  | Some user =>
      match find (fun f => size f >? MAX_BYTES) list with
      | Some f => (db, Some (over_50MB (name f)))
      | None =>
          if String.eqb BACKEND_URL "" then (db, Some backend_url_not_configured)
          else handleFiles_loop user list now db
      end
  end.

End HandleFiles.

(** The lifecycle of [vector_status] as the specification words it:
    [not_ingested -> ingesting -> {ingested | excluded}], and [deleted]
    reachable from any state. *)
Definition spec_lifecycle_edge (a b : VectorStatus) : bool :=
  match a, b with
  | not_ingested, ingesting => true
  | ingesting, ingested => true
  | ingesting, excluded => true
  | _, deleted => true
  | _, _ => false
  end.

(** The status of the file [id], if the table has it. *)
Definition status_of (db : DB) (id : uuid) : option VectorStatus :=
  option_map vector_status (find (eq_id id) (topic_files db)).

(* ------------------------------------------------------------------ *)
(** ** A small store used by the examples *)
(* ------------------------------------------------------------------ *)

Definition topic_t1 : Topic :=
  {| topic_id := "t1"; topic_user_id := "u1"; category_id := None;
     topic_name := "Algebra"; status := active; last_used_at := 0 |}.

Definition file_f1 : TopicFile :=
  {| file_id := "f1"; file_topic_id := "t1"; file_user_id := "u1";
     storage_path := "u1/t1/1_notes.pdf"; file_name := "notes.pdf";
     include_in_rag := true; vector_status := ingested; deleted_at := None |}.

Definition file_f2 : TopicFile :=
  {| file_id := "f2"; file_topic_id := "t1"; file_user_id := "u1";
     storage_path := "u1/t1/2_talk.mp3"; file_name := "talk.mp3";
     include_in_rag := false; vector_status := excluded; deleted_at := None |}.

Definition doc_d1 : Document :=
  {| doc_id := "d1"; doc_topic_id := "t1"; topic_file_id := "f1" |}.

Definition doc_d2 : Document :=
  {| doc_id := "d2"; doc_topic_id := "t1"; topic_file_id := "f2" |}.

Definition mk_chunk (id : Z) (doc : uuid) (a : bool) : Chunk :=
  {| chunk_id := id; document_id := doc; chunk_topic_id := "t1";
     content := "text"; embedding := Some [0%Q; 1%Q]; is_active := a;
     metadata := None |}.

Definition db_upload : DB :=
  {| categories := []; topics := [topic_t1];
     topic_files := [file_f1; file_f2];
     documents := [doc_d1; doc_d2];
     chunks := [mk_chunk 1 "d1" true; mk_chunk 2 "d1" true; mk_chunk 3 "d2" false];
     quizzes := []; quiz_questions := []; quiz_options := [];
     quiz_attempts := []; attempt_answers := [] |}.

(** A chunk the ingestion writes for the excluded file [f2], leaving
    [is_active] to its default. *)
Definition late_chunk : chunk_insert :=
  {| ins_chunk_id := 4; ins_document_id := "d2"; ins_topic_id := "t1";
     ins_content := "more text"; ins_embedding := None; ins_token_count := None;
     ins_is_active := None; ins_metadata := None |}.

(* ------------------------------------------------------------------ *)
(** ** match_documents: the vector search function *)
(* ------------------------------------------------------------------ *)

(** SQL's three-valued booleans: [None] is NULL. *)
Definition sql_bool := option bool.

Definition sql_not (a : sql_bool) : sql_bool := option_map negb a.

Definition sql_or (a b : sql_bool) : sql_bool :=
  match a, b with
  | Some true, _ | _, Some true => Some true
  | Some false, Some false => Some false
  | _, _ => None
  end.

Definition sql_and (a b : sql_bool) : sql_bool :=
  match a, b with
  | Some false, _ | _, Some false => Some false
  | Some true, Some true => Some true
  | _, _ => None
  end.

Definition sql_is_null {A} (a : option A) : sql_bool := Some (negb (is_some a)).

Definition sql_eq_uuid (a : uuid) (b : option uuid) : sql_bool :=
  option_map (String.eqb a) b.

(** A WHERE clause keeps the rows for which it is true (not false, not NULL). *)
Definition where_holds (a : sql_bool) : bool :=
  match a with Some true => true | _ => false end.

(** [where (p_topic_id is null or c.topic_id = p_topic_id)
       and (not p_only_active or c.is_active)] *)
Definition match_documents_where
    (p_topic_id : option uuid) (p_only_active : option bool) (c : Chunk) : bool :=
  where_holds
    (sql_and
       (sql_or (sql_is_null p_topic_id) (sql_eq_uuid (chunk_topic_id c) p_topic_id))
       (sql_or (sql_not p_only_active) (Some (is_active c)))).

(** [from chunks c join documents d on d.id = c.document_id] *)
Definition chunks_join_documents (db : DB) : list (Chunk * Document) :=
  flat_map
    (fun c => map (pair c)
                  (filter (fun d => String.eqb (doc_id d) (document_id c))
                          (documents db)))
    (chunks db).

Definition match_documents_from
    (p_topic_id : option uuid) (p_only_active : option bool) (db : DB)
  : list (Chunk * Document) :=
  filter (fun cd => match_documents_where p_topic_id p_only_active (fst cd))
         (chunks_join_documents db).

(** [limit match_count]: NULL is no limit, a negative count is an error. *)
Definition limit {A} (match_count : option Z) (l : list A) : result (list A) :=
  match match_count with
  | None => Ok l
  | Some n => if n <? 0 then Err invalid_row_count_in_limit_clause
              else Ok (firstn (Z.to_nat n) l)
  end.

(** The declared default of [p_only_active]. *)
Definition p_only_active_default : option bool := Some true.

(** A [float8] as the search meets it: a number (a rational stands for the
    double) or NaN.  pgvector's cosine distance is NaN when one of the two
    vectors is the zero vector (it divides by the product of the norms),
    and [1 - NaN] is NaN. *)
Inductive float8 := Num (x : Q) | NaN.

(** The order of the type [float8] in PostgreSQL: NaN equals NaN and is
    greater than every number. *)
Definition float8_le (a b : float8) : Prop :=
  match a, b with
  | Num x, Num y => (x <= y)%Q
  | _, NaN => True
  | NaN, Num _ => False
  end.

Definition float8_leb (a b : float8) : bool :=
  match a, b with
  | Num x, Num y => Qle_bool x y
  | _, NaN => true
  | NaN, Num _ => false
  end.

(** [1 - d] *)
Definition one_minus (d : float8) : float8 :=
  match d with
  | Num x => Num (1 - x)
  | NaN => NaN
  end.

(** A row of the returned table. *)
Record match_row := {
  row_document_id : uuid;
  row_content : string;
  row_metadata : option jsonb;
  similarity : option float8
}.

(** [order by] ascending on a nullable key puts NULL last (and, the key
    being a [float8], NaN behind every number). *)
Definition asc_nulls_last (a b : option float8) : Prop :=
  match a, b with
  | Some x, Some y => float8_le x y
  | _, None => True
  | None, Some _ => False
  end.

Definition asc_nulls_lastb (a b : option float8) : bool :=
  match a, b with
  | Some x, Some y => float8_leb x y
  | _, None => true
  | None, Some _ => false
  end.

(** Descending in the order of [float8], NULL last: "ordered by similarity
    descending", as the specification words the ranking. *)
Definition desc_nulls_last (a b : option float8) : Prop :=
  match a, b with
  | Some x, Some y => float8_le y x
  | _, None => True
  | None, Some _ => False
  end.

(** The order the returned [similarity] column is in, the rows being
    sorted by the distance: the numbers in descending order, then NaN, then
    NULL. *)
Definition desc_nan_nulls_last (a b : option float8) : Prop :=
  match a, b with
  | Some (Num x), Some (Num y) => (y <= x)%Q
  | Some _, Some NaN => True
  | Some NaN, Some (Num _) => False
  | _, None => True
  | None, Some _ => False
  end.

Definition sql_eq_Q (a b : option float8) : Prop :=
  match a, b with
  | Some (Num x), Some (Num y) => (x == y)%Q
  | Some NaN, Some NaN => True
  | None, None => True
  | _, _ => False
  end.

Fixpoint insert_by {A} (leb : A -> A -> bool) (x : A) (l : list A) : list A :=
  match l with
  | [] => [x]
  | y :: l' => if leb x y then x :: l else y :: insert_by leb x l'
  end.

Definition sort_by {A} (leb : A -> A -> bool) (l : list A) : list A :=
  fold_right (insert_by leb) [] l.

Section Retrieval.

(** pgvector's cosine distance operator [<=>].  Its value is a [float8];
    the properties below use only that it is a function of the two vectors
    into that ordered type. *)
Variable cosine_distance : vector -> vector -> float8.

(** [c.embedding <=> query_embedding]: NULL when either side is. *)
Definition distance (query_embedding : option vector) (c : Chunk)
  : option float8 :=
  match embedding c, query_embedding with
  | Some e, Some q => Some (cosine_distance e q)
  | _, _ => None
  end.

(** The select list:
    [d.id, c.content, c.metadata, 1 - (c.embedding <=> query_embedding)]. *)
Definition select_row (query_embedding : option vector) (cd : Chunk * Document)
  : match_row :=
  {| row_document_id := doc_id (snd cd);
     row_content := content (fst cd);
     row_metadata := metadata (fst cd);
     similarity := option_map one_minus (distance query_embedding (fst cd)) |}.

Definition by_distance (q : option vector) (x y : Chunk * Document) : Prop :=
  asc_nulls_last (distance q (fst x)) (distance q (fst y)).

(** What [order by c.embedding <=> query_embedding] promises: the joined and
    filtered rows, in some order that is ascending in the distance.  The
    query names no second key: rows at the same distance come in whatever
    order the executor produces.  The scan may go through the approximate
    index [idx_chunks_embedding] (ivfflat), which can miss rows: [missed]
    are the rows it did not visit, none for an exact scan. *)
Definition match_documents_ordered
    (query_embedding : option vector) (p_topic_id : option uuid)
    (p_only_active : option bool) (db : DB) (l : list (Chunk * Document)) : Prop :=
  (exists missed,
      Permutation (l ++ missed) (match_documents_from p_topic_id p_only_active db))
  /\ StronglySorted (by_distance query_embedding) l.

(** The tables a call may return, with the chunks the rows come from. *)
Definition match_documents_returns
    (query_embedding : option vector) (match_count : option Z)
    (p_topic_id : option uuid) (p_only_active : option bool) (db : DB)
    (sources : list (Chunk * Document)) (rows : list match_row) : Prop :=
  exists l, match_documents_ordered query_embedding p_topic_id p_only_active db l
            /\ limit match_count l = Ok sources
            /\ rows = map (select_row query_embedding) sources.

(** One executor: a stable sort of the rows in heap order. *)
Definition match_documents_sources
    (query_embedding : option vector) (match_count : option Z)
    (p_topic_id : option uuid) (p_only_active : option bool) (db : DB)
  : result (list (Chunk * Document)) :=
  limit match_count
    (sort_by (fun x y => asc_nulls_lastb (distance query_embedding (fst x))
                                         (distance query_embedding (fst y)))
             (match_documents_from p_topic_id p_only_active db)).

Definition match_documents
    (query_embedding : option vector) (match_count : option Z)
    (p_topic_id : option uuid) (p_only_active : option bool) (db : DB)
  : result (list match_row) :=
  srcs <- match_documents_sources query_embedding match_count
            p_topic_id p_only_active db ;;
  Ok (map (select_row query_embedding) srcs).

(** "Rows with equal similarity appear in insertion order": chunk ids are
    handed out by the [bigserial] sequence, in insertion order. *)
Definition ties_in_insertion_order
    (query_embedding : option vector) (sources : list (Chunk * Document)) : Prop :=
  forall i j x y,
    (i < j)%nat -> nth_error sources i = Some x -> nth_error sources j = Some y ->
    sql_eq_Q (distance query_embedding (fst x)) (distance query_embedding (fst y)) ->
    chunk_id (fst x) < chunk_id (fst y).

End Retrieval.

(** Two topics; the chunks 1 and 2 of topic [t1] carry the same embedding,
    chunk 4 of topic [t2] another one. *)
Definition db_search : DB :=
  {| categories := [];
     topics := [topic_t1;
                {| topic_id := "t2"; topic_user_id := "u1"; category_id := None;
                   topic_name := "Botany"; status := active; last_used_at := 0 |}];
     topic_files := [file_f1;
                     {| file_id := "f9"; file_topic_id := "t2"; file_user_id := "u1";
                        storage_path := "u1/t2/3_ferns.pdf"; file_name := "ferns.pdf";
                        include_in_rag := true; vector_status := ingested;
                        deleted_at := None |}];
     documents := [doc_d1; {| doc_id := "d9"; doc_topic_id := "t2"; topic_file_id := "f9" |}];
     chunks := [mk_chunk 1 "d1" true; mk_chunk 2 "d1" true; mk_chunk 3 "d1" false;
                {| chunk_id := 4; document_id := "d9"; chunk_topic_id := "t2";
                   content := "text"; embedding := Some [1%Q; 0%Q]; is_active := true;
                   metadata := None |}];
     quizzes := []; quiz_questions := []; quiz_options := [];
     quiz_attempts := []; attempt_answers := [] |}.

(** The scalar product. *)
Definition dot (u v : vector) : Q :=
  fold_right Qplus 0%Q (map (fun p => (fst p * snd p)%Q) (combine u v)).

(** The distance the examples run with: NaN when one of the vectors is the
    zero vector, [1 - u.v] otherwise.  This is pgvector's cosine distance
    [1 - u.v / (|u| |v|)] whenever each of the two vectors has norm 1 or is
    zero; the examples use no other vectors. *)
Definition example_distance (u v : vector) : float8 :=
  if Qeq_bool (dot u u) 0 || Qeq_bool (dot v v) 0 then NaN
  else Num (1 - dot u v).

(** Chunks of one topic at the distances 0, 1 and 2 from the query
    [(1, 0)], one with the zero vector and one without embedding, in this
    heap order: zero vector, distance 2, no embedding, distance 0,
    distance 1. *)
Definition ranked_chunk (id : Z) (e : option vector) : Chunk :=
  {| chunk_id := id; document_id := "d1"; chunk_topic_id := "t1";
     content := "text"; embedding := e; is_active := true; metadata := None |}.

Definition db_ranked : DB :=
  {| categories := []; topics := [topic_t1]; topic_files := [file_f1];
     documents := [doc_d1];
     chunks := [ranked_chunk 1 (Some [0%Q; 0%Q]);
                ranked_chunk 2 (Some [(-1)%Q; 0%Q]);
                ranked_chunk 3 None;
                ranked_chunk 4 (Some [1%Q; 0%Q]);
                ranked_chunk 5 (Some [0%Q; 1%Q])];
     quizzes := []; quiz_questions := []; quiz_options := [];
     quiz_attempts := []; attempt_answers := [] |}.

(* ------------------------------------------------------------------ *)
(** ** Quizzes: statements, foreign keys, [delete_quiz_content] *)
(* ------------------------------------------------------------------ *)

(** A multi-row statement: it succeeds on every row or fails as a whole. *)
Definition for_each {A} (stmt : A -> DB -> result DB) (rows : list A) (db : DB)
  : result DB :=
  fold_left (fun r row => bind r (stmt row)) rows (Ok db).

(** [insert into quiz_questions] *)
Definition insert_quiz_question (row : QuizQuestion) (db : DB) : result DB :=
  _ <- guard (negb (mem (qq_id row) (map qq_id (quiz_questions db))))
             (unique_violation "quiz_questions_pkey") ;;
  _ <- guard (mem (qq_quiz_id row) (map quiz_id (quizzes db)))
             (foreign_key_violation "quiz_questions_quiz_id_fkey") ;;
  Ok (with_quiz_questions db (quiz_questions db ++ [row])).

(** The partial unique index
    [uq_correct_option_per_question on quiz_options(question_id) where is_correct]:
    does [row] collide with a row of the table? *)
Definition uq_correct_option_per_question_conflict
    (row : QuizOption) (table : list QuizOption) : bool :=
  is_correct row
  && existsb (fun o => is_correct o
                       && String.eqb (qo_question_id o) (qo_question_id row))
             table.

(** [insert into quiz_options] *)
Definition insert_quiz_option (row : QuizOption) (db : DB) : result DB :=
  _ <- guard (negb (mem (qo_id row) (map qo_id (quiz_options db))))
             (unique_violation "quiz_options_pkey") ;;
  _ <- guard (negb (uq_correct_option_per_question_conflict row (quiz_options db)))
             (unique_violation "uq_correct_option_per_question") ;;
  _ <- guard (mem (qo_question_id row) (map qq_id (quiz_questions db)))
             (foreign_key_violation "quiz_options_question_id_fkey") ;;
  Ok (with_quiz_options db (quiz_options db ++ [row])).

(** [insert into quiz_attempts] *)
Definition insert_quiz_attempt (row : QuizAttempt) (db : DB) : result DB :=
  _ <- guard (negb (mem (qa_id row) (map qa_id (quiz_attempts db))))
             (unique_violation "quiz_attempts_pkey") ;;
  _ <- guard (mem (qa_quiz_id row) (map quiz_id (quizzes db)))
             (foreign_key_violation "quiz_attempts_quiz_id_fkey") ;;
  Ok (with_quiz_attempts db (quiz_attempts db ++ [row])).

(** A row offered to [insert into attempt_answers]: the client may send
    null for the selected option. *)
Record answer_insert := {
  ans_attempt_id : uuid;
  ans_question_id : uuid;
  ans_selected_option_id : option uuid;
  ans_is_correct : bool
}.

(** [insert into attempt_answers]: [selected_option_id uuid not null], the
    primary key [(attempt_id, question_id)], the three foreign keys. *)
Definition insert_attempt_answer (row : answer_insert) (db : DB) : result DB :=
  match ans_selected_option_id row with
  | None => Err (not_null_violation "selected_option_id")
  | Some opt =>
      _ <- guard (negb (existsb
                          (fun a => String.eqb (attempt_id a) (ans_attempt_id row)
                                    && String.eqb (aa_question_id a) (ans_question_id row))
                          (attempt_answers db)))
                 (unique_violation "attempt_answers_pkey") ;;
      _ <- guard (mem (ans_attempt_id row) (map qa_id (quiz_attempts db)))
                 (foreign_key_violation "attempt_answers_attempt_id_fkey") ;;
      _ <- guard (mem (ans_question_id row) (map qq_id (quiz_questions db)))
                 (foreign_key_violation "attempt_answers_question_id_fkey") ;;
      _ <- guard (mem opt (map qo_id (quiz_options db)))
                 (foreign_key_violation "attempt_answers_selected_option_id_fkey") ;;
      Ok (with_attempt_answers db
            (attempt_answers db
             ++ [{| attempt_id := ans_attempt_id row;
                    aa_question_id := ans_question_id row;
                    selected_option_id := opt;
                    aa_is_correct := ans_is_correct row |}]))
  end.

(** [score_percent numeric(5,2) check (score_percent between 0 and 100)];
    a NULL passes the check. *)
Definition score_percent_check (score : option Z) : bool :=
  match score with
  | Some s => (0 <=? s) && (s <=? 100)
  | None => true
  end.

(** [update quiz_attempts set submitted_at = $1, score_percent = $2,
     duration_sec = $3 where id = $4] *)
Definition update_quiz_attempt (id : uuid) (submitted : timestamptz)
    (score duration : option Z) (db : DB) : result DB :=
  _ <- guard (negb (mem id (map qa_id (quiz_attempts db)))
              || score_percent_check score)
             (check_violation "quiz_attempts_score_percent_check") ;;
  Ok (with_quiz_attempts db
        (map (fun a => if String.eqb (qa_id a) id
                       then {| qa_id := qa_id a; qa_quiz_id := qa_quiz_id a;
                               qa_user_id := qa_user_id a;
                               submitted_at := Some submitted;
                               score_percent := score;
                               duration_sec := duration |}
                       else a)
             (quiz_attempts db))).

(** The ids of the questions of a quiz. *)
Definition quiz_question_ids (db : DB) (p_quiz_id : uuid) : list uuid :=
  map qq_id (filter (fun q => String.eqb (qq_quiz_id q) p_quiz_id) (quiz_questions db)).

(** [delete from attempt_answers aa using quiz_questions qq
     where aa.question_id = qq.id and qq.quiz_id = p_quiz_id] *)
Definition delete_attempt_answers_of_quiz (p_quiz_id : uuid) (db : DB) : DB :=
  with_attempt_answers db
    (filter (fun a => negb (mem (aa_question_id a) (quiz_question_ids db p_quiz_id)))
            (attempt_answers db)).

(** [delete from quiz_attempts where ...]; attempt_answers reference the
    attempt [on delete cascade]. *)
Definition delete_quiz_attempts (where_ : QuizAttempt -> bool) (db : DB) : DB :=
  let gone := map qa_id (filter where_ (quiz_attempts db)) in
  with_attempt_answers
    (with_quiz_attempts db (filter (fun a => negb (where_ a)) (quiz_attempts db)))
    (filter (fun a => negb (mem (attempt_id a) gone)) (attempt_answers db)).

(** [delete from quiz_options where ...]; attempt_answers reference the
    selected option [on delete restrict]: an answer that still points to a
    deleted option aborts the statement. *)
Definition delete_quiz_options (where_ : QuizOption -> bool) (db : DB) : result DB :=
  let gone := map qo_id (filter where_ (quiz_options db)) in
  _ <- guard (negb (existsb (fun a => mem (selected_option_id a) gone)
                            (attempt_answers db)))
             (foreign_key_violation "attempt_answers_selected_option_id_fkey") ;;
  Ok (with_quiz_options db (filter (fun o => negb (where_ o)) (quiz_options db))).

(** The check of [on delete restrict] for a statement whose cascades have
    deleted the options [gone_options].  PostgreSQL runs the foreign-key
    actions of a statement as queued row triggers, generation by
    generation: the rows that reference the deleted rows, then the rows
    that reference those, and so on; the check of a restricting key is
    queued when the referenced row goes and runs behind everything queued
    before it.  In this schema the options go one generation after their
    questions, together with the answers to those questions and the
    answers of the deleted attempts, so the check runs when every cascade
    that removes answers has run: it sees the answers the cascades have
    left. *)
Definition selected_option_restrict (gone_options : list uuid) (db : DB)
  : result unit :=
  guard (negb (existsb (fun a => mem (selected_option_id a) gone_options)
                       (attempt_answers db)))
        (foreign_key_violation "attempt_answers_selected_option_id_fkey").

(** The ids of the options of the questions [questions]. *)
Definition options_of_questions (questions : list uuid) (db : DB) : list uuid :=
  map qo_id (filter (fun o => mem (qo_question_id o) questions) (quiz_options db)).

(** What goes with the questions [gone] ([on delete cascade]): their
    options, and the answers to them. *)
Definition cascade_from_quiz_questions (gone : list uuid) (db : DB) : DB :=
  with_attempt_answers
    (with_quiz_options db
       (filter (fun o => negb (mem (qo_question_id o) gone)) (quiz_options db)))
    (filter (fun a => negb (mem (aa_question_id a) gone)) (attempt_answers db)).

(** [delete from quiz_questions where ...]: the rows go, the cascades run,
    then the restriction is checked for the options the cascade deleted. *)
Definition delete_quiz_questions (where_ : QuizQuestion -> bool) (db : DB) : result DB :=
  let gone := map qq_id (filter where_ (quiz_questions db)) in
  let gone_options := options_of_questions gone db in
  let db1 := cascade_from_quiz_questions gone
               (with_quiz_questions db
                  (filter (fun q => negb (where_ q)) (quiz_questions db))) in
  _ <- selected_option_restrict gone_options db1 ;;
  Ok db1.

(** [delete from quizzes where ...]: the rows go; the questions and the
    attempts of the quizzes go with them, then the options of those
    questions, the answers to them and the answers of those attempts; then
    the restriction is checked. *)
Definition delete_quizzes (where_ : Quiz -> bool) (db : DB) : result DB :=
  let gone := map quiz_id (filter where_ (quizzes db)) in
  let gone_questions :=
    map qq_id (filter (fun q => mem (qq_quiz_id q) gone) (quiz_questions db)) in
  let gone_options := options_of_questions gone_questions db in
  let db1 := with_quizzes db (filter (fun q => negb (where_ q)) (quizzes db)) in
  let db2 := with_quiz_questions db1
               (filter (fun q => negb (mem (qq_quiz_id q) gone)) (quiz_questions db1)) in
  let db3 := delete_quiz_attempts (fun a => mem (qa_quiz_id a) gone) db2 in
  let db4 := cascade_from_quiz_questions gone_questions db3 in
  _ <- selected_option_restrict gone_options db4 ;;
  Ok db4.

(** The four statements of [delete_quiz_content(p_quiz_id)], in order. *)
Definition delete_quiz_content_1 := delete_attempt_answers_of_quiz.

Definition delete_quiz_content_2 (p_quiz_id : uuid) : DB -> DB :=
  delete_quiz_attempts (fun qa => String.eqb (qa_quiz_id qa) p_quiz_id).

Definition delete_quiz_content_3 (p_quiz_id : uuid) (db : DB) : result DB :=
  delete_quiz_options
    (fun qo => mem (qo_question_id qo) (quiz_question_ids db p_quiz_id)) db.

Definition delete_quiz_content_4 (p_quiz_id : uuid) : DB -> result DB :=
  delete_quiz_questions (fun qq3 => String.eqb (qq_quiz_id qq3) p_quiz_id).

(** [delete_quiz_content(p_quiz_id)]; an error leaves the transaction
    aborted, the store as it was. *)
Definition delete_quiz_content (p_quiz_id : uuid) (db : DB) : result DB :=
  db3 <- delete_quiz_content_3 p_quiz_id
           (delete_quiz_content_2 p_quiz_id (delete_quiz_content_1 p_quiz_id db)) ;;
  delete_quiz_content_4 p_quiz_id db3.

(** Modelled from the spec: the backend job that regenerates a quiz is not
    among the sources.  As the specification words it, regeneration removes
    the prior content in dependency order (here: by [delete_quiz_content],
    which is in the sources) before inserting the new set, all inside one
    transaction. *)
Definition regenerate_quiz (p_quiz_id : uuid)
    (new_questions : list QuizQuestion) (new_options : list QuizOption) (db : DB)
  : result DB :=
  db1 <- delete_quiz_content p_quiz_id db ;;
  db2 <- for_each insert_quiz_question new_questions db1 ;;
  for_each insert_quiz_option new_options db2.

(** The foreign keys of attempt_answers and quiz_options. *)
Definition answers_reference_questions (db : DB) : bool :=
  forallb (fun a => mem (aa_question_id a) (map qq_id (quiz_questions db)))
          (attempt_answers db).

Definition answers_reference_attempts (db : DB) : bool :=
  forallb (fun a => mem (attempt_id a) (map qa_id (quiz_attempts db)))
          (attempt_answers db).

Definition answers_reference_options (db : DB) : bool :=
  forallb (fun a => mem (selected_option_id a) (map qo_id (quiz_options db)))
          (attempt_answers db).

Definition options_reference_questions (db : DB) : bool :=
  forallb (fun o => mem (qo_question_id o) (map qq_id (quiz_questions db)))
          (quiz_options db).

(** The four foreign keys together. *)
Definition quiz_fks_ok (db : DB) : bool :=
  answers_reference_questions db && answers_reference_attempts db
  && answers_reference_options db && options_reference_questions db.

(** The shape the quiz runner gives every answer, which no constraint of
    the schema enforces: the selected option is an option of the answered
    question. *)
Definition answers_select_own_options (db : DB) : bool :=
  forallb (fun a =>
             forallb (fun o => negb (String.eqb (qo_id o) (selected_option_id a))
                               || String.eqb (qo_question_id o) (aa_question_id a))
                     (quiz_options db))
          (attempt_answers db).

(** An answer that stands in the way of [delete_quiz_content(p_quiz_id)]:
    the first two statements leave it (it answers no question of the quiz
    and belongs to no attempt of the quiz), and it selects an option of a
    question of the quiz. *)
Definition selects_into_quiz (p_quiz_id : uuid) (db : DB) (a : AttemptAnswer) : bool :=
  negb (mem (aa_question_id a) (quiz_question_ids db p_quiz_id))
  && negb (mem (attempt_id a)
               (map qa_id (filter (fun qa => String.eqb (qa_quiz_id qa) p_quiz_id)
                                  (quiz_attempts db))))
  && mem (selected_option_id a)
         (options_of_questions (quiz_question_ids db p_quiz_id) db).

(** The referential facts of [quiz_fks_ok], as propositions. *)
Record quiz_fk_facts (db : DB) : Prop := {
  fk_answer_question :
    forall a, In a (attempt_answers db) ->
              In (aa_question_id a) (map qq_id (quiz_questions db));
  fk_answer_attempt :
    forall a, In a (attempt_answers db) ->
              In (attempt_id a) (map qa_id (quiz_attempts db));
  fk_answer_option :
    forall a, In a (attempt_answers db) ->
              In (selected_option_id a) (map qo_id (quiz_options db));
  fk_option_question :
    forall o, In o (quiz_options db) ->
              In (qo_question_id o) (map qq_id (quiz_questions db))
}.

(** Nothing of the quiz is left. *)
Definition quiz_content_gone (p_quiz_id : uuid) (db : DB) : Prop :=
  (forall q, In q (quiz_questions db) -> qq_quiz_id q <> p_quiz_id)
  /\ (forall qa, In qa (quiz_attempts db) -> qa_quiz_id qa <> p_quiz_id).

(** A quiz [z1] of topic [t1] with two questions, answered once. *)
Definition db_quiz : DB :=
  {| categories := []; topics := [topic_t1]; topic_files := []; documents := [];
     chunks := [];
     quizzes := [{| quiz_id := "z1"; quiz_topic_id := "t1"; quiz_user_id := "u1";
                    quiz_length := 5; quiz_status := ready |};
                 {| quiz_id := "z2"; quiz_topic_id := "t1"; quiz_user_id := "u1";
                    quiz_length := 5; quiz_status := ready |}];
     quiz_questions :=
       [{| qq_id := "q1"; qq_quiz_id := "z1"; question := "2+2?"; order_index := 0 |};
        {| qq_id := "q2"; qq_quiz_id := "z1"; question := "3+3?"; order_index := 1 |};
        {| qq_id := "q3"; qq_quiz_id := "z2"; question := "1+1?"; order_index := 0 |}];
     quiz_options :=
       [{| qo_id := "o1"; qo_question_id := "q1"; option_text := "4"; is_correct := true |};
        {| qo_id := "o2"; qo_question_id := "q1"; option_text := "5"; is_correct := false |};
        {| qo_id := "o3"; qo_question_id := "q2"; option_text := "6"; is_correct := true |};
        {| qo_id := "o4"; qo_question_id := "q3"; option_text := "2"; is_correct := true |}];
     quiz_attempts :=
       [{| qa_id := "a1"; qa_quiz_id := "z1"; qa_user_id := "u1";
           submitted_at := Some 5; score_percent := Some 50; duration_sec := None |};
        {| qa_id := "a2"; qa_quiz_id := "z2"; qa_user_id := "u1";
           submitted_at := Some 6; score_percent := Some 100; duration_sec := None |}];
     attempt_answers :=
       [{| attempt_id := "a1"; aa_question_id := "q1"; selected_option_id := "o2";
           aa_is_correct := false |};
        {| attempt_id := "a1"; aa_question_id := "q2"; selected_option_id := "o3";
           aa_is_correct := true |};
        {| attempt_id := "a2"; aa_question_id := "q3"; selected_option_id := "o4";
           aa_is_correct := true |}] |}.

(** The store [db_quiz] with one answer changed: the answer to question
    [q3] of quiz [z2] selects [o1], an option of question [q1] of quiz
    [z1].  Every foreign key holds. *)
Definition db_cross : DB :=
  with_attempt_answers db_quiz
    [{| attempt_id := "a1"; aa_question_id := "q1"; selected_option_id := "o2";
        aa_is_correct := false |};
     {| attempt_id := "a1"; aa_question_id := "q2"; selected_option_id := "o3";
        aa_is_correct := true |};
     {| attempt_id := "a2"; aa_question_id := "q3"; selected_option_id := "o1";
        aa_is_correct := false |}].

(** The second generation of quiz [z1]. *)
Definition z1_new_questions : list QuizQuestion :=
  [{| qq_id := "q7"; qq_quiz_id := "z1"; question := "5+5?"; order_index := 0 |}].

Definition z1_new_options : list QuizOption :=
  [{| qo_id := "o7"; qo_question_id := "q7"; option_text := "10"; is_correct := true |};
   {| qo_id := "o8"; qo_question_id := "q7"; option_text := "11"; is_correct := false |}].

(* ------------------------------------------------------------------ *)
(** ** The quiz runner page: [submit] *)
(* ------------------------------------------------------------------ *)

(** [type Choice = { id; text; isCorrect? }] and
    [type Question = { id; prompt; choices }], as loaded by the page. *)
Record Choice := {
  choice_id : string;
  choice_text : string;
  isCorrect : bool
}.

Record Question := {
  question_id : string;
  prompt : string;
  choices : list Choice
}.

(** The [answers] state, [Record<string, string>]: question id to the id of
    the selected choice. *)
Definition Answers := string -> option string.

(** An element of [details]. *)
Record Detail := {
  detail_id : string;
  correctChoiceId : string;
  yourChoiceId : option string
}.

(** [x || ""] on a string. *)
Definition or_empty (x : string) : string :=
  if String.eqb x "" then "" else x.

(** [questions.map((qq) => ...)]: [selectedId = answers[qq.id] ?? null],
    [correctOpt = qq.choices.find((c) => c.isCorrect)],
    [correctChoiceId: correctOpt?.id || ""]. *)
Definition detail_of (answers : Answers) (qq : Question) : Detail :=
  {| detail_id := question_id qq;
     correctChoiceId := match find isCorrect (choices qq) with
                        | Some correctOpt => or_empty (choice_id correctOpt)
                        | None => ""
                        end;
     yourChoiceId := answers (question_id qq) |}.

(** [d.yourChoiceId === d.correctChoiceId] *)
Definition strictly_equal (your : option string) (correct : string) : bool :=
  match your with
  | Some y => String.eqb y correct
  | None => false
  end.

(** [!!(d.yourChoiceId && d.yourChoiceId === d.correctChoiceId)]: the empty
    string is falsy. *)
Definition answer_flag (d : Detail) : bool :=
  match yourChoiceId d with
  | Some y => negb (String.eqb y "") && String.eqb y (correctChoiceId d)
  | None => false
  end.

Definition answerRow (attemptId : uuid) (d : Detail) : answer_insert :=
  {| ans_attempt_id := attemptId;
     ans_question_id := detail_id d;
     ans_selected_option_id := yourChoiceId d;
     ans_is_correct := answer_flag d |}.

(** An integer as a JavaScript number. *)
Definition number_of_nat (n : nat) : float :=
  PrimFloat.of_uint63 (Uint63.of_Z (Z.of_nat n)).

(** [Math.round]: the integer nearest to a finite double, a half going up;
    [None] for NaN and the infinities, which [JSON.stringify] sends as
    null. *)
Definition Math_round (x : float) : option Z :=
  match Prim2SF x with
  | S754_zero _ => Some 0
  | S754_finite s m e =>
      let n := if s then Z.neg m else Z.pos m in
      Some (if 0 <=? e then n * 2 ^ e
            else (2 * n + 2 ^ (- e)) / (2 * 2 ^ (- e)))
  | S754_infinity _ => None
  | S754_nan => None
  end.

(** [Math.round((correct / total) * 100)] *)
Definition score_of (correct total : nat) : option Z :=
  Math_round (PrimFloat.mul (PrimFloat.div (number_of_nat correct) (number_of_nat total))
                            (number_of_nat 100)).

(** [details.filter((d) => d.yourChoiceId === d.correctChoiceId).length] *)
Definition correct_of (details : list Detail) : nat :=
  List.length (filter (fun d => strictly_equal (yourChoiceId d) (correctChoiceId d))
                      details).

(** Where [submit] sends the browser. *)
Inductive destination := results_page | quizzes_list.

(** [submit()].  [authed] is the signed-in user, [attemptId] the id the
    database generates for the attempt, [now] the clock.  The statements are
    not in one transaction: what was written before an error stays. *)
Definition submit (quizId : uuid) (authed : option uuid) (attemptId : uuid)
    (questions : list Question) (answers : Answers) (now : timestamptz) (db : DB)
  : DB * destination :=
  match authed with
  | None => (db, quizzes_list)
  | Some user =>
      match insert_quiz_attempt
              {| qa_id := attemptId; qa_quiz_id := quizId; qa_user_id := user;
                 submitted_at := None; score_percent := None; duration_sec := None |}
              db with
      | Err _ => (db, quizzes_list)
      | Ok db1 =>
          let details := map (detail_of answers) questions in
          let answerRows := map (answerRow attemptId) details in
          match (match answerRows with
                 | [] => Ok db1
                 | _ :: _ => for_each insert_attempt_answer answerRows db1
                 end) with
          | Err _ => (db1, quizzes_list)
          | Ok db2 =>
              let correct := correct_of details in
              let total := List.length questions in
              let score := score_of correct total in
              match update_quiz_attempt attemptId now score None db2 with
              | Err _ => (db2, quizzes_list)
              | Ok db3 => (db3, results_page)
              end
          end
      end
  end.

(** The specification's [correct_count]: the questions whose selected
    option is an option of the question flagged correct. *)
Definition correct_count (questions : list Question) (answers : Answers) : nat :=
  List.length
    (filter (fun qq =>
               match answers (question_id qq) with
               | Some y => existsb (fun c => isCorrect c && String.eqb (choice_id c) y)
                                   (choices qq)
               | None => false
               end)
            questions).

(** The specification's [round(100 * correct_count / total_questions)], a
    half going up. *)
Definition round_percent (correct total : nat) : Z :=
  (200 * Z.of_nat correct + Z.of_nat total) / (2 * Z.of_nat total).

(** What the partial unique index grants the loaded questions. *)
Definition one_correct_at_most (qq : Question) : bool :=
  (List.length (filter isCorrect (choices qq)) <=? 1)%nat.

(** No selected id is the empty string (the text of a uuid never is). *)
Definition selected_nonempty (answers : Answers) (qq : Question) : bool :=
  negb (strictly_equal (answers (question_id qq)) "").

(** *** Generated quizzes for the examples: question [i] of quiz [z] has the
    correct option [z-i-a] and the wrong option [z-i-b]. *)

Definition gen_id (z : uuid) (i : nat) (suffix : string) : uuid :=
  z ++ "-" ++ string_of_Z (Z.of_nat i) ++ suffix.

Definition gen_question_rows (z : uuid) (n : nat) : list QuizQuestion :=
  map (fun i => {| qq_id := gen_id z i ""; qq_quiz_id := z;
                   question := "?"; order_index := Z.of_nat i |})
      (seq 0 n).

Definition gen_option_rows (z : uuid) (n : nat) : list QuizOption :=
  flat_map (fun i => [{| qo_id := gen_id z i "-a"; qo_question_id := gen_id z i "";
                         option_text := "yes"; is_correct := true |};
                      {| qo_id := gen_id z i "-b"; qo_question_id := gen_id z i "";
                         option_text := "no"; is_correct := false |}])
           (seq 0 n).

Definition gen_db (z : uuid) (n : nat) : DB :=
  {| categories := []; topics := [topic_t1]; topic_files := []; documents := [];
     chunks := [];
     quizzes := [{| quiz_id := z; quiz_topic_id := "t1"; quiz_user_id := "u1";
                    quiz_length := 10; quiz_status := ready |}];
     quiz_questions := gen_question_rows z n;
     quiz_options := gen_option_rows z n;
     quiz_attempts := []; attempt_answers := [] |}.

(** The questions as the page loads them. *)
Definition gen_questions (z : uuid) (n : nat) : list Question :=
  map (fun i => {| question_id := gen_id z i ""; prompt := "?";
                   choices := [{| choice_id := gen_id z i "-a"; choice_text := "yes";
                                  isCorrect := true |};
                               {| choice_id := gen_id z i "-b"; choice_text := "no";
                                  isCorrect := false |}] |})
      (seq 0 n).

(** The first [k] questions answered right, the others wrong. *)
Definition gen_answers (z : uuid) (k : nat) : Answers :=
  fun qid =>
    if mem qid (map (fun i => gen_id z i "") (seq 0 k))
    then Some (qid ++ "-a") else Some (qid ++ "-b").

(** The scores of all quizzes of fewer than forty questions, checked
    against [round_percent]. *)
Definition score_table_ok : bool :=
  forallb (fun t =>
             forallb (fun c => match score_of c t with
                               | Some s => Z.eqb s (round_percent c t)
                               | None => false
                               end)
                     (seq 0 (S t)))
          (seq 1 39).

(* ------------------------------------------------------------------ *)
(** ** topics and categories: [prune_orphan_category] *)
(* ------------------------------------------------------------------ *)

Definition set_category_id (c : option uuid) (t : Topic) : Topic :=
  {| topic_id := topic_id t; topic_user_id := topic_user_id t;
     category_id := c; topic_name := topic_name t;
     status := status t; last_used_at := last_used_at t |}.

(** [t.category_id = $1] for a non-null [$1]. *)
Definition references (cid : uuid) (t : Topic) : bool :=
  option_uuid_eqb (category_id t) (Some cid).

(** [delete from categories where ...]; topics reference the category
    [on delete set null].  (The set-null is an update of
    [topics.category_id] and so runs the pruning trigger again for the
    deleted category, which by then deletes nothing.) *)
Definition delete_categories (where_ : Category -> bool) (db : DB) : DB :=
  let gone := map cat_id (filter where_ (categories db)) in
  with_topics
    (with_categories db (filter (fun c => negb (where_ c)) (categories db)))
    (map (fun t => match category_id t with
                   | Some c => if mem c gone then set_category_id None t else t
                   | None => t
                   end)
         (topics db)).

(** [prune_orphan_category()], run with [old] the deleted or re-pointed
    topic row:
    [if old.category_id is null then return old; end if;
     if not exists (select 1 from topics t where t.category_id = old.category_id)
     then delete from categories c
          where c.id = old.category_id and c.user_id = old.user_id; end if;] *)
Definition prune_orphan_category (db : DB) (old : Topic) : DB :=
  match category_id old with
  | None => db
  | Some cid =>
      if existsb (references cid) (topics db) then db
      else delete_categories
             (fun c => String.eqb (cat_id c) cid
                       && String.eqb (cat_user_id c) (topic_user_id old))
             db
  end.

(** [delete from documents where ...], chunks cascading. *)
Definition delete_documents_where (where_ : Document -> bool) (db : DB) : DB :=
  let gone := map doc_id (filter where_ (documents db)) in
  with_chunks
    (with_documents db (filter (fun d => negb (where_ d)) (documents db)))
    (filter (fun c => negb (mem (document_id c) gone)) (chunks db)).

(** [delete from topic_files where ...], documents (and their chunks)
    cascading. *)
Definition delete_topic_files (where_ : TopicFile -> bool) (db : DB) : DB :=
  let gone := map file_id (filter where_ (topic_files db)) in
  delete_documents_where
    (fun d => mem (topic_file_id d) gone)
    (with_topic_files db (filter (fun f => negb (where_ f)) (topic_files db))).

(** [delete from topics where ...].  The rows go; the cascades run to
    topic_files, documents, chunks and quizzes (topic_summaries is not
    modelled), and [t_topics_prune_category_after_delete] runs for each
    deleted row.  The check of the restriction on the selected options,
    the last thing the statement does, is taken with the cascade from the
    quizzes: when it fails nothing of the statement stays. *)
Definition delete_topics (where_ : Topic -> bool) (db : DB) : result DB :=
  let old_rows := filter where_ (topics db) in
  let gone := map topic_id old_rows in
  let db1 := with_topics db (filter (fun t => negb (where_ t)) (topics db)) in
  let db2 := delete_topic_files (fun f => mem (file_topic_id f) gone) db1 in
  let db3 := delete_documents_where (fun d => mem (doc_topic_id d) gone) db2 in
  let db4 := with_chunks db3
               (filter (fun c => negb (mem (chunk_topic_id c) gone)) (chunks db3)) in
  db5 <- delete_quizzes (fun q => mem (quiz_topic_id q) gone) db4 ;;
  Ok (fold_left prune_orphan_category old_rows db5).

(** The SET list of an [update topics] statement. *)
Record topic_set := {
  set_topic_name : option string;
  set_topic_category_id : option (option uuid);
  set_topic_status : option topic_status
}.

Definition apply_topic_set (s : topic_set) (t : Topic) : Topic :=
  {| topic_id := topic_id t; topic_user_id := topic_user_id t;
     category_id := match set_topic_category_id s with
                    | Some c => c
                    | None => category_id t
                    end;
     topic_name := match set_topic_name s with Some n => n | None => topic_name t end;
     status := match set_topic_status s with Some x => x | None => status t end;
     last_used_at := last_used_at t |}.

(** [after update of category_id ... when (old.category_id is distinct from
    new.category_id)]: does the statement re-point the row? *)
Definition repoints (s : topic_set) (old : Topic) : bool :=
  match set_topic_category_id s with
  | Some c => negb (option_uuid_eqb (category_id old) c)
  | None => false
  end.

(** The foreign key of [topics.category_id], checked for re-pointed rows. *)
Definition category_fk_ok (s : topic_set) (db : DB) (old : Topic) : bool :=
  match set_topic_category_id s with
  | Some (Some c) => negb (repoints s old) || mem c (map cat_id (categories db))
  | _ => true
  end.

(** [update topics set ... where ...], then
    [t_topics_prune_category_after_update] for each re-pointed row. *)
Definition update_topics (where_ : Topic -> bool) (s : topic_set) (db : DB)
  : result DB :=
  let old_rows := filter where_ (topics db) in
  _ <- guard (forallb (category_fk_ok s db) old_rows)
             (foreign_key_violation "topics_category_id_fkey") ;;
  let db1 := with_topics db
               (map (fun t => if where_ t then apply_topic_set s t else t) (topics db)) in
  Ok (fold_left prune_orphan_category (filter (repoints s) old_rows) db1).

(** Does the pruning for the rows [olds] remove the category [c], the
    topics table being [after]? *)
Definition prunes (olds after : list Topic) (c : Category) : bool :=
  existsb (fun old => references (cat_id c) old
                      && String.eqb (topic_user_id old) (cat_user_id c))
          olds
  && negb (existsb (references (cat_id c)) after).

(** A category of user [u1] referenced by a topic of user [u2] only. *)
Definition db_foreign_category : DB :=
  {| categories := [{| cat_id := "c1"; cat_user_id := "u1"; cat_name := "Maths" |}];
     topics := [{| topic_id := "t9"; topic_user_id := "u2"; category_id := Some "c1";
                   topic_name := "Sets"; status := active; last_used_at := 0 |}];
     topic_files := []; documents := []; chunks := []; quizzes := [];
     quiz_questions := []; quiz_options := []; quiz_attempts := [];
     attempt_answers := [] |}.

(** Category [c1] referenced by two topics of its owner, [c2] by one. *)
Definition category_maths : Category :=
  {| cat_id := "c1"; cat_user_id := "u1"; cat_name := "Maths" |}.

Definition category_art : Category :=
  {| cat_id := "c2"; cat_user_id := "u1"; cat_name := "Art" |}.

Definition topic_in (id : uuid) (c : uuid) : Topic :=
  {| topic_id := id; topic_user_id := "u1"; category_id := Some c;
     topic_name := "Notes"; status := active; last_used_at := 0 |}.

Definition db_two_topics : DB :=
  {| categories := [category_maths; category_art];
     topics := [topic_in "t1" "c1"; topic_in "t2" "c1"; topic_in "t3" "c2"];
     topic_files := []; documents := []; chunks := []; quizzes := [];
     quiz_questions := []; quiz_options := []; quiz_attempts := [];
     attempt_answers := [] |}.

(** Two topics with a category each; the quizzes of [db_quiz], answered,
    belong to topic [t1]. *)
Definition db_answered : DB :=
  with_categories
    (with_topics db_quiz [topic_in "t1" "c1"; topic_in "t2" "c2"])
    [category_maths; category_art].

(* ------------------------------------------------------------------ *)
(** ** Topics stamped by the writes to their files *)
(* ------------------------------------------------------------------ *)

(** The topic [t] after [t_topic_files_bump] has run for the written rows
    [l]: [update topics set last_used_at = now() where id = new.topic_id],
    once for every row. *)
Definition stamped (now : timestamptz) (l : list TopicFile) (t : Topic) : Topic :=
  if existsb (fun g => String.eqb (topic_id t) (file_topic_id g)) l
  then set_last_used_at now t else t.

(** The row [t'] is the row [t], with [last_used_at = now] if [touched]:
    column by column. *)
Definition stamped_from (touched : bool) (now : timestamptz) (t t' : Topic) : Prop :=
  topic_id t' = topic_id t
  /\ topic_user_id t' = topic_user_id t
  /\ category_id t' = category_id t
  /\ topic_name t' = topic_name t
  /\ status t' = status t
  /\ last_used_at t' = (if touched then now else last_used_at t).

(* ------------------------------------------------------------------ *)
(** ** The quiz pages: loading a quiz, reading the results *)
(* ------------------------------------------------------------------ *)

(** The rows of
    [from("quiz_questions").select("id,question,order_index,quiz_options(...)")
     .eq("quiz_id", quizId).order("order_index", { ascending: true })].
    Rows with the same [order_index] are kept in heap order, one of the
    orders the database may produce. *)
Definition select_quiz_questions (db : DB) (quizId : uuid) : list QuizQuestion :=
  sort_by (fun a b => order_index a <=? order_index b)
          (filter (fun q => String.eqb (qq_quiz_id q) quizId) (quiz_questions db)).

(** The embedded resource [quiz_options(id,option_text,is_correct)] of the
    question row [r]: the options that reference it. *)
Definition embedded_quiz_options (db : DB) (r : QuizQuestion) : list QuizOption :=
  filter (fun o => String.eqb (qo_question_id o) (qq_id r)) (quiz_options db).

(** [{ id: o.id, text: o.option_text, isCorrect: !!o.is_correct }] *)
Definition choice_of (o : QuizOption) : Choice :=
  {| choice_id := qo_id o; choice_text := option_text o; isCorrect := is_correct o |}.

(** [{ id: r.id, prompt: r.question, choices: (r.quiz_options || []).map(...) }] *)
Definition question_of (db : DB) (r : QuizQuestion) : Question :=
  {| question_id := qq_id r; prompt := question r;
     choices := map choice_of (embedded_quiz_options db r) |}.

(** Why the runner's [load] sends the browser back to the list of quizzes. *)
Inductive load_error :=
| not_signed_in
| no_single_quiz_row
| quiz_not_ready
| no_questions_found.

(** [load()] of the quiz runner: the signed-in user, the quiz row
    ([.single()] wants exactly one), its status, then the questions. *)
Definition load_quiz (authed : option uuid) (quizId : uuid) (db : DB)
  : load_error + list Question :=
  match authed with
  | None => inl not_signed_in
  | Some _ =>
      match filter (fun q => String.eqb (quiz_id q) quizId) (quizzes db) with
      | [quizRow] =>
          match quiz_status quizRow with
          | ready =>
              match map (question_of db) (select_quiz_questions db quizId) with
              | [] => inl no_questions_found
              | qs => inr qs
              end
          | _ => inl quiz_not_ready
          end
      | _ => inl no_single_quiz_row
      end
  end.

(** The partial unique index [uq_correct_option_per_question] as a
    property of the table: no two correct options share a question. *)
Definition uq_correct_option_per_question (table : list QuizOption) : Prop :=
  NoDup (map qo_question_id (filter is_correct table)).

(** [order by submitted_at desc]: descending puts NULL first. *)
Definition submitted_desc (a b : QuizAttempt) : bool :=
  match submitted_at a, submitted_at b with
  | None, _ => true
  | Some _, None => false
  | Some x, Some y => y <=? x
  end.

(** The results page's first query:
    [from("quiz_attempts").select(...).eq("quiz_id", quizId).eq("user_id", authed.id)
     .not("submitted_at", "is", null).order("submitted_at", { ascending: false })
     .limit(1)], then [attempts?.[0]].  Attempts submitted at the same
    instant are kept in heap order. *)
Definition latest_submitted_attempt (db : DB) (quizId user : uuid)
  : option QuizAttempt :=
  hd_error
    (sort_by submitted_desc
       (filter (fun a => String.eqb (qa_quiz_id a) quizId
                         && String.eqb (qa_user_id a) user
                         && is_some (submitted_at a))
               (quiz_attempts db))).

(** [new Map(pairs)] and [.get(key)]: of two pairs with the same key the
    later one counts. *)
Definition Map_get (pairs : list (string * string)) (key : string) : option string :=
  option_map snd (find (fun p => String.eqb (fst p) key) (rev pairs)).

(** The element of [details] the results page builds for the question row
    [r]: [correct = (r.quiz_options || []).find((o) => !!o.is_correct)],
    [correctChoiceId: correct?.id || ""],
    [yourChoiceId: selectedByQ.get(r.id) ?? null]. *)
Definition result_detail (db : DB) (selectedByQ : list (string * string))
    (r : QuizQuestion) : Detail :=
  {| detail_id := qq_id r;
     correctChoiceId := match find is_correct (embedded_quiz_options db r) with
                        | Some correct => or_empty (qo_id correct)
                        | None => ""
                        end;
     yourChoiceId := Map_get selectedByQ (qq_id r) |}.

(** [type Stored = { score, total, completedAt, detail }] *)
Record Stored := {
  stored_score : Z;
  stored_total : nat;
  completedAt : option timestamptz;
  detail : list Detail
}.

(** [Math.round(Number.isFinite(parsed) ? parsed : 0)] with
    [parsed = attempt.score_percent == null ? 0 : Number.parseFloat(String(...))]:
    an integral score comes back as it is, NULL as 0. *)
Definition shown_score (score_percent : option Z) : Z :=
  match score_percent with
  | Some s => s
  | None => 0
  end.

(** [load()] of the results page; [None] stands for the redirection to the
    list of quizzes (not signed in, or no submitted attempt). *)
Definition load_results (authed : option uuid) (quizId : uuid) (db : DB)
  : option Stored :=
  match authed with
  | None => None
  | Some user =>
      match latest_submitted_attempt db quizId user with
      | None => None
      | Some attempt =>
          let qrows := select_quiz_questions db quizId in
          let arows := filter (fun a => String.eqb (attempt_id a) (qa_id attempt))
                              (attempt_answers db) in
          let selectedByQ :=
            map (fun r => (aa_question_id r, selected_option_id r)) arows in
          let details := map (result_detail db selectedByQ) qrows in
          Some {| stored_score := shown_score (score_percent attempt);
                  stored_total := List.length details;
                  completedAt := submitted_at attempt;
                  detail := details |}
      end
  end.

(* ------------------------------------------------------------------ *)
(** ** The view [quiz_latest_stats] *)
(* ------------------------------------------------------------------ *)

(** A row of the view: [quiz_id, last_taken_at, last_score_percent]. *)
Record LatestStat := {
  stat_quiz_id : uuid;
  last_taken_at : option timestamptz;
  last_score_percent : option Z
}.

(** [from quizzes q
     left join quiz_attempts a on a.quiz_id = q.id and a.submitted_at is not null]:
    a quiz without a submitted attempt gives one row, its [a] columns NULL. *)
Definition quizzes_left_join_attempts (db : DB) : list (Quiz * option QuizAttempt) :=
  flat_map
    (fun q =>
       match filter (fun a => String.eqb (qa_quiz_id a) (quiz_id q)
                              && is_some (submitted_at a))
                    (quiz_attempts db) with
       | [] => [(q, None)]
       | a :: l => map (fun a => (q, Some a)) (a :: l)
       end)
    (quizzes db).

(** [a.submitted_at] and [a.score_percent] of a joined row. *)
Definition joined_submitted_at (x : Quiz * option QuizAttempt) : option timestamptz :=
  match snd x with
  | Some a => submitted_at a
  | None => None
  end.

Definition joined_score_percent (x : Quiz * option QuizAttempt) : option Z :=
  match snd x with
  | Some a => score_percent a
  | None => None
  end.

(** Descending on a nullable key puts NULL first. *)
Definition desc_nulls_first (a b : option timestamptz) : Prop :=
  match a, b with
  | None, _ => True
  | Some _, None => False
  | Some x, Some y => y <= x
  end.

(** [order by q.id, a.submitted_at desc].  A uuid is compared byte by byte,
    which on its text is the order of strings. *)
Definition by_quiz_then_latest (x y : Quiz * option QuizAttempt) : Prop :=
  String.leb (quiz_id (fst x)) (quiz_id (fst y)) = true
  /\ (quiz_id (fst x) = quiz_id (fst y) ->
      desc_nulls_first (joined_submitted_at x) (joined_submitted_at y)).

(** [select distinct on (key)] over ordered rows: a row is kept when its key
    differs from the key of the row kept before it. *)
Fixpoint distinct_on {A} (key : A -> uuid) (prev : option uuid) (l : list A) : list A :=
  match l with
  | [] => []
  | x :: l' =>
      if option_uuid_eqb prev (Some (key x)) then distinct_on key prev l'
      else x :: distinct_on key (Some (key x)) l'
  end.

(** The select list:
    [q.id as quiz_id, a.submitted_at as last_taken_at,
     a.score_percent as last_score_percent]. *)
Definition select_stat (x : Quiz * option QuizAttempt) : LatestStat :=
  {| stat_quiz_id := quiz_id (fst x);
     last_taken_at := joined_submitted_at x;
     last_score_percent := joined_score_percent x |}.

(** The tables the view may show: the joined rows in some order that
    [order by q.id, a.submitted_at desc] allows (attempts submitted at the
    same instant come in whatever order the executor produces), the first
    row of every quiz kept. *)
Definition quiz_latest_stats_returns (db : DB) (rows : list LatestStat) : Prop :=
  exists ordered,
    Permutation ordered (quizzes_left_join_attempts db)
    /\ StronglySorted by_quiz_then_latest ordered
    /\ rows = map select_stat (distinct_on (fun x => quiz_id (fst x)) None ordered).

(** The quizzes of [db_quiz] and a third one never attempted; quiz [z1]
    attempted three times, the last attempt not submitted. *)
Definition db_stats : DB :=
  with_quiz_attempts
    (with_quizzes db_quiz
       (quizzes db_quiz
        ++ [{| quiz_id := "z3"; quiz_topic_id := "t1"; quiz_user_id := "u1";
               quiz_length := 5; quiz_status := pending |}]))
    (quiz_attempts db_quiz
     ++ [{| qa_id := "a3"; qa_quiz_id := "z1"; qa_user_id := "u2";
            submitted_at := Some 9; score_percent := Some 100; duration_sec := None |};
         {| qa_id := "a4"; qa_quiz_id := "z1"; qa_user_id := "u1";
            submitted_at := None; score_percent := None; duration_sec := None |}]).

Definition stats_of_db_stats : list LatestStat :=
  [{| stat_quiz_id := "z1"; last_taken_at := Some 9; last_score_percent := Some 100 |};
   {| stat_quiz_id := "z2"; last_taken_at := Some 6; last_score_percent := Some 100 |};
   {| stat_quiz_id := "z3"; last_taken_at := None; last_score_percent := None |}].

(* ------------------------------------------------------------------ *)
(** ** auth.users and profiles: [handle_new_user], the backfill *)
(* ------------------------------------------------------------------ *)

(** A [jsonb] object as [->>] reads it: its keys, each with the text of its
    value, [None] for a JSON null.  (A jsonb object holds a key once.) *)
Definition jsonb_object := list (string * option string).

(** The columns of [auth.users] the script reads.  [raw_user_meta_data] is
    [None] when the column is NULL or holds no object. *)
Record AuthUser := {
  user_id : uuid;
  email : option string;
  raw_user_meta_data : option jsonb_object
}.

Inductive theme_pref := light | dark.

(** [public.profiles], without its two timestamps. *)
Record Profile := {
  profile_user_id : uuid;
  first_name : string;
  last_name : string;
  avatar_url : option string;
  theme : theme_pref
}.

(** [j ->> key] *)
Definition jsonb_get_text (j : option jsonb_object) (key : string) : option string :=
  match j with
  | Some o => match find (fun kv => String.eqb (fst kv) key) o with
              | Some kv => snd kv
              | None => None
              end
  | None => None
  end.

(** [coalesce(a, b)] *)
Definition coalesce {A} (a b : option A) : option A :=
  match a with
  | Some x => Some x
  | None => b
  end.

(** [nullif(a, b)] on text *)
Definition nullif (a : option string) (b : string) : option string :=
  match a with
  | Some x => if String.eqb x b then None else Some x
  | None => None
  end.

(** The fields of [s] between the occurrences of the character [sep]. *)
Fixpoint fields (sep : ascii) (s : string) : list string :=
  match s with
  | EmptyString => [EmptyString]
  | String c s' =>
      if Ascii.eqb c sep then EmptyString :: fields sep s'
      else match fields sep s' with
           | w :: ws => String c w :: ws
           | [] => [String c EmptyString]
           end
  end.

(** [split_part(s, sep, n)] for a one-character delimiter and [n >= 1]: the
    [n]-th field, the empty string when there are fewer; NULL for NULL. *)
Definition split_part (s : option string) (sep : ascii) (n : nat) : option string :=
  option_map (fun s => nth (n - 1) (fields sep s) EmptyString) s.

(** [v_first := coalesce(new.raw_user_meta_data->>'first_name',
       split_part(coalesce(new.raw_user_meta_data->>'full_name', new.email),' ',1),'')] *)
Definition v_first (new : AuthUser) : string :=
  match coalesce (jsonb_get_text (raw_user_meta_data new) "first_name")
                 (split_part (coalesce (jsonb_get_text (raw_user_meta_data new) "full_name")
                                       (email new))
                             " "%char 1) with
  | Some x => x
  | None => ""
  end.

(** [v_last := coalesce(new.raw_user_meta_data->>'last_name',
       nullif(split_part(coalesce(new.raw_user_meta_data->>'full_name', new.email),' ',2),''),'')] *)
Definition v_last (new : AuthUser) : string :=
  match coalesce (jsonb_get_text (raw_user_meta_data new) "last_name")
                 (nullif (split_part (coalesce (jsonb_get_text (raw_user_meta_data new)
                                                               "full_name")
                                               (email new))
                                     " "%char 2)
                         "") with
  | Some x => x
  | None => ""
  end.

(** [values (new.id, v_first, v_last, null, 'light')] *)
Definition profile_of_user (new : AuthUser) : Profile :=
  {| profile_user_id := user_id new; first_name := v_first new;
     last_name := v_last new; avatar_url := None; theme := light |}.

Definition has_profile (profiles : list Profile) (id : uuid) : bool :=
  mem id (map profile_user_id profiles).

(** [handle_new_user()], run with [new] the inserted user:
    [insert into profiles ... on conflict (user_id) do nothing]. *)
Definition handle_new_user (new : AuthUser) (profiles : list Profile) : list Profile :=
  if has_profile profiles (user_id new) then profiles
  else profiles ++ [profile_of_user new].

(** The two tables. *)
Record Accounts := {
  users : list AuthUser;
  profiles : list Profile
}.

(** [insert into auth.users] as far as this script goes: the primary key,
    then the trigger [on_auth_user_created]. *)
Definition insert_auth_user (new : AuthUser) (st : Accounts) : result Accounts :=
  _ <- guard (negb (mem (user_id new) (map user_id (users st))))
             (unique_violation "users_pkey") ;;
  Ok {| users := users st ++ [new];
        profiles := handle_new_user new (profiles st) |}.

(** Does a list of ids hold an id twice? *)
Fixpoint has_duplicate (l : list uuid) : bool :=
  match l with
  | [] => false
  | x :: l' => mem x l' || has_duplicate l'
  end.

(** The backfill:
    [insert into profiles (...) select u.id, ..., null, 'light'
     from auth.users u left join profiles p on p.user_id = u.id
     where p.user_id is null].
    The selected rows are the users without a profile; the insert has no
    [on conflict] clause, so the primary key of profiles is checked. *)
Definition backfill_profiles (st : Accounts) : result Accounts :=
  let rows := map profile_of_user
                  (filter (fun u => negb (has_profile (profiles st) (user_id u)))
                          (users st)) in
  _ <- guard (negb (has_duplicate (map profile_user_id rows)))
             (unique_violation "profiles_pkey") ;;
  Ok {| users := users st; profiles := profiles st ++ rows |}.

(** Every user has a profile. *)
Definition every_user_has_a_profile (st : Accounts) : Prop :=
  forall u, In u (users st) -> In (user_id u) (map profile_user_id (profiles st)).

(** No space in a word. *)
Definition no_space (w : string) : Prop :=
  forall c, In c (list_ascii_of_string w) -> c <> " "%char.

(* ------------------------------------------------------------------ *)
(** ** Categories: the cleanup statement, the dialog that creates a topic *)
(* ------------------------------------------------------------------ *)

(** [delete from categories c
     where not exists (select 1 from topics t where t.category_id = c.id)] *)
Definition cleanup_stray_categories (db : DB) : DB :=
  delete_categories (fun c => negb (existsb (references (cat_id c)) (topics db))) db.

(** [insert into categories]: the primary key and [unique(user_id, name)]. *)
Definition insert_category (row : Category) (db : DB) : result DB :=
  _ <- guard (negb (mem (cat_id row) (map cat_id (categories db))))
             (unique_violation "categories_pkey") ;;
  _ <- guard (negb (existsb (fun c => String.eqb (cat_user_id c) (cat_user_id row)
                                      && String.eqb (cat_name c) (cat_name row))
                            (categories db)))
             (unique_violation "categories_user_id_name_key") ;;
  Ok (with_categories db (categories db ++ [row])).

(** [insert into topics]: the primary key and the foreign key to
    categories.  No trigger of the script runs on an insert into topics. *)
Definition insert_topic (row : Topic) (db : DB) : result DB :=
  _ <- guard (negb (mem (topic_id row) (map topic_id (topics db))))
             (unique_violation "topics_pkey") ;;
  _ <- guard (match category_id row with
              | Some c => mem c (map cat_id (categories db))
              | None => true
              end)
             (foreign_key_violation "topics_category_id_fkey") ;;
  Ok (with_topics db (topics db ++ [row])).

(** CreateTopicDialog.tsx: [type Category = { id: string; name: string }],
    an entry of the list the dialog loaded when it opened. *)
Record CategoryItem := {
  item_id : uuid;
  item_name : string
}.

(** [from("categories").select("id,name").eq("user_id", authed.id)],
    leaving aside the order by name. *)
Definition select_categories (db : DB) (user : uuid) : list CategoryItem :=
  map (fun c => {| item_id := cat_id c; item_name := cat_name c |})
      (filter (fun c => String.eqb (cat_user_id c) user) (categories db)).

Inductive create_error :=
| please_enter_a_topic_name
| must_be_signed_in
| rejected (e : pg_error).

Section CreateTopicDialog.

(** [String.prototype.trim] and [String.prototype.toLowerCase]. *)
Variable trim : string -> string.
Variable toLowerCase : string -> string.

(** The state of the dialog: the loaded [categories], the entry picked in
    the list if any, the text of the category box. *)
Variable categories_loaded : list CategoryItem.
Variable selectedCategoryId : option uuid.
Variable categoryInput : string.

(** A string is truthy unless it is empty. *)
Definition truthy (s : string) : bool := negb (String.eqb s "").

(** [ensureCategory()].  [user] is the signed-in user, [new_id] the id the
    database generates if a category is inserted.  The result is the pair
    [{ id, name }], [id] being null when no category is meant. *)
Definition ensureCategory (user : option uuid) (new_id : uuid) (db : DB)
  : DB * (create_error + option uuid * string) :=
  let typed := trim categoryInput in
  match user with
  | None => (db, inl must_be_signed_in)
  | Some user =>
      match (match selectedCategoryId with
             | Some id => if truthy id then Some id else None
             | None => None
             end) with
      | Some id =>
          let name := match find (fun c => String.eqb (item_id c) id) categories_loaded with
                      | Some found => item_name found
                      | None => typed
                      end in
          (db, inr (Some id, if truthy name then name else "Uncategorized"))
      | None =>
          if truthy typed then
            match find (fun c => String.eqb (toLowerCase (item_name c)) (toLowerCase typed))
                       categories_loaded with
            | Some existingByName =>
                (db, inr (Some (item_id existingByName), item_name existingByName))
            | None =>
                match insert_category
                        {| cat_id := new_id; cat_user_id := user; cat_name := typed |}
                        db with
                | Ok db' => (db', inr (Some new_id, typed))
                | Err insertErr =>
                    match filter (fun c => String.eqb (cat_name c) typed
                                           && String.eqb (cat_user_id c) user)
                                 (categories db) with
                    | [foundCat] => (db, inr (Some (cat_id foundCat), cat_name foundCat))
                    | _ => (db, inl (rejected insertErr))
                    end
                end
            end
          else (db, inr (None, "General"))
      end
  end.

(** [handleCreate()].  [new_topic_id] is the id the database generates for
    the topic, [now] the clock at the insert of the three summaries, which
    stamps the topic through [t_topic_summaries_bump] (the table of the
    summaries is kept apart from [DB]: the rows are
    [handleCreate_summaries], further down). *)
Definition handleCreate (topicName : string) (user : option uuid)
    (new_category_id new_topic_id : uuid) (created now : timestamptz) (db : DB)
  : DB * option create_error :=
  if negb (truthy (trim topicName)) then (db, Some please_enter_a_topic_name)
  else
    match user with
    | None => (db, Some must_be_signed_in)
    | Some u =>
        match ensureCategory user new_category_id db with
        | (db1, inl e) => (db1, Some e)
        | (db1, inr (categoryId, _)) =>
            match insert_topic
                    {| topic_id := new_topic_id; topic_user_id := u;
                       category_id := categoryId; topic_name := trim topicName;
                       status := active; last_used_at := created |}
                    db1 with
            | Err e => (db1, Some (rejected e))
            | Ok db2 => (bump_topic_last_used_from_topic new_topic_id now db2, None)
            end
        end
    end.

(** What the dialog's state owes to the way it is filled: the loaded list
    holds categories of the signed-in user that are in the table, and the
    picked entry is one of the list. *)
Definition dialog_state_ok (user : uuid) (db : DB) : Prop :=
  (forall item, In item categories_loaded ->
     exists c, In c (categories db) /\ cat_id c = item_id item /\ cat_user_id c = user)
  /\ (forall id, selectedCategoryId = Some id -> In id (map item_id categories_loaded)).

End CreateTopicDialog.

(** A topic that has a category has one of its own user. *)
Definition categories_of_owner (db : DB) : Prop :=
  forall t c, In t (topics db) -> In c (categories db) ->
              category_id t = Some (cat_id c) -> topic_user_id t = cat_user_id c.

(** The foreign key of [topics.category_id]. *)
Definition topics_category_fk (db : DB) : Prop :=
  forall t c, In t (topics db) -> category_id t = Some c ->
              In c (map cat_id (categories db)).

(* ------------------------------------------------------------------ *)
(** ** TopicUpload.tsx: [detectMediaType], [fmtSize] *)
(* ------------------------------------------------------------------ *)

(** [type DbMediaType], the enum [file_media_type] of the schema. *)
Inductive DbMediaType := document | image | video | audio | presentation | other.

(** [toLowerCase] on the letters A to Z.  A string is held as the bytes of
    its UTF-8 text; bytes outside ASCII stay as they are, which decides the
    comparisons below as JavaScript does: the extensions compared with have
    ASCII letters only, and none of them has a letter that a character
    outside ASCII lowers to. *)
Definition lower_ascii (c : ascii) : ascii :=
  if (Ascii.leb "A" c && Ascii.leb c "Z")%char
  then ascii_of_nat (nat_of_ascii c + 32) else c.

Fixpoint lower (s : string) : string :=
  match s with
  | EmptyString => EmptyString
  | String c s' => String (lower_ascii c) (lower s')
  end.

(** [name.split(".").pop()?.toLowerCase() || ""] *)
Definition extension (name : string) : string :=
  lower (last (fields "."%char name) "").

(** [detectMediaType(name)] *)
Definition detectMediaType (name : string) : DbMediaType :=
  let ext := extension name in
  if mem ext ["png"; "jpg"; "jpeg"] then image
  else if mem ext ["mp4"; "mov"] then video
  else if mem ext ["mp3"; "wav"] then audio
  else if mem ext ["ppt"; "pptx"] then presentation
  else if mem ext ["pdf"; "doc"; "docx"; "txt"; "md"] then document
  else other.

(** [const units = ["B", "KB", "MB", "GB", "TB"]] *)
Definition units : list string := ["B"; "KB"; "MB"; "GB"; "TB"].

(** [while (v >= 1024 && i < units.length - 1) { v /= 1024; i++; }], with
    [remaining = units.length - 1 - i].  The size is an integer and the
    divisor a power of two, so the doubles of the loop are the exact
    quotients: rationals stand for them. *)
Fixpoint fmtSize_loop (remaining : nat) (v : Q) (i : nat) : Q * nat :=
  match remaining with
  | O => (v, i)
  | S remaining' =>
      if Qle_bool 1024 v then fmtSize_loop remaining' (v / 1024)%Q (S i)
      else (v, i)
  end.

(** [v.toFixed(0)] and [v.toFixed(1)] for [v >= 0]: the integer [n] with
    [n / 10^f] nearest to [v], the larger one of two, written with [f]
    decimals. *)
Definition toFixed_0 (v : Q) : string :=
  string_of_Z (Qfloor (v + (1 # 2))%Q).

Definition toFixed_1 (v : Q) : string :=
  let n := Qfloor (v * 10 + (1 # 2))%Q in
  string_of_Z (n / 10) ++ "." ++ string_of_Z (n mod 10).

(** [fmtSize(bytes)]; [None] is null or undefined. *)
Definition fmtSize (bytes : option Z) : string :=
  match bytes with
  | None => "—"
  | Some b =>
      if b <=? 0 then "—"
      else
        let '(v, i) := fmtSize_loop (List.length units - 1) (inject_Z b) 0 in
        (if Qlt_le_dec v 10%Q then if (0 <? i)%nat then toFixed_1 v else toFixed_0 v
         else toFixed_0 v)
        ++ " " ++ nth i units ""
  end.

(* ------------------------------------------------------------------ *)
(** ** TopicQuizzes.tsx: the parameters of a generation *)
(* ------------------------------------------------------------------ *)

(** [type DbDifficulty = "easy" | "medium" | "hard"] *)
Inductive DbDifficulty := easy | medium | hard.

Definition DbDifficulty_text (d : DbDifficulty) : string :=
  match d with
  | easy => "easy"
  | medium => "medium"
  | hard => "hard"
  end.

(** [toUiDiff(d)]: [d === "easy" ? "Easy" : d === "hard" ? "Hard" : "Medium"] *)
Definition toUiDiff (d : string) : string :=
  if String.eqb d "easy" then "Easy"
  else if String.eqb d "hard" then "Hard" else "Medium".

(** The [count] of the dialog: ["5" | "10" | "20" | ""]. *)
Inductive count_choice := count_5 | count_10 | count_20 | count_unset.

(** [parseInt((config.count || "10") as string, 10)] *)
Definition parseInt_count (c : count_choice) : Z :=
  match c with
  | count_5 => 5
  | count_10 => 10
  | count_20 => 20
  | count_unset => 10
  end.

(** The [config] state of the dialog; [None] is the empty choice [""]. *)
Record quiz_config := {
  config_name : string;
  config_scope : string;
  config_difficulty : option DbDifficulty;
  config_count : count_choice
}.

(** The columns of a quiz row the list reads ([type QuizRow]). *)
Record QuizRow := {
  row_id : uuid;
  row_name : string;
  row_difficulty : string;
  row_length : Z;
  row_scope : option string
}.

(** The fields of a card the actions read ([type QuizCard]). *)
Record QuizCard := {
  card_id : uuid;
  card_name : string;
  questionCount : Z;
  card_difficulty : string;
  card_scope : option string
}.

(** The body of [POST /api/rag/quizzes/{id}/generate]. *)
Record generate_body := {
  body_topic_id : uuid;
  body_scope : option string;
  body_count : Z;
  body_difficulty : string
}.

(** [x || null] on a string. *)
Definition or_null (x : string) : option string :=
  if String.eqb x "" then None else Some x.

(** [check (length in (5,10,20))] *)
Definition quizzes_length_check (n : Z) : bool :=
  (n =? 5) || (n =? 10) || (n =? 20).

Section Generate.

Variable trim : string -> string.

(** [s.slice(0, 40)] *)
Variable slice_0_40 : string -> string.

(** The row [generate] inserts, [id] being the id the database gives it. *)
Definition generate_row (id : uuid) (config : quiz_config) : QuizRow :=
  {| row_id := id;
     row_name :=
       if negb (String.eqb (trim (config_name config)) "") then trim (config_name config)
       else if negb (String.eqb (trim (config_scope config)) "")
            then "Quiz — " ++ slice_0_40 (trim (config_scope config))
            else "Untitled quiz";
     row_difficulty := match config_difficulty config with
                       | Some d => DbDifficulty_text d
                       | None => "medium"
                       end;
     row_length := parseInt_count (config_count config);
     row_scope := or_null (trim (config_scope config)) |}.

(** The body [generate] sends for the quiz it inserted. *)
Definition generate_sends (topic : uuid) (config : quiz_config) : generate_body :=
  {| body_topic_id := topic;
     body_scope := or_null (trim (config_scope config));
     body_count := parseInt_count (config_count config);
     body_difficulty := match config_difficulty config with
                        | Some d => DbDifficulty_text d
                        | None => "medium"
                        end |}.

End Generate.

(** The card [refresh] makes of a row. *)
Definition card_of_row (r : QuizRow) : QuizCard :=
  {| card_id := row_id r; card_name := row_name r; questionCount := row_length r;
     card_difficulty := toUiDiff (row_difficulty r); card_scope := row_scope r |}.

(** The body [regenerate(q)] sends:
    [{ topic_id, scope: q.scope || null, count: q.questionCount,
       difficulty: q.difficulty.toLowerCase() }]. *)
Definition regenerate_sends (topic : uuid) (q : QuizCard) : generate_body :=
  {| body_topic_id := topic;
     body_scope := match card_scope q with
                   | Some s => or_null s
                   | None => None
                   end;
     body_count := questionCount q;
     body_difficulty := lower (card_difficulty q) |}.

(** The columns of the row [generate] inserts that the store holds: the
    client itself writes [status: "pending"]. *)
Definition generate_quiz (user topic id : uuid) (config : quiz_config) : Quiz :=
  {| quiz_id := id; quiz_topic_id := topic; quiz_user_id := user;
     quiz_length := parseInt_count (config_count config);
     quiz_status := pending |}.

(** [insert into quizzes]: the check on [length], the primary key, the
    foreign key to topics; then [t_quizzes_bump]. *)
Definition insert_quiz (row : Quiz) (now : timestamptz) (db : DB) : result DB :=
  _ <- guard (quizzes_length_check (quiz_length row))
             (check_violation "quizzes_length_check") ;;
  _ <- guard (negb (mem (quiz_id row) (map quiz_id (quizzes db))))
             (unique_violation "quizzes_pkey") ;;
  _ <- guard (mem (quiz_topic_id row) (map topic_id (topics db)))
             (foreign_key_violation "quizzes_topic_id_fkey") ;;
  Ok (bump_topic_last_used_from_topic (quiz_topic_id row) now
        (with_quizzes db (quizzes db ++ [row]))).

(** [deleteQuiz(q)]: [from("quizzes").delete().eq("id", q.id)]; an error
    leaves the store as it was. *)
Definition deleteQuiz (id : uuid) (db : DB) : DB :=
  match delete_quizzes (fun q => String.eqb (quiz_id q) id) db with
  | Ok db' => db'
  | Err _ => db
  end.

(** The job status of the quizzes: the status of each row, by id. *)
Definition quiz_statuses (db : DB) : list (uuid * processing_status) :=
  map (fun q => (quiz_id q, quiz_status q)) (quizzes db).

(* ------------------------------------------------------------------ *)
(** ** The view [topic_overview] *)
(* ------------------------------------------------------------------ *)

(** [summary_type] *)
Inductive summary_type := short | long | key_concepts.

Definition summary_type_eqb (a b : summary_type) : bool :=
  match a, b with
  | short, short | long, long | key_concepts, key_concepts => true
  | _, _ => false
  end.

Definition is_ready (s : processing_status) : bool :=
  match s with ready => true | _ => false end.

(** [public.topic_summaries] *)
Record TopicSummary := {
  summary_topic_id : uuid;
  summary_type_of : summary_type;
  summary_status : processing_status;
  summary_content : option string;
  summary_created_at : timestamptz;
  summary_updated_at : timestamptz
}.

(** The three rows [handleCreate] inserts into topic_summaries for the
    topic it created: the client itself writes [status: "pending"]. *)
Definition handleCreate_summaries (topic : uuid) (now : timestamptz)
  : list TopicSummary :=
  map (fun type => {| summary_topic_id := topic; summary_type_of := type;
                      summary_status := pending; summary_content := None;
                      summary_created_at := now; summary_updated_at := now |})
      [short; long; key_concepts].

(** [insert into topic_summaries], on the table itself: [unique(topic_id,
    type)].  (The foreign key to topics and [t_topic_summaries_bump] are
    with [handleCreate].) *)
Definition insert_topic_summaries (rows table : list TopicSummary)
  : result (list TopicSummary) :=
  fold_left
    (fun r row =>
       t <- r ;;
       _ <- guard (negb (existsb
                           (fun s => String.eqb (summary_topic_id s) (summary_topic_id row)
                                     && summary_type_eqb (summary_type_of s)
                                                         (summary_type_of row))
                           t))
                  (unique_violation "topic_summaries_topic_id_type_key") ;;
       Ok (t ++ [row])%list)
    rows (Ok table).

(** A row of the view. *)
Record TopicOverviewRow := {
  ov_topic_id : uuid;
  ov_user_id : uuid;
  ov_topic_name : string;
  ov_status : topic_status;
  ov_category_id : option uuid;
  ov_category_name : option string;
  ov_last_used_at : timestamptz;
  file_count : Z;
  quiz_count : Z;
  summaries_ready : option bool;
  short_summary : option string
}.

(** [select count( * )::int from topic_files f
     where f.topic_id = t.id and f.deleted_at is null] *)
Definition file_count_of (db : DB) (t : Topic) : Z :=
  Z.of_nat (List.length
              (filter (fun f => String.eqb (file_topic_id f) (topic_id t)
                                && negb (is_some (deleted_at f)))
                      (topic_files db))).

(** [select count( * )::int from quizzes q where q.topic_id = t.id] *)
Definition quiz_count_of (db : DB) (t : Topic) : Z :=
  Z.of_nat (List.length
              (filter (fun q => String.eqb (quiz_topic_id q) (topic_id t)) (quizzes db))).

(** [select bool_or(s.status = 'ready') from topic_summaries s
     where s.topic_id = t.id]: NULL over no row. *)
Definition summaries_ready_of (summaries : list TopicSummary) (t : Topic) : option bool :=
  match filter (fun s => String.eqb (summary_topic_id s) (topic_id t)) summaries with
  | [] => None
  | l => Some (existsb (fun s => is_ready (summary_status s)) l)
  end.

(** [order by ts2.updated_at desc nulls last, ts2.created_at desc] (neither
    column is nullable). *)
Definition latest_summary_first (a b : TopicSummary) : bool :=
  (summary_updated_at b <? summary_updated_at a)
  || ((summary_updated_at b =? summary_updated_at a)
      && (summary_created_at b <=? summary_created_at a)).

(** [select ts2.content from topic_summaries ts2
     where ts2.topic_id = t.id and ts2.type = 'short' and ts2.status = 'ready'
     order by ... limit 1], NULL when there is no such row. *)
Definition short_summary_of (summaries : list TopicSummary) (t : Topic) : option string :=
  match sort_by latest_summary_first
          (filter (fun s => String.eqb (summary_topic_id s) (topic_id t)
                            && summary_type_eqb (summary_type_of s) short
                            && is_ready (summary_status s))
                  summaries) with
  | ts2 :: _ => summary_content ts2
  | [] => None
  end.

(** [from topics t left join categories c on c.id = t.category_id]: the
    matching categories, or one NULL row. *)
Definition left_join_categories (db : DB) (t : Topic) : list (option Category) :=
  match filter (fun c => option_uuid_eqb (category_id t) (Some (cat_id c)))
               (categories db) with
  | [] => [None]
  | l => map Some l
  end.

(** The rows of the view, one for every topic and matching category, in
    one of the orders they may come in; the four lateral subqueries give
    one row each. *)
Definition topic_overview (db : DB) (summaries : list TopicSummary)
  : list TopicOverviewRow :=
  flat_map
    (fun t =>
       map (fun c =>
              {| ov_topic_id := topic_id t;
                 ov_user_id := topic_user_id t;
                 ov_topic_name := topic_name t;
                 ov_status := status t;
                 ov_category_id := category_id t;
                 ov_category_name := option_map cat_name c;
                 ov_last_used_at := last_used_at t;
                 file_count := file_count_of db t;
                 quiz_count := quiz_count_of db t;
                 summaries_ready := summaries_ready_of summaries t;
                 short_summary := short_summary_of summaries t |})
           (left_join_categories db t))
    (topics db).

(** The tables a [select] from the view may return: the view has no
    [order by], so its rows come in any order. *)
Definition topic_overview_returns (db : DB) (summaries : list TopicSummary)
    (rows : list TopicOverviewRow) : Prop :=
  Permutation rows (topic_overview db summaries).

(* ------------------------------------------------------------------ *)
(** ** Relative times: the two [ago] formatters *)
(* ------------------------------------------------------------------ *)

(** Time values are whole milliseconds of at most 8.64e15 in absolute
    value, and [Date.now()] is one of them.  On such numbers the
    subtraction is exact, and [Math.floor] of the float quotient by 1000,
    60 or 24 is the floor of the exact quotient (the rounding error of the
    quotient is below the distance of an inexact quotient to the next
    integer), so the arithmetic below is written on [Z]. *)

(** What [ago] of the library is given: [null] or [undefined], a string, a
    number (a whole one here) or a [Date] with its time value, [None] for
    an invalid date. *)
Inductive ago_input :=
| input_null
| input_string (s : string)
| input_number (n : Z)
| input_Date (t : option Z).

(** [!input && input !== 0] *)
Definition no_input (input : ago_input) : bool :=
  match input with
  | input_null => true
  | input_string s => String.eqb s ""
  | input_number _ => false
  | input_Date _ => false
  end.

(** The time value of [new Date(n)] for a number: NaN out of the range of
    dates. *)
Definition TimeClip (n : Z) : option Z :=
  if Z.abs n <=? 8640000000000000 then Some n else None.

Section Ago.

(** [new Date(s).getTime()] for a string [s]: the time value, [None] for
    NaN. *)
Variable Date_parse : string -> option Z.

(** [const timestamp = ...] of [ago]; [None] stands for NaN. *)
Definition timestamp_of (input : ago_input) : option Z :=
  match input with
  | input_string s => Date_parse s
  | input_number n => TimeClip n
  | input_Date t => t
  | input_null => None
  end.

(** [ago(input)] of the library, at the instant [now = Date.now()]. *)
Definition ago (now : Z) (input : ago_input) : string :=
  if no_input input then "—"
  else
    match timestamp_of input with
    | None => "—"
    | Some timestamp =>
        let secondsElapsed := Z.max 0 ((now - timestamp) / 1000) in
        if secondsElapsed <? 60 then "Just now"
        else
          let minutesElapsed := secondsElapsed / 60 in
          if minutesElapsed <? 60
          then string_of_Z minutesElapsed ++ " min"
               ++ (if minutesElapsed =? 1 then "" else "s") ++ " ago"
          else
            let hoursElapsed := minutesElapsed / 60 in
            if hoursElapsed <? 24
            then string_of_Z hoursElapsed ++ " hour"
                 ++ (if hoursElapsed =? 1 then "" else "s") ++ " ago"
            else
              let daysElapsed := hoursElapsed / 24 in
              string_of_Z daysElapsed ++ " day"
              ++ (if daysElapsed =? 1 then "" else "s") ++ " ago"
    end.

End Ago.

(** The [ago] of the application shell does not look at the parsed date, so
    NaN runs through its arithmetic: a number is a whole one or NaN
    ([None]). *)
Module AppShell.

Definition number := option Z.

(** [a - b] *)
Definition minus (a b : number) : number :=
  match a, b with
  | Some x, Some y => Some (x - y)
  | _, _ => None
  end.

(** [Math.floor(a / b)] for a whole [b] that is not 0. *)
Definition floor_div (a : number) (b : Z) : number :=
  option_map (fun x => x / b) a.

(** [Math.max(0, a)]: NaN when [a] is. *)
Definition max_0 (a : number) : number := option_map (Z.max 0) a.

(** [a < b]: false when [a] is NaN. *)
Definition lt (a : number) (b : Z) : bool :=
  match a with
  | Some x => x <? b
  | None => false
  end.

(** [a === b]: false when [a] is NaN. *)
Definition strict_eq (a : number) (b : Z) : bool :=
  match a with
  | Some x => x =? b
  | None => false
  end.

(** [`${a}`] *)
Definition to_string (a : number) : string :=
  match a with
  | Some x => string_of_Z x
  | None => "NaN"
  end.

Section Ago.

Variable Date_parse : string -> option Z.

(** [ago(iso)] of the application shell; [None] is [null]. *)
Definition ago (now : Z) (iso : option string) : string :=
  match iso with
  | None => "—"
  | Some iso =>
      if String.eqb iso "" then "—"
      else
        let ms := minus (Some now) (Date_parse iso) in
        let s := max_0 (floor_div ms 1000) in
        if lt s 60 then "Just now"
        else
          let m := floor_div s 60 in
          if lt m 60
          then to_string m ++ " minute" ++ (if strict_eq m 1 then "" else "s") ++ " ago"
          else
            let h := floor_div m 60 in
            if lt h 24
            then to_string h ++ " hour" ++ (if strict_eq h 1 then "" else "s") ++ " ago"
            else
              let d := floor_div h 24 in
              to_string d ++ " day" ++ (if strict_eq d 1 then "" else "s") ++ " ago"
  end.

End Ago.

End AppShell.

(** A parser for the examples: it knows one instant, a minute after the
    epoch. *)
Definition Date_parse_example (s : string) : option Z :=
  if String.eqb s "1970-01-01T00:01:00.000Z" then Some 60000 else None.

(* ================================================================== *)
(** * Part II.  Properties *)
(* ================================================================== *)

(** Case analysis on the guards of a statement. *)
Ltac pass_guards :=
  repeat match goal with
         | |- context [if ?b then _ else _] => destruct b; simpl
         end.

Lemma mem_In (x : uuid) (l : list uuid) : mem x l = true <-> In x l.
Proof.
  unfold mem. rewrite existsb_exists. split.
  - intros [y [Hy E]]. apply String.eqb_eq in E. now subst.
  - intros H. exists x. split; [assumption | apply String.eqb_refl].
Qed.

Lemma existsb_none {A} (p : A -> bool) (l : list A) :
  (forall x, In x l -> p x = false) -> existsb p l = false.
Proof.
  induction l as [|x l IH]; simpl; intros H; [reflexivity|].
  rewrite H by now left. apply IH. intros y Hy. apply H. now right.
Qed.

Lemma mem_false (x : uuid) (l : list uuid) : mem x l = false <-> ~ In x l.
Proof.
  rewrite <- mem_In. destruct (mem x l); split; congruence.
Qed.

Lemma NoDup_map_eq {A B} (f : A -> B) (l : list A) (a b : A) :
  NoDup (map f l) -> In a l -> In b l -> f a = f b -> a = b.
Proof.
  induction l as [|x l IH]; simpl; [tauto|].
  intros Hnd Ha Hb E. inversion Hnd as [|? ? Hnotin Hnd']; subst.
  destruct Ha as [->|Ha], Hb as [->|Hb]; auto.
  - exfalso. apply Hnotin. rewrite E. now apply in_map.
  - exfalso. apply Hnotin. rewrite <- E. now apply in_map.
Qed.

(** *** The chunk sync trigger *)

Section FileSync.

Variable s : file_set.
Variable now : timestamptz.

Lemma file_id_apply_file_set f : file_id (apply_file_set s f) = file_id f.
Proof. reflexivity. Qed.

Lemma in_documents_of_file db fid x :
  In x (documents_of_file db fid) <->
  exists d, In d (documents db) /\ topic_file_id d = fid /\ doc_id d = x.
Proof.
  unfold documents_of_file. rewrite in_map_iff. split.
  - intros [d [E Hd]]. apply filter_In in Hd as [Hd Hf].
    apply String.eqb_eq in Hf. eauto.
  - intros [d [Hd [Hf E]]]. exists d. split; [assumption|].
    apply filter_In. split; [assumption|]. now apply String.eqb_eq.
Qed.

Lemma document_id_sync_chunk docs c new :
  document_id (sync_chunk docs c new) = document_id c.
Proof. unfold sync_chunk. now destruct (mem _ _). Qed.

Lemma document_id_fold_sync docs l c :
  document_id (fold_left (sync_chunk docs) l c) = document_id c.
Proof.
  revert c. induction l as [|x l IH]; simpl; intros c; [reflexivity|].
  now rewrite IH, document_id_sync_chunk.
Qed.

Lemma after_update_frame db new :
  documents (after_update_topic_files s now db new) = documents db
  /\ topic_files (after_update_topic_files s now db new) = topic_files db.
Proof.
  unfold after_update_topic_files.
  destruct (fires_t_file_sync_chunks s); simpl; auto.
Qed.

Lemma fold_after_update_frame l db :
  documents (fold_left (after_update_topic_files s now) l db) = documents db
  /\ topic_files (fold_left (after_update_topic_files s now) l db) = topic_files db.
Proof.
  revert db. induction l as [|x l IH]; simpl; intros db; [auto|].
  destruct (IH (after_update_topic_files s now db x)) as [-> ->].
  apply after_update_frame.
Qed.

Hypothesis fires : fires_t_file_sync_chunks s = true.

Lemma chunks_fold_after_update l db :
  chunks (fold_left (after_update_topic_files s now) l db)
  = map (fun c => fold_left (sync_chunk (documents db)) l c) (chunks db).
Proof.
  revert db. induction l as [|x l IH]; simpl; intros db.
  - now rewrite map_id.
  - rewrite IH. destruct (after_update_frame db x) as [-> _].
    unfold after_update_topic_files. rewrite fires. simpl.
    rewrite map_map. reflexivity.
Qed.

(** A chunk of a document of [f] ends with the value computed from [f],
    provided [f] is among the updated rows and no other updated row has
    its id. *)
Lemma fold_sync_owned docs l c d f :
  NoDup (map doc_id docs) ->
  In d docs -> topic_file_id d = file_id f -> document_id c = doc_id d ->
  (forall g, In g l -> file_id g = file_id f -> g = f) ->
  In f l ->
  is_active (fold_left (sync_chunk docs) l c) = file_queryable f.
Proof.
  intros Hnd Hd Hown Hc Huniq.
  induction l as [|x l IH] using rev_ind; [contradiction|].
  intros Hin. rewrite fold_left_app. simpl.
  unfold sync_chunk at 1. rewrite document_id_fold_sync.
  destruct (String.eqb (file_id x) (file_id f)) eqn:E.
  - apply String.eqb_eq in E.
    assert (x = f) as -> by (apply Huniq; [apply in_or_app; simpl; auto | assumption]).
    replace (mem _ _) with true; [reflexivity|].
    symmetry. apply mem_In. apply in_map_iff. exists d. split; [now symmetry|].
    apply filter_In. split; [assumption|]. now apply String.eqb_eq.
  - apply String.eqb_neq in E.
    destruct (mem _ _) eqn:M.
    + exfalso. apply mem_In in M. apply in_map_iff in M as [d' [E' Hd']].
      apply filter_In in Hd' as [Hd' Hf]. apply String.eqb_eq in Hf.
      assert (d' = d) as -> by (apply (NoDup_map_eq doc_id docs); congruence).
      congruence.
    + apply IH.
      * intros g Hg. apply Huniq. apply in_or_app. now left.
      * apply in_app_or in Hin as [Hin|[->|[]]]; [assumption|congruence].
Qed.

(** A chunk none of whose documents belongs to an updated row is left as
    it was. *)
Lemma fold_sync_frame docs l c :
  (forall g d, In g l -> In d docs -> document_id c = doc_id d ->
               topic_file_id d <> file_id g) ->
  fold_left (sync_chunk docs) l c = c.
Proof.
  revert c. induction l as [|x l IH]; simpl; intros c H; [reflexivity|].
  assert (sync_chunk docs c x = c) as ->.
  { unfold sync_chunk. destruct (mem _ _) eqn:M; [|reflexivity].
    exfalso. apply mem_In in M. apply in_map_iff in M as [d [E Hd]].
    apply filter_In in Hd as [Hd Hf]. apply String.eqb_eq in Hf.
    apply (H x d); auto. }
  apply IH. intros g d Hg. apply H. now right.
Qed.

End FileSync.

Lemma in_updated_rows (s : file_set) (where_ : TopicFile -> bool) (l : list TopicFile) f :
  In f (map (fun f => if where_ f then apply_file_set s f else f) l) <->
  exists f0, In f0 l /\ f = (if where_ f0 then apply_file_set s f0 else f0).
Proof.
  rewrite in_map_iff. split; intros [f0 [A B]]; exists f0; auto.
Qed.

Lemma updated_rows_unique (s : file_set) (where_ : TopicFile -> bool) (l : list TopicFile) :
  NoDup (map file_id l) ->
  forall f0, In f0 l -> where_ f0 = true ->
  forall g, In g (map (apply_file_set s) (filter where_ l)) ->
            file_id g = file_id (apply_file_set s f0) -> g = apply_file_set s f0.
Proof.
  intros Hnd f0 Hf0 Hw g Hg E.
  apply in_map_iff in Hg as [g0 [<- Hg0]]. apply filter_In in Hg0 as [Hg0 _].
  f_equal. apply (NoDup_map_eq file_id l); auto.
Qed.

Lemma update_topic_files_tables
    (db : DB) (where_ : TopicFile -> bool) (s : file_set) (now : timestamptz) :
  documents (update_topic_files where_ s now db) = documents db
  /\ topic_files (update_topic_files where_ s now db)
     = map (fun f => if where_ f then apply_file_set s f else f) (topic_files db).
Proof.
  unfold update_topic_files.
  match goal with
  | |- context [fold_left _ ?l ?d] =>
      destruct (fold_after_update_frame s now l d) as [-> ->]
  end.
  split; reflexivity.
Qed.

Lemma update_topic_files_chunks
    (db : DB) (where_ : TopicFile -> bool) (s : file_set) (now : timestamptz) :
  fires_t_file_sync_chunks s = true ->
  chunks (update_topic_files where_ s now db)
  = map (fun c => fold_left (sync_chunk (documents db))
                            (map (apply_file_set s) (filter where_ (topic_files db))) c)
        (chunks db).
Proof.
  intros Hfires. unfold update_topic_files.
  now rewrite (chunks_fold_after_update s now Hfires).
Qed.

(** The chunks of an updated file carry the value computed from its new row. *)
Lemma update_topic_files_owned
    (db : DB) (where_ : TopicFile -> bool) (s : file_set) (now : timestamptz) :
  NoDup (map file_id (topic_files db)) ->
  NoDup (map doc_id (documents db)) ->
  fires_t_file_sync_chunks s = true ->
  forall f0, In f0 (topic_files db) -> where_ f0 = true ->
  forall c, In c (chunks (update_topic_files where_ s now db)) ->
            owns (update_topic_files where_ s now db) (apply_file_set s f0) c ->
            is_active c = file_queryable (apply_file_set s f0).
Proof.
  intros Hfiles Hdocs Hfires f0 Hf0 Hw c Hc [d [Hd [Hown Hcd]]].
  destruct (update_topic_files_tables db where_ s now) as [Hdocs' _].
  rewrite Hdocs' in Hd. rewrite update_topic_files_chunks in Hc by assumption.
  apply in_map_iff in Hc as [c0 [<- Hc0]].
  rewrite document_id_fold_sync in Hcd.
  apply (fold_sync_owned (documents db) _ c0 d); auto.
  - now apply updated_rows_unique.
  - apply in_map. apply filter_In. auto.
Qed.

(** The chunks of the other files are left as they were. *)
Lemma update_topic_files_preserves_synced
    (db : DB) (where_ : TopicFile -> bool) (s : file_set) (now : timestamptz) :
  NoDup (map file_id (topic_files db)) ->
  NoDup (map doc_id (documents db)) ->
  fires_t_file_sync_chunks s = true ->
  chunk_synced db -> chunk_synced (update_topic_files where_ s now db).
Proof.
  intros Hfiles Hdocs Hfires Hinv f c Hf Hc Hown.
  destruct (update_topic_files_tables db where_ s now) as [Hdocs' Hfiles'].
  rewrite Hfiles' in Hf. apply in_updated_rows in Hf as [f0 [Hf0 ->]].
  destruct (where_ f0) eqn:Hw.
  { now apply (update_topic_files_owned db where_ s now). }
  destruct Hown as [d [Hd [Hown Hcd]]].
  rewrite Hdocs' in Hd. rewrite update_topic_files_chunks in Hc by assumption.
  apply in_map_iff in Hc as [c0 [<- Hc0]].
  rewrite document_id_fold_sync in Hcd.
  rewrite fold_sync_frame.
  - apply Hinv; auto. exists d. auto.
  - intros g d' Hg Hd' Hcd' E.
    assert (d' = d) as -> by (apply (NoDup_map_eq doc_id (documents db)); congruence).
    apply in_map_iff in Hg as [g0 [<- Hg0]]. apply filter_In in Hg0 as [Hg0 Hwg].
    assert (g0 = f0) as -> by (apply (NoDup_map_eq file_id (topic_files db)); auto;
                               rewrite file_id_apply_file_set in E; congruence).
    congruence.
Qed.


Ltac nodup_strings :=
  repeat (constructor; [simpl; intuition discriminate|]); constructor.


(** *** Chunks inserted under a file that is not queryable *)

Lemma insert_chunk_Ok (r : chunk_insert) (db db' : DB) :
  insert_chunk r db = Ok db' ->
  db' = with_chunks db (chunks db ++ [chunk_of_insert r]).
Proof.
  unfold insert_chunk, bind, guard.
  pass_guards; intros H; inversion H; reflexivity.
Qed.

(** C10.  A chunk inserted without a value for [is_active] is stored with
    [is_active = true] whatever the flags of its file; the insert touches
    no other row (no trigger runs), so if the file is not queryable
    Invariant 1 is broken in the resulting store; the next update of the
    file that names [include_in_rag] or [vector_status] writes the computed
    value on the chunk. *)
Theorem chunk_insert_defaults_to_active
    (db db' : DB) (r : chunk_insert) :
  ins_is_active r = None ->
  insert_chunk r db = Ok db' ->
  let c := chunk_of_insert r in
  chunks db' = (chunks db ++ [c])%list
  /\ is_active c = true
  /\ topic_files db' = topic_files db
  /\ (forall f, In f (topic_files db') -> owns db' f c ->
                file_queryable f = false -> ~ chunk_synced db')
  /\ (forall s now f,
        NoDup (map file_id (topic_files db')) ->
        NoDup (map doc_id (documents db')) ->
        fires_t_file_sync_chunks s = true ->
        In f (topic_files db') -> owns db' f c ->
        let db'' := update_topic_files (eq_id (file_id f)) s now db' in
        forall c', In c' (chunks db'') -> owns db'' f c' ->
                   is_active c' = file_queryable (apply_file_set s f)).
Proof.
  intros Hdef Hins c. apply insert_chunk_Ok in Hins.
  assert (Hact : is_active c = true).
  { unfold c, chunk_of_insert. simpl. now rewrite Hdef. }
  assert (Hch : chunks db' = (chunks db ++ [c])%list) by (subst db'; reflexivity).
  assert (Hfl : topic_files db' = topic_files db) by (subst db'; reflexivity).
  split; [exact Hch|]. split; [exact Hact|]. split; [exact Hfl|]. split.
  - intros f Hf Hown Hq Hinv.
    assert (E : is_active c = file_queryable f).
    { apply Hinv; auto. rewrite Hch. apply in_or_app. right. now left. }
    congruence.
  - intros s now f Hnd1 Hnd2 Hfires Hf Hown db'' c' Hc' Hown'.
    apply (update_topic_files_owned db' (eq_id (file_id f)) s now); auto.
    unfold eq_id. apply String.eqb_refl.
Qed.

Lemma chunk_insert_defaults_to_active_witness :
  exists db',
    insert_chunk late_chunk db_upload = Ok db'
    /\ chunks db' = (chunks db_upload ++ [chunk_of_insert late_chunk])%list
    /\ is_active (chunk_of_insert late_chunk) = true
    /\ file_queryable file_f2 = false
    /\ ~ chunk_synced db'.
Proof.
  eexists. split; [reflexivity|].
  destruct (chunk_insert_defaults_to_active db_upload _ late_chunk eq_refl eq_refl)
    as [H1 [H2 [_ [H4 _]]]].
  repeat split; auto.
  apply (H4 file_f2).
  - simpl. auto.
  - exists doc_d2. simpl. auto.
  - reflexivity.
Defined.

(** *** The upload component *)

Lemma file_queryable_toggle (next : bool) (f : TopicFile) :
  file_queryable (apply_file_set (toggle_set next) f) = next.
Proof. now destruct next. Qed.

Lemma set_is_active_same (c : Chunk) : set_is_active (is_active c) c = c.
Proof. now destruct c. Qed.

Lemma map_fixed {A} (f : A -> A) (l : list A) :
  (forall x, In x l -> f x = x) -> map f l = l.
Proof.
  induction l as [|x l IH]; simpl; intros H; [reflexivity|].
  rewrite H by now left. f_equal. apply IH. intros y Hy. apply H. now right.
Qed.

(** Rows that share one id and one computed value all write that value. *)
Lemma fold_sync_same_id (docs : list Document) (id : uuid) (v : bool) (l : list TopicFile) :
  (forall g, In g l -> file_id g = id /\ file_queryable g = v) ->
  l <> [] ->
  forall c,
    mem (document_id c)
        (map doc_id (filter (fun d => String.eqb (topic_file_id d) id) docs)) = true ->
    is_active (fold_left (sync_chunk docs) l c) = v.
Proof.
  induction l as [|x l IH] using rev_ind; [congruence|].
  intros Hall _ c Hc. rewrite fold_left_app. simpl.
  destruct (Hall x) as [Hid Hq]; [apply in_or_app; simpl; auto|].
  unfold sync_chunk at 1. rewrite document_id_fold_sync, Hid, Hc. simpl. exact Hq.
Qed.

Lemma owns_mem (db : DB) (f : TopicFile) (c : Chunk) :
  owns db f c <-> mem (document_id c) (documents_of_file db (file_id f)) = true.
Proof.
  rewrite mem_In, in_documents_of_file. unfold owns.
  split; intros [d [A [B C]]]; exists d; auto.
Qed.

Lemma toggle_update_chunks (db : DB) (file : TopicFile) (next : bool) (now : timestamptz) :
  (exists f0, In f0 (topic_files db) /\ file_id f0 = file_id file) ->
  forall c,
    In c (chunks (update_topic_files (eq_id (file_id file)) (toggle_set next) now db)) ->
    mem (document_id c) (documents_of_file db (file_id file)) = true ->
    is_active c = next.
Proof.
  intros [f0 [Hf0 Hid]] c Hc Hm.
  rewrite update_topic_files_chunks in Hc by reflexivity.
  apply in_map_iff in Hc as [c0 [<- Hc0]].
  rewrite document_id_fold_sync in Hm.
  apply (fold_sync_same_id (documents db) (file_id file)); auto.
  - intros g Hg. apply in_map_iff in Hg as [g0 [<- Hg0]].
    apply filter_In in Hg0 as [_ Hw]. unfold eq_id in Hw. apply String.eqb_eq in Hw.
    split; [exact Hw | apply file_queryable_toggle].
  - intros E. apply map_eq_nil in E.
    assert (Hin : In f0 (filter (eq_id (file_id file)) (topic_files db))).
    { apply filter_In. split; [assumption|]. unfold eq_id. now apply String.eqb_eq. }
    rewrite E in Hin. contradiction.
Qed.

(** The component's own write to [chunks.is_active] repeats what the
    trigger has written. *)
Lemma toggleInclude_is_the_update (db : DB) (file : TopicFile) (next : bool) (now : timestamptz) :
  (exists f0, In f0 (topic_files db) /\ file_id f0 = file_id file) ->
  fst (toggleInclude false file next now db)
  = update_topic_files (eq_id (file_id file)) (toggle_set next) now db.
Proof.
  intros Hex. unfold toggleInclude, setChunksActiveForFile.
  set (db1 := update_topic_files (eq_id (file_id file)) (toggle_set next) now db).
  assert (Hdocs : documents_of_file db1 (file_id file) = documents_of_file db (file_id file)).
  { unfold documents_of_file, db1.
    now destruct (update_topic_files_tables db (eq_id (file_id file))
                    (toggle_set next) now) as [-> _]. }
  destruct (documents_of_file db1 (file_id file)) as [|i ids] eqn:E; [reflexivity|].
  simpl. unfold update_chunks_is_active.
  rewrite map_fixed; [now destruct db1|].
  intros c Hc. destruct (mem (document_id c) (i :: ids)) eqn:M; [|reflexivity].
  rewrite <- (toggle_update_chunks db file next now Hex c Hc).
  - apply set_is_active_same.
  - now rewrite <- Hdocs.
Qed.

Lemma toggleInclude_owned (db : DB) (file : TopicFile) (next : bool) (now : timestamptz) :
  (exists f0, In f0 (topic_files db) /\ file_id f0 = file_id file) ->
  forall c, In c (chunks (fst (toggleInclude false file next now db))) ->
            owns (fst (toggleInclude false file next now db)) file c ->
            is_active c = next.
Proof.
  intros Hex c. rewrite toggleInclude_is_the_update by assumption.
  intros Hc Hown. apply (toggle_update_chunks db file next now Hex c Hc).
  apply owns_mem in Hown. unfold documents_of_file in *.
  now destruct (update_topic_files_tables db (eq_id (file_id file))
                  (toggle_set next) now) as [<- _].
Qed.

Lemma toggleInclude_keeps_file (db : DB) (file : TopicFile) (next : bool) (now : timestamptz) :
  (exists f0, In f0 (topic_files db) /\ file_id f0 = file_id file) ->
  exists f1, In f1 (topic_files (fst (toggleInclude false file next now db)))
             /\ file_id f1 = file_id file.
Proof.
  intros Hex. rewrite toggleInclude_is_the_update by assumption.
  destruct Hex as [f0 [Hf0 Hid]].
  destruct (update_topic_files_tables db (eq_id (file_id file))
              (toggle_set next) now) as [_ ->].
  exists (apply_file_set (toggle_set next) f0). split; [|exact Hid].
  apply in_updated_rows. exists f0. split; [assumption|].
  unfold eq_id. rewrite Hid, String.eqb_refl. reflexivity.
Qed.

(** Toggling a file off and on again leaves its chunks with
    [is_active = false], then [true]; the trigger alone does it: the store
    after [toggleInclude] is the store after its [update topic_files], the
    component's own write to [chunks.is_active] changing nothing. *)
Lemma toggle_off_then_on
    (db : DB) (file : TopicFile) (now1 now2 : timestamptz) :
  In (file_id file) (map file_id (topic_files db)) ->
  let off := fst (toggleInclude false file false now1 db) in
  let on := fst (toggleInclude false file true now2 off) in
  (forall c, In c (chunks off) -> owns off file c -> is_active c = false)
  /\ (forall c, In c (chunks on) -> owns on file c -> is_active c = true)
  /\ off = update_topic_files (eq_id (file_id file)) (toggle_set false) now1 db
  /\ on = update_topic_files (eq_id (file_id file)) (toggle_set true) now2 off.
Proof.
  intros Hin off on.
  assert (Hex : exists f0, In f0 (topic_files db) /\ file_id f0 = file_id file)
    by (apply in_map_iff in Hin as [f0 [E Hf0]]; eauto).
  assert (Hex' : exists f1, In f1 (topic_files off) /\ file_id f1 = file_id file)
    by (now apply toggleInclude_keeps_file).
  repeat split.
  - now apply toggleInclude_owned.
  - now apply toggleInclude_owned.
  - now apply toggleInclude_is_the_update.
  - now apply toggleInclude_is_the_update.
Qed.

(** Toggling [f1] off makes the upload component itself send
    [update chunks set is_active = false where document_id in ('d1')]. *)
Lemma toggleInclude_writes_chunks :
  snd (toggleInclude false file_f1 false 7 db_upload)
  = [update_topic_files_eq_id "f1" (toggle_set false);
     select_documents_eq_topic_file_id "f1";
     update_chunks_in_document_id ["d1"] false]
  /\ existsb writes_chunks_is_active
       (snd (toggleInclude false file_f1 false 7 db_upload)) = true.
Proof. split; reflexivity. Qed.

(** *** What the client writes to [vector_status] *)

Lemma find_eq_id_map (id : uuid) (g : TopicFile -> TopicFile) (l : list TopicFile) :
  (forall f, file_id (g f) = file_id f) ->
  find (eq_id id) (map g l) = option_map g (find (eq_id id) l).
Proof.
  intros Hg. induction l as [|x l IH]; simpl; [reflexivity|].
  unfold eq_id at 1 3. rewrite Hg.
  destruct (String.eqb (file_id x) id); [reflexivity | exact IH].
Qed.

Lemma status_of_update (db : DB) (fid : uuid) (s : file_set) (v : VectorStatus)
    (now : timestamptz) (id : uuid) :
  set_vector_status s = Some v ->
  status_of (update_topic_files (eq_id fid) s now db) id
  = if String.eqb id fid then option_map (fun _ => v) (status_of db id)
    else status_of db id.
Proof.
  intros Hs. unfold status_of.
  destruct (update_topic_files_tables db (eq_id fid) s now) as [_ ->].
  rewrite find_eq_id_map by (intros f; now destruct (eq_id fid f)).
  destruct (find (eq_id id) (topic_files db)) as [f|] eqn:E; simpl.
  - apply find_some in E as [_ E]. unfold eq_id in *. apply String.eqb_eq in E.
    rewrite E. destruct (String.eqb id fid); [|reflexivity].
    simpl. now rewrite Hs.
  - now destruct (String.eqb id fid).
Qed.

Lemma topic_files_setChunksActiveForFile (id : uuid) (a : bool) (db : DB) :
  topic_files (fst (setChunksActiveForFile id a db)) = topic_files db.
Proof.
  unfold setChunksActiveForFile. now destruct (documents_of_file db id).
Qed.

Lemma find_app_last {A} (p : A -> bool) (l : list A) (x : A) :
  existsb p l = false -> p x = true -> find p (l ++ [x]) = Some x.
Proof.
  induction l as [|y l IH]; simpl; intros Hl Hx; [now rewrite Hx|].
  apply orb_false_iff in Hl as [Hy Hl]. rewrite Hy. now apply IH.
Qed.

Lemma find_app_other {A} (p : A -> bool) (l : list A) (x : A) :
  p x = false -> find p (l ++ [x]) = find p l.
Proof.
  intros Hx. induction l as [|y l IH]; simpl; [now rewrite Hx|].
  destruct (p y); [reflexivity | exact IH].
Qed.

Lemma status_of_uploaded (user topic : uuid) (f : File) (now : timestamptz) (db db' : DB) :
  insert_topic_file (handleFiles_row user topic f) now db = Ok db' ->
  status_of db' (generated_id f) = Some ingesting
  /\ forall id, id <> generated_id f -> status_of db' id = status_of db id.
Proof.
  unfold insert_topic_file, bind, guard. simpl.
  destruct (mem (generated_id f) (map file_id (topic_files db))) eqn:M; simpl;
    [discriminate|].
  destruct (existsb _ (topic_files db)); simpl; [discriminate|].
  destruct (mem topic (map topic_id (topics db))); simpl; [|discriminate].
  intros H. inversion H. unfold status_of. simpl. split.
  - rewrite find_app_last; [reflexivity | | apply String.eqb_refl].
    apply existsb_none. intros g Hg. unfold eq_id. apply String.eqb_neq.
    intros E. apply mem_false in M. apply M. rewrite <- E. now apply in_map.
  - intros id Hid. rewrite find_app_other; [reflexivity|].
    unfold eq_id. simpl. apply String.eqb_neq. congruence.
Qed.

(** What the statement of [toggleInclude] leaves in [vector_status]. *)
Lemma status_of_toggleInclude (db : DB) (file : TopicFile) (next : bool)
    (now : timestamptz) (id : uuid) :
  status_of (fst (toggleInclude false file next now db)) id
  = if String.eqb id (file_id file)
    then option_map (fun _ => if next then ingested else excluded) (status_of db id)
    else status_of db id.
Proof.
  rewrite <- (status_of_update db (file_id file) (toggle_set next) _ now id eq_refl).
  unfold status_of, toggleInclude.
  set (db1 := update_topic_files _ _ _ _).
  pose proof (topic_files_setChunksActiveForFile (file_id file) next db1) as H.
  destruct (setChunksActiveForFile (file_id file) next db1) as [db2 log].
  simpl in *. now rewrite H.
Qed.

(** C6 (as amended).  The client writes [vector_status] in three places.
    The upload creates the row in [ingesting].  The include toggle,
    switched off, sets [excluded] on the toggled file whatever its status
    was; switched on, it takes a file that is [excluded] to [ingested].
    The deletion sets [deleted] whatever the status was.  None of the
    three changes the status of another file. *)
Theorem client_vector_status_writes :
  (forall user topic f now db db',
      insert_topic_file (handleFiles_row user topic f) now db = Ok db' ->
      status_of db' (generated_id f) = Some ingesting
      /\ forall id, id <> generated_id f -> status_of db' id = status_of db id)
  /\ (forall db file now,
         status_of (fst (toggleInclude false file false now db)) (file_id file)
         = option_map (fun _ => excluded) (status_of db (file_id file)))
  /\ (forall db file now,
         status_of db (file_id file) = Some excluded ->
         status_of (fst (toggleInclude false file true now db)) (file_id file)
         = Some ingested)
  /\ (forall db file next now id,
         id <> file_id file ->
         status_of (fst (toggleInclude false file next now db)) id = status_of db id)
  /\ (forall db file now id,
         status_of (fst (deleteFile file now db)) id
         = if String.eqb id (file_id file)
           then option_map (fun _ => deleted) (status_of db id)
           else status_of db id).
Proof.
  split; [|split; [|split; [|split]]].
  - intros user topic f now db db'. apply status_of_uploaded.
  - intros db file now. rewrite status_of_toggleInclude.
    now rewrite String.eqb_refl.
  - intros db file now Hex. rewrite status_of_toggleInclude.
    now rewrite String.eqb_refl, Hex.
  - intros db file next now id Hid. rewrite status_of_toggleInclude.
    apply String.eqb_neq in Hid. now rewrite Hid.
  - intros db file now id. unfold deleteFile.
    destruct (documents_of_file db (file_id file)) as [|i ids]; simpl.
    + apply (status_of_update db (file_id file) (delete_set now) deleted now id eq_refl).
    + rewrite (status_of_update _ (file_id file) (delete_set now) deleted now id eq_refl).
      reflexivity.
Qed.

(** C6 (as stated) fails: from [ingested] the toggle moves [f1] to
    [excluded] and back to [ingested], two edges the stated lifecycle does
    not have, and the upload creates its row in [ingesting]. *)
Lemma toggle_leaves_the_lifecycle :
  let off := fst (toggleInclude false file_f1 false 7 db_upload) in
  let on := fst (toggleInclude false file_f1 true 8 off) in
  status_of db_upload "f1" = Some ingested
  /\ status_of off "f1" = Some excluded
  /\ status_of on "f1" = Some ingested
  /\ spec_lifecycle_edge ingested excluded = false
  /\ spec_lifecycle_edge excluded ingested = false
  /\ vector_status (handleFiles_row "u1" "t1"
       {| name := "a.pdf"; size := 10; generated_id := "f3"; date_now := 3 |})
     = ingesting.
Proof. repeat split; reflexivity. Qed.

(** *** The search function *)

Section SortBy.

Context {A : Type} (leb : A -> A -> bool).
Hypothesis leb_total : forall x y, leb x y = true \/ leb y x = true.
Hypothesis leb_trans : forall x y z, leb x y = true -> leb y z = true -> leb x z = true.

Let le (x y : A) : Prop := leb x y = true.

Lemma insert_by_perm (x : A) (l : list A) : Permutation (insert_by leb x l) (x :: l).
Proof.
  induction l as [|y l IH]; simpl; [reflexivity|].
  destruct (leb x y); [reflexivity|].
  rewrite IH. apply perm_swap.
Qed.

Lemma sort_by_perm (l : list A) : Permutation (sort_by leb l) l.
Proof.
  induction l as [|x l IH]; simpl; [reflexivity|].
  rewrite insert_by_perm. now constructor.
Qed.

Lemma insert_by_sorted (x : A) (l : list A) :
  StronglySorted le l -> StronglySorted le (insert_by leb x l).
Proof.
  induction 1 as [|y l Hs IH Hall]; simpl.
  - repeat constructor.
  - destruct (leb x y) eqn:E.
    + constructor; [now constructor|].
      constructor; [exact E|].
      eapply Forall_impl; [|exact Hall]. intros z Hz. now apply (leb_trans x y z).
    + constructor; [exact IH|].
      eapply Permutation_Forall.
      * symmetry. apply insert_by_perm.
      * constructor; [|exact Hall].
        destruct (leb_total x y) as [H|H]; [congruence | exact H].
Qed.

Lemma sort_by_sorted (l : list A) : StronglySorted le (sort_by leb l).
Proof.
  induction l as [|x l IH]; simpl; [constructor | now apply insert_by_sorted].
Qed.

End SortBy.

Lemma float8_leb_iff (x y : float8) : float8_leb x y = true <-> float8_le x y.
Proof.
  destruct x as [x|], y as [y|]; simpl; try tauto;
    try (split; [discriminate | contradiction]).
  apply Qle_bool_iff.
Qed.

Lemma float8_le_total (x y : float8) : float8_le x y \/ float8_le y x.
Proof.
  destruct x as [x|], y as [y|]; simpl; auto.
  destruct (Qlt_le_dec x y) as [H|H]; [left; now apply Qlt_le_weak | now right].
Qed.

Lemma float8_le_trans (x y z : float8) :
  float8_le x y -> float8_le y z -> float8_le x z.
Proof.
  destruct x, y, z; simpl; try tauto. apply Qle_trans.
Qed.

Lemma asc_nulls_lastb_iff (a b : option float8) :
  asc_nulls_lastb a b = true <-> asc_nulls_last a b.
Proof.
  destruct a, b; simpl; try tauto; try (split; [discriminate | contradiction]).
  apply float8_leb_iff.
Qed.

Lemma asc_nulls_last_total (a b : option float8) :
  asc_nulls_last a b \/ asc_nulls_last b a.
Proof.
  destruct a as [x|], b as [y|]; simpl; auto. apply float8_le_total.
Qed.

Lemma asc_nulls_last_trans (a b c : option float8) :
  asc_nulls_last a b -> asc_nulls_last b c -> asc_nulls_last a c.
Proof.
  destruct a, b, c; simpl; try tauto. apply float8_le_trans.
Qed.

Lemma firstn_subset {A} (n : nat) (l : list A) (x : A) :
  In x (firstn n l) -> In x l.
Proof.
  revert l. induction n as [|n IH]; intros [|y l]; simpl; try tauto.
  intros [->|H]; auto.
Qed.

Lemma StronglySorted_firstn {A} (R : A -> A -> Prop) (n : nat) (l : list A) :
  StronglySorted R l -> StronglySorted R (firstn n l).
Proof.
  intros H. revert n. induction H as [|x l Hs IH Hall]; intros [|n]; simpl;
    try constructor; auto.
  apply Forall_forall. intros y Hy. apply firstn_subset in Hy.
  revert y Hy. now apply Forall_forall.
Qed.

Lemma StronglySorted_weaken {A} (R S : A -> A -> Prop) (l : list A) :
  (forall x y, R x y -> S x y) -> StronglySorted R l -> StronglySorted S l.
Proof.
  intros HRS. induction 1 as [|x l Hs IH Hall]; constructor; auto.
  eapply Forall_impl; [|exact Hall]. intros y. apply HRS.
Qed.

Lemma StronglySorted_map {A B} (f : A -> B) (R : A -> A -> Prop) (S : B -> B -> Prop)
    (l : list A) :
  (forall x y, R x y -> S (f x) (f y)) ->
  StronglySorted R l -> StronglySorted S (map f l).
Proof.
  intros HRS. induction 1 as [|x l Hs IH Hall]; simpl; constructor; auto.
  apply Forall_map. eapply Forall_impl; [|exact Hall]. intros y. apply HRS.
Qed.

Lemma limit_incl {A} (k : option Z) (l l' : list A) :
  limit k l = Ok l' -> incl l' l.
Proof.
  unfold limit. destruct k as [n|].
  - destruct (n <? 0); [discriminate|]. intros H. inversion H. subst.
    intros x. apply firstn_subset.
  - intros H. inversion H. subst. apply incl_refl.
Qed.

Lemma limit_sorted {A} (R : A -> A -> Prop) (k : option Z) (l l' : list A) :
  limit k l = Ok l' -> StronglySorted R l -> StronglySorted R l'.
Proof.
  unfold limit. destruct k as [n|].
  - destruct (n <? 0); [discriminate|]. intros H. inversion H. subst.
    apply StronglySorted_firstn.
  - intros H. now inversion H.
Qed.

Lemma in_chunks_join_documents (db : DB) (c : Chunk) (d : Document) :
  In (c, d) (chunks_join_documents db) <->
  In c (chunks db) /\ In d (documents db) /\ doc_id d = document_id c.
Proof.
  unfold chunks_join_documents. rewrite in_flat_map. split.
  - intros [c' [Hc' H]]. apply in_map_iff in H as [d' [E Hd']]. inversion E; subst.
    apply filter_In in Hd' as [Hd' Hj]. apply String.eqb_eq in Hj. auto.
  - intros [Hc [Hd Hj]]. exists c. split; [assumption|].
    apply in_map. apply filter_In. split; [assumption|]. now apply String.eqb_eq.
Qed.

Lemma match_documents_where_true (T : option uuid) (a : option bool) (c : Chunk) :
  match_documents_where T a c = true ->
  (forall t, T = Some t -> chunk_topic_id c = t)
  /\ (a <> Some false -> is_active c = true).
Proof.
  unfold match_documents_where. intros H. split.
  - intros t ->. simpl in H.
    destruct (String.eqb (chunk_topic_id c) t) eqn:E; [now apply String.eqb_eq|].
    destruct a as [[|]|], (is_active c); discriminate.
  - intros Ha. destruct (is_active c); [reflexivity|].
    destruct a as [[|]|]; [| congruence |];
      destruct T as [t|]; simpl in H;
      try destruct (String.eqb (chunk_topic_id c) t); discriminate.
Qed.

Section RetrievalFacts.

Variable cosine_distance : vector -> vector -> float8.

(** The executor's answer is one of the tables the query may return. *)
Lemma match_documents_sound q k T a db rows :
  match_documents cosine_distance q k T a db = Ok rows ->
  exists sources,
    match_documents_sources cosine_distance q k T a db = Ok sources
    /\ match_documents_returns cosine_distance q k T a db sources rows.
Proof.
  unfold match_documents, bind.
  destruct (match_documents_sources cosine_distance q k T a db) as [srcs|e] eqn:E;
    [|discriminate].
  intros H. inversion H. subst. exists srcs. split; [reflexivity|].
  unfold match_documents_sources in E.
  eexists. split; [|split; [exact E | reflexivity]].
  split.
  - exists []. rewrite app_nil_r. apply sort_by_perm.
  - eapply StronglySorted_weaken; [|apply sort_by_sorted].
    + intros x y Hxy. unfold by_distance. now apply asc_nulls_lastb_iff.
    + intros x y.
      destruct (asc_nulls_last_total (distance cosine_distance q (fst x))
                                     (distance cosine_distance q (fst y)));
        [left | right]; now apply asc_nulls_lastb_iff.
    + intros x y z H1 H2. apply asc_nulls_lastb_iff.
      apply asc_nulls_lastb_iff in H1, H2.
      eapply asc_nulls_last_trans; eassumption.
Qed.

(** The call answers unless the row count is negative. *)
Lemma match_documents_total q k T a db :
  (forall n, k = Some n -> 0 <= n) ->
  exists rows, match_documents cosine_distance q k T a db = Ok rows.
Proof.
  intros Hk. unfold match_documents, match_documents_sources, limit, bind.
  destruct k as [n|]; [|eauto].
  specialize (Hk n eq_refl). destruct (Z.ltb_spec n 0); [lia | eauto].
Qed.

End RetrievalFacts.

(** Ascending in the distance is, for the similarity, descending among
    the numbers, with NaN behind them and NULL last. *)
Lemma similarity_antitone (a b : option float8) :
  asc_nulls_last a b ->
  desc_nan_nulls_last (option_map one_minus a) (option_map one_minus b).
Proof.
  destruct a as [[x|]|], b as [[y|]|]; simpl; auto.
  intros H. unfold Qminus. apply Qplus_le_r. now apply Qopp_le_compat.
Qed.

(** C2.  Every row [match_documents] may return comes from a chunk of the
    chunks table joined to its document; when [p_topic_id] is not NULL the
    chunk's [topic_id] is [p_topic_id], however near the chunks of other
    topics are; and unless [p_only_active] is false (so for true, the
    default, and for NULL) the chunk has [is_active = true]. *)
Theorem match_documents_scoped_and_active
    (cosine_distance : vector -> vector -> float8)
    (q : option vector) (k : option Z) (T : option uuid) (a : option bool)
    (db : DB) (sources : list (Chunk * Document)) (rows : list match_row) :
  match_documents_returns cosine_distance q k T a db sources rows ->
  forall row, In row rows ->
    exists c d,
      In (c, d) sources
      /\ row = select_row cosine_distance q (c, d)
      /\ In c (chunks db) /\ In d (documents db) /\ doc_id d = document_id c
      /\ (forall t, T = Some t -> chunk_topic_id c = t)
      /\ (a <> Some false -> is_active c = true).
Proof.
  intros [l [[[missed Hperm] _] [Hlim ->]]] row Hrow.
  apply in_map_iff in Hrow as [[c d] [<- Hcd]].
  exists c, d. split; [assumption|]. split; [reflexivity|].
  apply (limit_incl _ _ _ Hlim) in Hcd.
  assert (Hcd' : In (c, d) (l ++ missed)) by (apply in_or_app; now left).
  clear Hcd. rename Hcd' into Hcd.
  apply (Permutation_in _ Hperm) in Hcd.
  apply filter_In in Hcd as [Hjoin Hwhere]. simpl in Hwhere.
  apply in_chunks_join_documents in Hjoin as [Hc [Hd Hj]].
  apply match_documents_where_true in Hwhere as [HT Ha].
  auto 8.
Qed.

Lemma match_documents_scoped_and_active_witness :
  exists (sources : list (Chunk * Document)) (rows : list match_row),
    match_documents example_distance (Some [1%Q; 0%Q]) (Some 10)
      (Some "t1") p_only_active_default db_search = Ok rows
    /\ List.length rows = 2%nat
    /\ forall row, In row rows ->
         exists c d,
           In (c, d) sources
           /\ row = select_row example_distance (Some [1%Q; 0%Q]) (c, d)
           /\ In c (chunks db_search) /\ In d (documents db_search)
           /\ doc_id d = document_id c
           /\ (forall t, Some "t1" = Some t -> chunk_topic_id c = t)
           /\ (p_only_active_default <> Some false -> is_active c = true).
Proof.
  destruct (match_documents_sound example_distance (Some [1%Q; 0%Q]) (Some 10)
              (Some "t1") p_only_active_default db_search _ eq_refl)
    as [sources [_ Hret]].
  exists sources. eexists. split; [reflexivity|]. split; [reflexivity|].
  exact (match_documents_scoped_and_active _ _ _ _ _ _ _ _ Hret).
Defined.

Lemma float8_le_refl (x : float8) : float8_le x x.
Proof. destruct x; simpl; [apply Qle_refl | exact I]. Qed.

Lemma sql_eq_Q_refl (a : option float8) : sql_eq_Q a a.
Proof. destruct a as [[x|]|]; simpl; auto. apply Qeq_refl. Qed.

(** C8 (as amended).  Each returned row carries
    [similarity = 1 - (embedding <=> query_embedding)] of the chunk it comes
    from: NULL when an embedding is NULL, NaN when the distance is NaN (a
    zero vector).  The rows come in ascending order of the distance, which
    for the similarity means: the numbers in descending order, behind them
    the rows whose similarity is NaN, and last those whose similarity is
    NULL.  Nothing is said of the order of rows with equal similarity. *)
Theorem match_documents_ranked
    (cosine_distance : vector -> vector -> float8)
    (q : option vector) (k : option Z) (T : option uuid) (a : option bool)
    (db : DB) (sources : list (Chunk * Document)) (rows : list match_row) :
  match_documents_returns cosine_distance q k T a db sources rows ->
  Forall2 (fun cd row =>
             similarity row
             = option_map one_minus (distance cosine_distance q (fst cd)))
          sources rows
  /\ StronglySorted (by_distance cosine_distance q) sources
  /\ StronglySorted desc_nan_nulls_last (map similarity rows).
Proof.
  intros [l [[_ Hsorted] [Hlim ->]]].
  assert (Hs : StronglySorted (by_distance cosine_distance q) sources)
    by now apply (limit_sorted _ _ _ _ Hlim).
  split; [|split; [exact Hs|]].
  - clear Hlim Hs. induction sources as [|cd srcs IH]; simpl; constructor; auto.
  - rewrite map_map. simpl.
    apply (StronglySorted_map _ (by_distance cosine_distance q)); [|exact Hs].
    intros x y. apply similarity_antitone.
Qed.

Lemma match_documents_ranked_witness :
  exists (sources : list (Chunk * Document)) (rows : list match_row),
    match_documents example_distance (Some [1%Q; 0%Q]) (Some 10)
      (Some "t1") p_only_active_default db_ranked = Ok rows
    /\ map (fun cd => chunk_id (fst cd)) sources = [4; 5; 2; 1; 3]
    /\ map similarity rows
       = [Some (Num 1); Some (Num 0); Some (Num (-1)); Some NaN; None]
    /\ Forall2 (fun cd row =>
                  similarity row
                  = option_map one_minus
                      (distance example_distance (Some [1%Q; 0%Q]) (fst cd)))
               sources rows
    /\ StronglySorted (by_distance example_distance (Some [1%Q; 0%Q])) sources
    /\ StronglySorted desc_nan_nulls_last (map similarity rows).
Proof.
  destruct (match_documents_sound example_distance (Some [1%Q; 0%Q]) (Some 10)
              (Some "t1") p_only_active_default db_ranked _ eq_refl)
    as [sources [Hsrc Hret]].
  exists sources. eexists. split; [reflexivity|].
  split; [inversion Hsrc; reflexivity|]. split; [reflexivity|].
  exact (match_documents_ranked _ _ _ _ _ _ _ _ Hret).
Defined.

(** Chunks 1 and 2 of [db_search] carry the same embedding, hence the same
    distance to any query under any distance function; the table that
    lists chunk 2 before chunk 1 is ascending in the distance, so the query
    may return it, and it is not in insertion order. *)
Lemma equal_similarity_order_is_not_fixed :
  exists sources,
    sources = [(mk_chunk 2 "d1" true, doc_d1); (mk_chunk 1 "d1" true, doc_d1)]
    /\ forall cosine_distance : vector -> vector -> float8,
         match_documents_returns cosine_distance (Some [1%Q; 0%Q]) (Some 2)
           (Some "t1") p_only_active_default db_search sources
           (map (select_row cosine_distance (Some [1%Q; 0%Q])) sources)
         /\ ~ ties_in_insertion_order cosine_distance (Some [1%Q; 0%Q]) sources.
Proof.
  eexists. split; [reflexivity|]. intros cosine_distance. split.
  - exists [(mk_chunk 2 "d1" true, doc_d1); (mk_chunk 1 "d1" true, doc_d1)].
    split; [|split; reflexivity].
    split.
    + exists []. apply perm_swap.
    + repeat constructor. unfold by_distance. simpl. apply float8_le_refl.
  - intros H.
    specialize (H 0%nat 1%nat _ _ (Nat.lt_0_1) eq_refl eq_refl
                  (sql_eq_Q_refl _)).
    simpl in H. lia.
Qed.

(** C8 (as stated) fails twice.  Rows with equal similarity need not come
    in insertion order (the table above).  And the rows are not always in
    descending order of the similarity: the chunk with the zero vector has
    the similarity NaN, which is greater than every number in the order of
    [float8], and it comes behind the rows whose similarity is a number;
    the call returns the similarities 1, 0, -1, NaN, NULL. *)
Lemma stated_ranking_fails :
  (exists sources,
      sources = [(mk_chunk 2 "d1" true, doc_d1); (mk_chunk 1 "d1" true, doc_d1)]
      /\ forall cosine_distance : vector -> vector -> float8,
           match_documents_returns cosine_distance (Some [1%Q; 0%Q]) (Some 2)
             (Some "t1") p_only_active_default db_search sources
             (map (select_row cosine_distance (Some [1%Q; 0%Q])) sources)
           /\ ~ ties_in_insertion_order cosine_distance (Some [1%Q; 0%Q]) sources)
  /\ exists rows,
       match_documents example_distance (Some [1%Q; 0%Q]) (Some 10)
         (Some "t1") p_only_active_default db_ranked = Ok rows
       /\ map similarity rows
          = [Some (Num 1); Some (Num 0); Some (Num (-1)); Some NaN; None]
       /\ ~ StronglySorted desc_nulls_last (map similarity rows).
Proof.
  split; [exact equal_similarity_order_is_not_fixed|].
  eexists. split; [reflexivity|]. split; [reflexivity|].
  intros H. simpl in H.
  inversion H as [|x l _ Hall]; subst. clear H.
  inversion Hall as [|y l' _ Hrest]; subst. clear Hall.
  inversion Hrest as [|z l'' _ Hnan]; subst. clear Hrest.
  inversion Hnan as [|w l3 Hbad _]; subst.
  simpl in Hbad. unfold Qle in Hbad. simpl in Hbad. lia.
Qed.

(** *** Quiz options: one correct option per question *)

(** C4.  When a question has an option with [is_correct = true], the insert
    of another option with [is_correct = true] for that question is
    rejected with a unique violation; no store results from it. *)
Theorem second_correct_option_rejected
    (db : DB) (o row : QuizOption) :
  In o (quiz_options db) ->
  is_correct o = true ->
  is_correct row = true ->
  qo_question_id row = qo_question_id o ->
  (insert_quiz_option row db = Err (unique_violation "uq_correct_option_per_question")
   \/ insert_quiz_option row db = Err (unique_violation "quiz_options_pkey"))
  /\ forall db', insert_quiz_option row db <> Ok db'.
Proof.
  intros Ho Hoc Hrc Hq.
  assert (Hconf : uq_correct_option_per_question_conflict row (quiz_options db) = true).
  { unfold uq_correct_option_per_question_conflict. rewrite Hrc. simpl.
    apply existsb_exists. exists o. split; [assumption|].
    rewrite Hoc, Hq. simpl. apply String.eqb_refl. }
  assert (H : insert_quiz_option row db
              = Err (unique_violation "uq_correct_option_per_question")
              \/ insert_quiz_option row db = Err (unique_violation "quiz_options_pkey")).
  { unfold insert_quiz_option, bind, guard. rewrite Hconf. simpl.
    destruct (mem (qo_id row) (map qo_id (quiz_options db))); simpl; auto. }
  split; [exact H|].
  intros db' E. destruct H as [H|H]; rewrite H in E; discriminate.
Qed.

Lemma second_correct_option_rejected_witness :
  let row := {| qo_id := "o9"; qo_question_id := "q1"; option_text := "four";
                is_correct := true |} in
  (insert_quiz_option row db_quiz = Err (unique_violation "uq_correct_option_per_question")
   \/ insert_quiz_option row db_quiz = Err (unique_violation "quiz_options_pkey"))
  /\ forall db', insert_quiz_option row db_quiz <> Ok db'.
Proof.
  apply (second_correct_option_rejected db_quiz
           {| qo_id := "o1"; qo_question_id := "q1"; option_text := "4";
              is_correct := true |}); simpl; auto.
Defined.

(** *** [delete_quiz_content] and regeneration *)

Lemma filter_all {A} (p : A -> bool) (l : list A) :
  (forall x, In x l -> p x = true) -> filter p l = l.
Proof.
  induction l as [|x l IH]; simpl; intros H; [reflexivity|].
  rewrite H by now left. f_equal. apply IH. intros y Hy. apply H. now right.
Qed.

Lemma filter_none {A} (p : A -> bool) (l : list A) :
  (forall x, In x l -> p x = false) -> filter p l = [].
Proof.
  induction l as [|x l IH]; simpl; intros H; [reflexivity|].
  rewrite H by now left. apply IH. intros y Hy. apply H. now right.
Qed.

Lemma in_quiz_question_ids (db : DB) (p x : uuid) :
  In x (quiz_question_ids db p)
  <-> exists q, In q (quiz_questions db) /\ qq_quiz_id q = p /\ qq_id q = x.
Proof.
  unfold quiz_question_ids. rewrite in_map_iff. split.
  - intros [q [E Hq]]. apply filter_In in Hq as [Hq Hp].
    apply String.eqb_eq in Hp. eauto.
  - intros [q [Hq [Hp E]]]. exists q. split; [assumption|].
    apply filter_In. split; [assumption|]. now apply String.eqb_eq.
Qed.

Lemma quiz_fks_ok_facts (db : DB) : quiz_fks_ok db = true <-> quiz_fk_facts db.
Proof.
  unfold quiz_fks_ok, answers_reference_questions, answers_reference_attempts,
    answers_reference_options, options_reference_questions.
  rewrite !andb_true_iff, !forallb_forall. split.
  - intros [[[H1 H2] H3] H4]. constructor.
    + intros a Ha. now apply mem_In, H1.
    + intros a Ha. now apply mem_In, H2.
    + intros a Ha. now apply mem_In, H3.
    + intros o Ho. now apply mem_In, H4.
  - intros [H1 H2 H3 H4]. repeat split.
    + intros a Ha. now apply mem_In, H1.
    + intros a Ha. now apply mem_In, H2.
    + intros a Ha. now apply mem_In, H3.
    + intros o Ho. now apply mem_In, H4.
Qed.

Lemma existsb_filter_and {A} (p f : A -> bool) (l : list A) :
  existsb f (filter p l) = existsb (fun x => p x && f x) l.
Proof.
  induction l as [|x l IH]; simpl; [reflexivity|].
  destruct (p x); simpl; now rewrite IH.
Qed.

Lemma existsb_ext_in {A} (f g : A -> bool) (l : list A) :
  (forall x, In x l -> f x = g x) -> existsb f l = existsb g l.
Proof.
  induction l as [|x l IH]; simpl; intros H; [reflexivity|].
  rewrite H by now left. f_equal. apply IH. intros y Hy. apply H. now right.
Qed.

Section DeleteQuizContent.

Variable db : DB.
Variable p : uuid.

Let Q := quiz_question_ids db p.
Let G := map qa_id (filter (fun qa => String.eqb (qa_quiz_id qa) p) (quiz_attempts db)).
Let d1 := delete_quiz_content_1 p db.
Let d2 := delete_quiz_content_2 p d1.

Lemma answers_after_2 :
  attempt_answers d2
  = filter (fun a => negb (mem (attempt_id a) G))
           (filter (fun a => negb (mem (aa_question_id a) Q)) (attempt_answers db)).
Proof. reflexivity. Qed.

Lemma in_answers_after_2 a :
  In a (attempt_answers d2) ->
  In a (attempt_answers db) /\ ~ In (aa_question_id a) Q /\ ~ In (attempt_id a) G.
Proof.
  rewrite answers_after_2. intros H.
  apply filter_In in H as [H HG]. apply filter_In in H as [H HQ].
  apply negb_true_iff, mem_false in HG. apply negb_true_iff, mem_false in HQ. auto.
Qed.

(** What the third statement checks: is an answer left that selects an
    option of a question of the quiz? *)
Lemma step_3_check :
  existsb (fun a => mem (selected_option_id a) (options_of_questions Q d2))
          (attempt_answers d2)
  = existsb (selects_into_quiz p db) (attempt_answers db).
Proof.
  rewrite answers_after_2, !existsb_filter_and.
  apply existsb_ext_in. intros a _. unfold selects_into_quiz. fold Q. fold G.
  now rewrite andb_assoc.
Qed.

Let d3 := with_quiz_options d2
            (filter (fun o => negb (mem (qo_question_id o) Q)) (quiz_options db)).

(** The third statement is rejected when such an answer is left, and runs
    when none is. *)
Lemma step_3 :
  delete_quiz_content_3 p d2
  = if existsb (selects_into_quiz p db) (attempt_answers db)
    then Err (foreign_key_violation "attempt_answers_selected_option_id_fkey")
    else Ok d3.
Proof.
  unfold delete_quiz_content_3, delete_quiz_options, bind, guard.
  change (quiz_question_ids d2 p) with Q.
  change (map qo_id (filter (fun qo => mem (qo_question_id qo) Q) (quiz_options d2)))
    with (options_of_questions Q d2).
  rewrite step_3_check.
  now destruct (existsb (selects_into_quiz p db) (attempt_answers db)).
Qed.

Let d4 := with_quiz_questions d3
            (filter (fun q => negb (String.eqb (qq_quiz_id q) p)) (quiz_questions db)).

(** The fourth statement finds nothing left to cascade to. *)
Lemma step_4_Ok : delete_quiz_content_4 p d3 = Ok d4.
Proof.
  unfold delete_quiz_content_4, delete_quiz_questions, selected_option_restrict,
    options_of_questions, cascade_from_quiz_questions, bind, guard.
  change (map qq_id (filter (fun qq3 => String.eqb (qq_quiz_id qq3) p) (quiz_questions d3)))
    with Q.
  cbn [quiz_options attempt_answers with_quiz_questions with_quiz_options
       with_attempt_answers d3 quiz_questions].
  rewrite (filter_none (fun o => mem (qo_question_id o) Q)
             (filter (fun o => negb (mem (qo_question_id o) Q)) (quiz_options db))).
  2:{ intros o Ho. apply filter_In in Ho as [_ Ho]. now apply negb_true_iff. }
  cbn [map mem existsb].
  rewrite (existsb_none (fun _ => false)) by reflexivity.
  cbn [negb].
  rewrite (filter_all (fun o => negb (mem (qo_question_id o) Q))
             (filter (fun o => negb (mem (qo_question_id o) Q)) (quiz_options db))).
  2:{ intros o Ho. now apply filter_In in Ho as [_ Ho]. }
  rewrite (filter_all (fun a => negb (mem (aa_question_id a) Q)) (attempt_answers d2)).
  2:{ intros a Ha. apply in_answers_after_2 in Ha as [_ [Ha _]].
      apply negb_true_iff. now apply mem_false. }
  reflexivity.
Qed.

Lemma delete_quiz_content_run :
  delete_quiz_content p db
  = if existsb (selects_into_quiz p db) (attempt_answers db)
    then Err (foreign_key_violation "attempt_answers_selected_option_id_fkey")
    else Ok d4.
Proof.
  unfold delete_quiz_content. fold d1. fold d2. rewrite step_3.
  destruct (existsb (selects_into_quiz p db) (attempt_answers db)); [reflexivity|].
  apply step_4_Ok.
Qed.

Lemma gone_after_delete : quiz_content_gone p d4.
Proof.
  split; simpl.
  - intros q Hq. apply filter_In in Hq as [_ Hq].
    now apply negb_true_iff, String.eqb_neq in Hq.
  - intros qa Hqa. apply filter_In in Hqa as [_ Hqa].
    now apply negb_true_iff, String.eqb_neq in Hqa.
Qed.

Hypothesis facts : quiz_fk_facts db.

(** Along the way the answers only shrink and the questions stay: every
    answer references a question of the table. *)
Lemma answers_reference_questions_along :
  answers_reference_questions d1 = true
  /\ answers_reference_questions d2 = true
  /\ answers_reference_questions d3 = true.
Proof.
  unfold answers_reference_questions.
  repeat split; apply forallb_forall; intros a Ha; apply mem_In;
    apply (fk_answer_question db facts); simpl in Ha.
  - now apply filter_In in Ha as [Ha _].
  - apply filter_In in Ha as [Ha _]. now apply filter_In in Ha as [Ha _].
  - apply filter_In in Ha as [Ha _]. now apply filter_In in Ha as [Ha _].
Qed.

Hypothesis free : existsb (selects_into_quiz p db) (attempt_answers db) = false.

(** No answer that is left selects an option of the quiz. *)
Lemma left_answers_select_elsewhere a o :
  In a (attempt_answers d2) -> In o (quiz_options db) ->
  qo_id o = selected_option_id a -> ~ In (qo_question_id o) Q.
Proof.
  intros Ha Ho E HoQ. apply in_answers_after_2 in Ha as [Ha [HQ HG]].
  assert (Hs : selects_into_quiz p db a = true).
  { unfold selects_into_quiz. fold Q. fold G.
    apply mem_false in HQ, HG. rewrite HQ, HG. simpl.
    apply mem_In. rewrite <- E. unfold options_of_questions. apply in_map.
    apply filter_In. split; [assumption | now apply mem_In]. }
  assert (Hex : existsb (selects_into_quiz p db) (attempt_answers db) = true)
    by (apply existsb_exists; eauto).
  congruence.
Qed.

Lemma facts_after_delete : quiz_fk_facts d4.
Proof.
  constructor; simpl.
  - intros a Ha. apply in_answers_after_2 in Ha as [Ha [HQ _]].
    pose proof (fk_answer_question db facts a Ha) as H.
    apply in_map_iff in H as [q [E Hq]]. apply in_map_iff. exists q.
    split; [assumption|]. apply filter_In. split; [assumption|].
    apply negb_true_iff. apply String.eqb_neq. intros Hp. apply HQ.
    apply in_quiz_question_ids. eauto.
  - intros a Ha. apply in_answers_after_2 in Ha as [Ha [_ HG]].
    pose proof (fk_answer_attempt db facts a Ha) as H.
    apply in_map_iff in H as [qa [E Hqa]]. apply in_map_iff. exists qa.
    split; [assumption|]. apply filter_In. split; [assumption|].
    apply negb_true_iff. apply String.eqb_neq. intros Hp. apply HG.
    apply in_map_iff. exists qa. split; [assumption|].
    apply filter_In. split; [assumption|]. now apply String.eqb_eq.
  - intros a Ha.
    pose proof (fk_answer_option db facts a (proj1 (in_answers_after_2 a Ha))) as H.
    apply in_map_iff in H as [o [E Ho]]. apply in_map_iff. exists o.
    split; [assumption|]. apply filter_In. split; [assumption|].
    apply negb_true_iff. apply mem_false.
    now apply (left_answers_select_elsewhere a o).
  - intros o Ho. apply filter_In in Ho as [Ho HQ].
    apply negb_true_iff, mem_false in HQ.
    pose proof (fk_option_question db facts o Ho) as H.
    apply in_map_iff in H as [q [E Hq]]. apply in_map_iff. exists q.
    split; [assumption|]. apply filter_In. split; [assumption|].
    apply negb_true_iff. apply String.eqb_neq. intros Hp. apply HQ.
    apply in_quiz_question_ids. eauto.
Qed.

End DeleteQuizContent.

Lemma for_each_Err {A} (stmt : A -> DB -> result DB) (rows : list A) (e : pg_error) :
  fold_left (fun r row => bind r (stmt row)) rows (Err e) = Err e.
Proof. induction rows as [|x rows IH]; simpl; auto. Qed.

Lemma for_each_cons {A} (stmt : A -> DB -> result DB) (x : A) (rows : list A) (db : DB) :
  for_each stmt (x :: rows) db = bind (stmt x db) (for_each stmt rows).
Proof.
  unfold for_each. simpl. destruct (stmt x db) as [db1|e]; simpl; [reflexivity|].
  apply for_each_Err.
Qed.

Lemma insert_quiz_question_Ok (row : QuizQuestion) (db db' : DB) :
  insert_quiz_question row db = Ok db' ->
  db' = with_quiz_questions db (quiz_questions db ++ [row])
  /\ ~ In (qq_id row) (map qq_id (quiz_questions db)).
Proof.
  unfold insert_quiz_question, bind, guard.
  destruct (mem (qq_id row) (map qq_id (quiz_questions db))) eqn:M; simpl;
    [discriminate|].
  destruct (mem (qq_quiz_id row) (map quiz_id (quizzes db))); simpl; [|discriminate].
  intros H. inversion H. split; [reflexivity | now apply mem_false].
Qed.

Lemma insert_quiz_option_Ok (row : QuizOption) (db db' : DB) :
  insert_quiz_option row db = Ok db' ->
  db' = with_quiz_options db (quiz_options db ++ [row]).
Proof.
  unfold insert_quiz_option, bind, guard.
  pass_guards; intros H; inversion H; reflexivity.
Qed.

Lemma for_each_insert_quiz_question (rows : list QuizQuestion) (db db' : DB) :
  for_each insert_quiz_question rows db = Ok db' ->
  db' = with_quiz_questions db (quiz_questions db ++ rows)
  /\ forall q, In q rows -> ~ In (qq_id q) (map qq_id (quiz_questions db)).
Proof.
  revert db. induction rows as [|x rows IH]; intros db.
  - unfold for_each. simpl. intros H. inversion H. subst db'. split.
    + rewrite app_nil_r. now destruct db.
    + contradiction.
  - rewrite for_each_cons.
    destruct (insert_quiz_question x db) as [db1|e] eqn:E; simpl; [|discriminate].
    apply insert_quiz_question_Ok in E as [-> Hfresh].
    intros H. apply IH in H as [-> Hrest]. simpl. split.
    + now rewrite <- app_assoc.
    + intros q [<-|Hq]; [assumption|].
      intros Hin. apply (Hrest q Hq). simpl. rewrite map_app. apply in_or_app. now left.
Qed.

Lemma for_each_insert_quiz_option (rows : list QuizOption) (db db' : DB) :
  for_each insert_quiz_option rows db = Ok db' ->
  db' = with_quiz_options db (quiz_options db ++ rows).
Proof.
  revert db. induction rows as [|x rows IH]; intros db.
  - unfold for_each. simpl. intros H. inversion H. subst db'.
    rewrite app_nil_r. now destruct db.
  - rewrite for_each_cons.
    destruct (insert_quiz_option x db) as [db1|e] eqn:E; simpl; [|discriminate].
    apply insert_quiz_option_Ok in E as ->.
    intros H. apply IH in H as ->. simpl. now rewrite <- app_assoc.
Qed.




(** *** The score of a submitted attempt *)

Lemma score_table : score_table_ok = true.
Proof. vm_compute. reflexivity. Qed.

(** Below forty questions the double-precision score is the exact one. *)
Lemma score_of_below_40 (correct total : nat) :
  (0 < total < 40)%nat -> (correct <= total)%nat ->
  score_of correct total = Some (round_percent correct total).
Proof.
  intros Ht Hc. pose proof score_table as H. unfold score_table_ok in H.
  rewrite forallb_forall in H.
  assert (Hin : In total (seq 1 39)) by (apply in_seq; lia).
  specialize (H total Hin). rewrite forallb_forall in H.
  assert (Hin' : In correct (seq 0 (S total))) by (apply in_seq; lia).
  specialize (H correct Hin').
  destruct (score_of correct total) as [s|]; [|discriminate].
  apply Z.eqb_eq in H. now subst.
Qed.

Lemma or_empty_id (x : string) : or_empty x = x.
Proof.
  unfold or_empty. destruct (String.eqb x "") eqn:E; [|reflexivity].
  apply String.eqb_eq in E. now subst.
Qed.

Lemma existsb_filter {A} (p f : A -> bool) (l : list A) :
  existsb (fun x => p x && f x) l = existsb f (filter p l).
Proof.
  induction l as [|x l IH]; simpl; [reflexivity|].
  destruct (p x); simpl; now rewrite IH.
Qed.

Lemma find_filter_head {A} (p : A -> bool) (l : list A) :
  find p l = hd_error (filter p l).
Proof.
  induction l as [|x l IH]; simpl; [reflexivity|]. now destruct (p x).
Qed.

(** The page's comparison with the first flagged choice counts what the
    specification counts. *)
Lemma counts_agree_on (answers : Answers) (qq : Question) :
  one_correct_at_most qq = true ->
  selected_nonempty answers qq = true ->
  strictly_equal (yourChoiceId (detail_of answers qq))
                 (correctChoiceId (detail_of answers qq))
  = match answers (question_id qq) with
    | Some y => existsb (fun c => isCorrect c && String.eqb (choice_id c) y) (choices qq)
    | None => false
    end.
Proof.
  unfold one_correct_at_most, selected_nonempty, detail_of. simpl.
  intros H1 H2. destruct (answers (question_id qq)) as [y|]; [|reflexivity].
  simpl in *. apply negb_true_iff in H2.
  rewrite existsb_filter, find_filter_head.
  destruct (filter isCorrect (choices qq)) as [|c [|c' l]]; simpl in *.
  - exact H2.
  - rewrite or_empty_id, orb_false_r. apply String.eqb_sym.
  - discriminate.
Qed.

Lemma length_filter_map {A B} (f : B -> bool) (g : A -> B) (h : A -> bool) (l : list A) :
  (forall x, In x l -> f (g x) = h x) ->
  List.length (filter f (map g l)) = List.length (filter h l).
Proof.
  induction l as [|x l IH]; simpl; intros H; [reflexivity|].
  rewrite (H x) by now left.
  destruct (h x); simpl; rewrite IH; auto.
Qed.

Lemma correct_of_correct_count (questions : list Question) (answers : Answers) :
  forallb one_correct_at_most questions = true ->
  forallb (selected_nonempty answers) questions = true ->
  correct_of (map (detail_of answers) questions) = correct_count questions answers.
Proof.
  rewrite !forallb_forall. intros H1 H2.
  unfold correct_of, correct_count. apply length_filter_map.
  intros qq Hqq. apply counts_agree_on; auto.
Qed.

Lemma correct_count_le (questions : list Question) (answers : Answers) :
  (correct_count questions answers <= List.length questions)%nat.
Proof. unfold correct_count. apply filter_length_le. Qed.

Lemma insert_attempt_answer_attempts (row : answer_insert) (db db' : DB) :
  insert_attempt_answer row db = Ok db' -> quiz_attempts db' = quiz_attempts db.
Proof.
  unfold insert_attempt_answer, bind, guard.
  destruct (ans_selected_option_id row); [|discriminate].
  pass_guards; intros H; inversion H; reflexivity.
Qed.

Lemma for_each_insert_attempt_answer_attempts (rows : list answer_insert) (db db' : DB) :
  for_each insert_attempt_answer rows db = Ok db' ->
  quiz_attempts db' = quiz_attempts db.
Proof.
  revert db. induction rows as [|x rows IH]; intros db.
  - unfold for_each. simpl. intros H. now inversion H.
  - rewrite for_each_cons.
    destruct (insert_attempt_answer x db) as [db1|e] eqn:E; simpl; [|discriminate].
    intros H. rewrite (IH _ H). now apply insert_attempt_answer_attempts in E.
Qed.

(** What a completed [submit] leaves in quiz_attempts. *)
Lemma submit_results_page quizId authed attemptId questions answers now db db' :
  submit quizId authed attemptId questions answers now db = (db', results_page) ->
  let score := score_of (correct_of (map (detail_of answers) questions))
                        (List.length questions) in
  (exists a, In a (quiz_attempts db') /\ qa_id a = attemptId)
  /\ forall a, In a (quiz_attempts db') -> qa_id a = attemptId ->
               submitted_at a = Some now /\ score_percent a = score
               /\ duration_sec a = None.
Proof.
  unfold submit. destruct authed as [user|]; [|discriminate].
  destruct (insert_quiz_attempt _ db) as [db1|e] eqn:E1; [|discriminate].
  match goal with
  | |- context [match ?r with Ok _ => _ | Err _ => _ end] =>
      destruct r as [db2|e] eqn:E2; [|discriminate]
  end.
  destruct (update_quiz_attempt _ _ _ _ db2) as [db3|e] eqn:E3; [|discriminate].
  intros H. inversion H. subst db3. clear H. cbv zeta.
  assert (H2 : quiz_attempts db2 = quiz_attempts db1).
  { destruct (map (answerRow attemptId) _); [now inversion E2|].
    now apply for_each_insert_attempt_answer_attempts in E2. }
  assert (H1 : exists a, In a (quiz_attempts db1) /\ qa_id a = attemptId).
  { unfold insert_quiz_attempt, bind, guard in E1.
    repeat match type of E1 with
           | context [if ?b then _ else _] => destruct b; simpl in E1
           end; try discriminate.
    inversion E1. simpl. eexists. split; [apply in_or_app; right; now left|].
    reflexivity. }
  unfold update_quiz_attempt, bind, guard in E3.
  destruct (_ || _); simpl in E3; [|discriminate].
  inversion E3. simpl. rewrite H2. split.
  - destruct H1 as [a [Ha Hid]].
    eexists. split.
    + apply in_map_iff. exists a. split; [reflexivity | exact Ha].
    + rewrite Hid, String.eqb_refl. reflexivity.
  - intros a Ha Hid. apply in_map_iff in Ha as [a0 [E Ha0]].
    destruct (String.eqb (qa_id a0) attemptId) eqn:Eid.
    + subst a. simpl. auto.
    + subst a. apply String.eqb_neq in Eid. contradiction.
Qed.

(** C9.  When [submit] completes on a quiz of fewer than forty questions
    (the lengths a quiz may have are 5, 10 and 20: the check on
    [quizzes.length], the choices of the dialog), the attempt it created
    carries the submit time and
    [score_percent = round(100 * correct_count / total_questions)], a half
    going up, [correct_count] being the number of questions whose selected
    option is the question's correct option; 6 right of 10 give 60. *)
Theorem submit_persists_score
    (quizId : uuid) (authed : option uuid) (attemptId : uuid)
    (questions : list Question) (answers : Answers) (now : timestamptz)
    (db db' : DB) :
  submit quizId authed attemptId questions answers now db = (db', results_page) ->
  forallb one_correct_at_most questions = true ->
  forallb (selected_nonempty answers) questions = true ->
  (0 < List.length questions < 40)%nat ->
  let correct := correct_count questions answers in
  let total := List.length questions in
  (exists a, In a (quiz_attempts db') /\ qa_id a = attemptId)
  /\ (forall a, In a (quiz_attempts db') -> qa_id a = attemptId ->
                submitted_at a = Some now
                /\ score_percent a = Some (round_percent correct total)).
Proof.
  intros Hsubmit H1 H2 Ht correct total.
  apply submit_results_page in Hsubmit as [Hex Hall].
  rewrite (correct_of_correct_count questions answers H1 H2) in Hall.
  split; [exact Hex|].
  intros a Ha Hid. destruct (Hall a Ha Hid) as [A [B _]]. split; [exact A|].
  rewrite B. apply score_of_below_40; [exact Ht | apply correct_count_le].
Qed.

Lemma submit_persists_score_witness :
  exists db',
    submit "z" (Some "u1") "att" (gen_questions "z" 10) (gen_answers "z" 6) 99
           (gen_db "z" 10) = (db', results_page)
    /\ correct_count (gen_questions "z" 10) (gen_answers "z" 6) = 6%nat
    /\ (exists a, In a (quiz_attempts db') /\ qa_id a = "att")
    /\ forall a, In a (quiz_attempts db') -> qa_id a = "att" ->
                 submitted_at a = Some 99 /\ score_percent a = Some 60.
Proof.
  assert (Hs : exists db',
             submit "z" (Some "u1") "att" (gen_questions "z" 10) (gen_answers "z" 6) 99
                    (gen_db "z" 10) = (db', results_page))
    by (vm_compute; eexists; reflexivity).
  destruct Hs as [db' Hs]. exists db'. split; [exact Hs|].
  assert (H1 : forallb one_correct_at_most (gen_questions "z" 10) = true)
    by (vm_compute; reflexivity).
  assert (H2 : forallb (selected_nonempty (gen_answers "z" 6)) (gen_questions "z" 10)
               = true) by (vm_compute; reflexivity).
  assert (Ht : (0 < List.length (gen_questions "z" 10) < 40)%nat)
    by (vm_compute; lia).
  destruct (submit_persists_score _ _ _ _ _ _ _ _ Hs H1 H2 Ht) as [Hex Hall].
  assert (Hc : correct_count (gen_questions "z" 10) (gen_answers "z" 6) = 6%nat)
    by (vm_compute; reflexivity).
  split; [exact Hc|]. split; [exact Hex|].
  intros a Ha Hid. destruct (Hall a Ha Hid) as [A B]. split; [exact A|].
  rewrite B, Hc. vm_compute. reflexivity.
Defined.

(** Beyond the lengths a quiz may have the double-precision evaluation of
    [(correct / total) * 100] can miss the exact value: with 23 of 40
    questions right the page would store 57, because [(23 / 40) * 100] is
    57.49999999999999 in double precision, while [100 * 23 / 40 = 57.5]
    rounds to 58. *)
Lemma score_23_of_40 :
  let run := submit "z" (Some "u1") "att" (gen_questions "z" 40) (gen_answers "z" 23) 99
                    (gen_db "z" 40) in
  snd run = results_page
  /\ map score_percent
         (filter (fun a => String.eqb (qa_id a) "att") (quiz_attempts (fst run)))
     = [Some 57]
  /\ correct_count (gen_questions "z" 40) (gen_answers "z" 23) = 23%nat
  /\ List.length (gen_questions "z" 40) = 40%nat
  /\ round_percent 23 40 = 58
  /\ forallb one_correct_at_most (gen_questions "z" 40) = true.
Proof. vm_compute. repeat split; reflexivity. Qed.

(** *** Orphan categories *)

Lemma references_iff (cid : uuid) (t : Topic) :
  references cid t = true <-> category_id t = Some cid.
Proof.
  unfold references, option_uuid_eqb. destruct (category_id t) as [c|].
  - rewrite String.eqb_eq. split; congruence.
  - split; discriminate.
Qed.

Lemma filter_filter {A} (f g : A -> bool) (l : list A) :
  filter f (filter g l) = filter (fun x => g x && f x) l.
Proof.
  induction l as [|x l IH]; simpl; [reflexivity|].
  destruct (g x); simpl; [destruct (f x)|]; now rewrite IH.
Qed.

(** A pruning delete finds no topic to set to null. *)
Lemma delete_categories_topics (where_ : Category -> bool) (cid : uuid) (db : DB) :
  existsb (references cid) (topics db) = false ->
  (forall c, where_ c = true -> cat_id c = cid) ->
  topics (delete_categories where_ db) = topics db.
Proof.
  intros Hnone Hw. unfold delete_categories. simpl. apply map_fixed.
  intros t Ht. destruct (category_id t) as [c|] eqn:Ec; [|reflexivity].
  destruct (mem c _) eqn:M; [|reflexivity].
  exfalso. apply mem_In in M. apply in_map_iff in M as [k [Ek Hk]].
  apply filter_In in Hk as [_ Hk]. apply Hw in Hk.
  assert (Hr : references cid t = true) by (apply references_iff; congruence).
  assert (Hex : existsb (references cid) (topics db) = true)
    by (apply existsb_exists; eauto).
  congruence.
Qed.

Lemma prune_orphan_category_tables (db : DB) (old : Topic) :
  topics (prune_orphan_category db old) = topics db
  /\ categories (prune_orphan_category db old)
     = filter (fun c => negb (prunes [old] (topics db) c)) (categories db).
Proof.
  unfold prune_orphan_category, prunes. simpl.
  destruct (category_id old) as [cid|] eqn:Ec.
  - destruct (existsb (references cid) (topics db)) eqn:Ex.
    + split; [reflexivity|]. symmetry. apply filter_all. intros c _.
      apply negb_true_iff. rewrite orb_false_r.
      destruct (references (cat_id c) old) eqn:R; [|reflexivity].
      apply references_iff in R. assert (cat_id c = cid) as -> by congruence.
      rewrite Ex. simpl. apply andb_false_r.
    + split.
      * apply (delete_categories_topics _ cid); [exact Ex|].
        intros c Hc. apply andb_true_iff in Hc as [Hc _]. now apply String.eqb_eq.
      * unfold delete_categories. simpl. apply filter_ext. intros c.
        f_equal. rewrite orb_false_r. unfold references at 1. rewrite Ec. simpl.
        rewrite (String.eqb_sym cid).
        destruct (String.eqb (cat_id c) cid) eqn:E; simpl; [|reflexivity].
        apply String.eqb_eq in E. rewrite E, Ex. simpl.
        rewrite andb_true_r. apply String.eqb_sym.
  - split; [reflexivity|]. symmetry. apply filter_all. intros c _.
    unfold references. rewrite Ec. reflexivity.
Qed.

Lemma fold_prune_orphan_category (olds : list Topic) (db : DB) :
  topics (fold_left prune_orphan_category olds db) = topics db
  /\ categories (fold_left prune_orphan_category olds db)
     = filter (fun c => negb (prunes olds (topics db) c)) (categories db).
Proof.
  revert db. induction olds as [|old olds IH]; intros db; simpl.
  - split; [reflexivity|]. symmetry. now apply filter_all.
  - destruct (IH (prune_orphan_category db old)) as [-> ->].
    destruct (prune_orphan_category_tables db old) as [-> ->].
    split; [reflexivity|]. rewrite filter_filter. apply filter_ext. intros c.
    unfold prunes. simpl. rewrite orb_false_r.
    destruct (references (cat_id c) old && String.eqb (topic_user_id old) (cat_user_id c));
      simpl; [|reflexivity].
    destruct (existsb (references (cat_id c)) (topics db)); simpl;
      [now rewrite andb_false_r | reflexivity].
Qed.

Lemma delete_quizzes_frame (w : Quiz -> bool) (db db' : DB) :
  delete_quizzes w db = Ok db' ->
  topics db' = topics db /\ categories db' = categories db.
Proof.
  unfold delete_quizzes, selected_option_restrict, bind, guard.
  destruct (negb _); [|discriminate].
  intros H. inversion H. simpl. auto.
Qed.

(** Where every answer selects an option of the question it answers, an
    answer that selects a deleted option answers a deleted question and has
    gone with it: the restriction stops no delete of quizzes. *)
Lemma delete_quizzes_runs (w : Quiz -> bool) (db : DB) :
  answers_select_own_options db = true ->
  exists db', delete_quizzes w db = Ok db'.
Proof.
  intros Hown. unfold delete_quizzes, selected_option_restrict, bind, guard.
  match goal with
  | |- context [existsb ?f ?l] => replace (existsb f l) with false; [simpl; eauto|]
  end.
  symmetry. apply existsb_none. intros a Ha. apply mem_false. intros Hsel.
  unfold cascade_from_quiz_questions, delete_quiz_attempts in Ha. simpl in Ha.
  apply filter_In in Ha as [Ha Hq]. apply filter_In in Ha as [Ha _].
  apply negb_true_iff, mem_false in Hq. apply Hq.
  unfold options_of_questions in Hsel.
  apply in_map_iff in Hsel as [o [E Ho]]. apply filter_In in Ho as [Ho Hgone].
  apply mem_In in Hgone.
  unfold answers_select_own_options in Hown. rewrite forallb_forall in Hown.
  specialize (Hown a Ha). rewrite forallb_forall in Hown. specialize (Hown o Ho).
  rewrite E, String.eqb_refl in Hown. simpl in Hown. apply String.eqb_eq in Hown.
  now rewrite <- Hown.
Qed.

Lemma delete_topics_runs (where_ : Topic -> bool) (db : DB) :
  answers_select_own_options db = true ->
  exists db', delete_topics where_ db = Ok db'.
Proof.
  intros Hown. unfold delete_topics.
  match goal with
  | |- context [delete_quizzes ?w ?d] =>
      destruct (delete_quizzes_runs w d) as [db5 E]; [exact Hown|]
  end.
  rewrite E. simpl. eauto.
Qed.

Lemma delete_topics_Ok (where_ : Topic -> bool) (db db' : DB) :
  delete_topics where_ db = Ok db' ->
  topics db' = filter (fun t => negb (where_ t)) (topics db)
  /\ categories db'
     = filter (fun c => negb (prunes (filter where_ (topics db)) (topics db') c))
              (categories db).
Proof.
  unfold delete_topics, bind.
  destruct (delete_quizzes _ _) as [db5|e] eqn:E; [|discriminate].
  apply delete_quizzes_frame in E as [E1 E2]. simpl in E1, E2.
  intros H. inversion H. clear H.
  destruct (fold_prune_orphan_category (filter where_ (topics db)) db5) as [-> ->].
  rewrite E1, E2. auto.
Qed.

Lemma update_topics_Ok (where_ : Topic -> bool) (s : topic_set) (db db' : DB) :
  update_topics where_ s db = Ok db' ->
  topics db' = map (fun t => if where_ t then apply_topic_set s t else t) (topics db)
  /\ categories db'
     = filter (fun c => negb (prunes (filter (repoints s) (filter where_ (topics db)))
                                     (topics db') c))
              (categories db).
Proof.
  unfold update_topics, bind, guard. destruct (forallb _ _); [|discriminate].
  intros H. inversion H. clear H.
  match goal with
  | |- context [fold_left prune_orphan_category ?l ?d] =>
      destruct (fold_prune_orphan_category l d) as [-> ->]
  end.
  auto.
Qed.

(** What pruning for the rows [olds] does to the categories, in words. *)
Lemma pruned_categories (olds after : list Topic) (cats cats' : list Category) :
  cats' = filter (fun c => negb (prunes olds after c)) cats ->
  (forall c old,
      In c cats -> In old olds ->
      category_id old = Some (cat_id c) -> topic_user_id old = cat_user_id c ->
      (forall t, In t after -> category_id t <> Some (cat_id c)) ->
      ~ In c cats')
  /\ (forall c t,
         In c cats -> In t after -> category_id t = Some (cat_id c) -> In c cats')
  /\ (forall c t,
         In c cats -> ~ In c cats' -> In t after -> category_id t <> Some (cat_id c)).
Proof.
  intros ->.
  assert (Hkeep : forall c t, In c cats -> In t after ->
                              category_id t = Some (cat_id c) ->
                              In c (filter (fun c => negb (prunes olds after c)) cats)).
  { intros c t Hc Ht Href. apply filter_In. split; [assumption|].
    apply negb_true_iff. unfold prunes.
    replace (existsb (references (cat_id c)) after) with true;
      [apply andb_false_r|].
    symmetry. apply existsb_exists. exists t. split; [assumption|].
    now apply references_iff. }
  split; [|split].
  - intros c old Hc Hold Href Huser Hnone Hin.
    apply filter_In in Hin as [_ Hin]. apply negb_true_iff in Hin.
    unfold prunes in Hin. apply andb_false_iff in Hin as [Hin|Hin].
    + assert (existsb (fun old => references (cat_id c) old
                                  && String.eqb (topic_user_id old) (cat_user_id c))
                      olds = true); [|congruence].
      apply existsb_exists. exists old. split; [assumption|].
      apply andb_true_iff. split; [now apply references_iff | now apply String.eqb_eq].
    + apply negb_false_iff in Hin. apply existsb_exists in Hin as [t [Ht Hr]].
      apply references_iff in Hr. now apply (Hnone t).
  - exact Hkeep.
  - intros c t Hc Hnot Ht Href. apply Hnot. now apply (Hkeep c t).
Qed.




(* ------------------------------------------------------------------ *)
(** ** Files and retrieval together *)
(* ------------------------------------------------------------------ *)

Lemma documents_setChunksActiveForFile (id : uuid) (a : bool) (db : DB) :
  documents (fst (setChunksActiveForFile id a db)) = documents db.
Proof.
  unfold setChunksActiveForFile.
  destruct (documents_of_file db id); reflexivity.
Qed.

Lemma chunks_setChunksActiveForFile (id : uuid) (a : bool) (db : DB) :
  chunks (fst (setChunksActiveForFile id a db))
  = map (fun c => if mem (document_id c) (documents_of_file db id)
                  then set_is_active a c else c)
        (chunks db).
Proof.
  unfold setChunksActiveForFile.
  destruct (documents_of_file db id) as [|i ids] eqn:E; simpl.
  - symmetry. apply map_fixed. intros c _. reflexivity.
  - reflexivity.
Qed.

Lemma toggleInclude_fst (file : TopicFile) (next : bool) (now : timestamptz) (db : DB) :
  fst (toggleInclude false file next now db)
  = fst (setChunksActiveForFile (file_id file) next
           (update_topic_files (eq_id (file_id file)) (toggle_set next) now db)).
Proof.
  unfold toggleInclude.
  destruct (setChunksActiveForFile _ _ _) as [db2 log]. reflexivity.
Qed.

Lemma toggleInclude_documents (file : TopicFile) (next : bool) (now : timestamptz)
    (db : DB) :
  documents (fst (toggleInclude false file next now db)) = documents db.
Proof.
  rewrite toggleInclude_fst, documents_setChunksActiveForFile.
  apply update_topic_files_tables.
Qed.

(** The last write of [toggleInclude] decides: whatever the trigger did,
    the chunks of the documents of the file end with [is_active = next]. *)
Lemma toggleInclude_chunks (file : TopicFile) (next : bool) (now : timestamptz)
    (db : DB) (c : Chunk) :
  In c (chunks (fst (toggleInclude false file next now db))) ->
  In (document_id c) (documents_of_file db (file_id file)) ->
  is_active c = next.
Proof.
  rewrite toggleInclude_fst, chunks_setChunksActiveForFile.
  set (db1 := update_topic_files _ _ _ _).
  assert (Hd : documents_of_file db1 (file_id file) = documents_of_file db (file_id file)).
  { unfold documents_of_file, db1.
    now rewrite (proj1 (update_topic_files_tables db _ _ now)). }
  rewrite Hd. intros Hc Hin. apply in_map_iff in Hc as [c0 [<- _]].
  destruct (mem (document_id c0) (documents_of_file db (file_id file))) eqn:E.
  - reflexivity.
  - apply mem_false in E. simpl in Hin. contradiction.
Qed.

(** X1.  Once a file has been excluded with [toggleInclude(file, false)],
    no search that filters on active chunks ([p_only_active] true, the
    default, or NULL) returns a row of a document of that file: whatever
    the query, the limit, the topic filter and the scan. *)
Theorem excluded_file_is_not_retrieved
    (cosine_distance : vector -> vector -> float8)
    (db : DB) (file : TopicFile) (now : timestamptz)
    (q : option vector) (k : option Z) (T : option uuid) (a : option bool)
    (sources : list (Chunk * Document)) (rows : list match_row) :
  a <> Some false ->
  let db' := fst (toggleInclude false file false now db) in
  match_documents_returns cosine_distance q k T a db' sources rows ->
  documents_of_file db' (file_id file) = documents_of_file db (file_id file)
  /\ forall row, In row rows ->
       ~ In (row_document_id row) (documents_of_file db (file_id file)).
Proof.
  intros Ha db' [l [[[missed Hperm] _] [Hlim ->]]].
  split.
  { unfold documents_of_file, db'. now rewrite toggleInclude_documents. }
  intros row Hrow Hin.
  apply in_map_iff in Hrow as [[c d] [<- Hcd]].
  apply (limit_incl _ _ _ Hlim) in Hcd.
  assert (Hcd' : In (c, d) (l ++ missed)) by (apply in_or_app; now left).
  apply (Permutation_in _ Hperm) in Hcd'.
  apply filter_In in Hcd' as [Hjoin Hwhere]. simpl in Hwhere, Hin.
  apply in_chunks_join_documents in Hjoin as [Hc [_ Hj]].
  apply match_documents_where_true in Hwhere as [_ Hact].
  specialize (Hact Ha).
  rewrite Hj in Hin.
  rewrite (toggleInclude_chunks file false now db c Hc Hin) in Hact.
  discriminate.
Qed.

Lemma excluded_file_is_not_retrieved_witness :
  exists rows,
    match_documents example_distance (Some [0%Q; 0%Q]) (Some 10) None (Some true)
      (fst (toggleInclude false file_f1 false 7 db_search)) = Ok rows
    /\ documents_of_file db_search "f1" = ["d1"]
    /\ forall row, In row rows -> ~ In (row_document_id row) ["d1"].
Proof.
  assert (H : exists rows,
             match_documents example_distance (Some [0%Q; 0%Q]) (Some 10) None (Some true)
               (fst (toggleInclude false file_f1 false 7 db_search)) = Ok rows)
    by (vm_compute; eexists; reflexivity).
  destruct H as [rows H]. exists rows. split; [exact H|]. split; [reflexivity|].
  destruct (match_documents_sound _ _ _ _ _ _ _ H) as [sources [_ Hret]].
  apply (excluded_file_is_not_retrieved example_distance db_search file_f1 7
           (Some [0%Q; 0%Q]) (Some 10) None (Some true) sources rows).
  - discriminate.
  - exact Hret.
Defined.

(** *** [deleteFile] *)

Lemma deleteFile_before_update (file : TopicFile) (now : timestamptz) (db : DB) :
  exists db1,
    fst (deleteFile file now db)
    = update_topic_files (eq_id (file_id file)) (delete_set now) now db1
    /\ topic_files db1 = topic_files db
    /\ documents db1
       = filter (fun d => negb (mem (doc_id d) (documents_of_file db (file_id file))))
                (documents db)
    /\ chunks db1
       = filter (fun c => negb (mem (document_id c) (documents_of_file db (file_id file))))
                (chunks db).
Proof.
  unfold deleteFile.
  destruct (documents_of_file db (file_id file)) as [|i ids] eqn:E.
  - exists db. simpl. repeat split.
    + symmetry. apply filter_all. reflexivity.
    + symmetry. apply filter_all. reflexivity.
  - set (L := i :: ids).
    exists (delete_documents L (delete_chunks_in_documents L db)).
    split; [reflexivity|]. split; [reflexivity|]. split; [reflexivity|].
    unfold delete_documents, delete_chunks_in_documents.
    cbn [chunks documents with_chunks with_documents].
    apply filter_all. intros c Hc. apply filter_In in Hc as [_ Hc].
    apply negb_true_iff. apply mem_false. intros Hin.
    apply negb_true_iff in Hc. apply mem_false in Hc. apply Hc.
    apply in_map_iff in Hin as [d [Hd Hg]]. apply filter_In in Hg as [_ Hg].
    apply mem_In in Hg. now rewrite <- Hd.
Qed.

(** X2.  [deleteFile] leaves nothing of the file to retrieve: its
    documents and their chunks are gone, the documents and chunks of the
    other files are as they were; no row of topic_files goes (the table
    has the same ids, row by row), and the row of the file is marked
    deleted; no search returns a row of one of its former documents,
    whatever its parameters. *)
Theorem deleteFile_removes_content
    (cosine_distance : vector -> vector -> float8)
    (db : DB) (file : TopicFile) (now : timestamptz) :
  let ids := documents_of_file db (file_id file) in
  let db' := fst (deleteFile file now db) in
  documents db' = filter (fun d => negb (mem (doc_id d) ids)) (documents db)
  /\ chunks db' = filter (fun c => negb (mem (document_id c) ids)) (chunks db)
  /\ documents_of_file db' (file_id file) = []
  /\ map file_id (topic_files db') = map file_id (topic_files db)
  /\ (forall f, In f (topic_files db') -> file_id f = file_id file ->
        deleted_at f = Some now /\ vector_status f = deleted
        /\ include_in_rag f = false)
  /\ forall q k T a sources rows,
       match_documents_returns cosine_distance q k T a db' sources rows ->
       forall row, In row rows -> ~ In (row_document_id row) ids.
Proof.
  intros ids db'.
  destruct (deleteFile_before_update file now db) as [db1 [E [Hf [Hd Hc]]]].
  fold ids in Hd, Hc. fold db' in E.
  destruct (update_topic_files_tables db1 (eq_id (file_id file)) (delete_set now) now)
    as [Hd' Hf'].
  rewrite <- E in Hd', Hf'.
  assert (Hdocs : documents db' = filter (fun d => negb (mem (doc_id d) ids)) (documents db))
    by now rewrite Hd', Hd.
  assert (Hnone : forall d, In d (documents db') -> topic_file_id d <> file_id file).
  { intros d Hin Ht. rewrite Hdocs in Hin. apply filter_In in Hin as [Hin Hm].
    apply negb_true_iff in Hm. apply mem_false in Hm. apply Hm.
    apply in_documents_of_file. now exists d. }
  split; [exact Hdocs|]. split; [|split; [|split; [|split]]].
  - rewrite E, update_topic_files_chunks by reflexivity.
    rewrite <- Hc. apply map_fixed. intros c _.
    apply fold_sync_frame. intros g d Hg Hdin _ Ht.
    apply in_map_iff in Hg as [g0 [<- Hg0]]. apply filter_In in Hg0 as [_ Hg0].
    unfold eq_id in Hg0. apply String.eqb_eq in Hg0.
    rewrite file_id_apply_file_set, Hg0 in Ht.
    apply (Hnone d); [now rewrite Hd'|assumption].
  - unfold documents_of_file. rewrite filter_none; [reflexivity|].
    intros d Hin. apply String.eqb_neq. now apply Hnone.
  - rewrite Hf', Hf, map_map. apply map_ext. intros f.
    now destruct (eq_id (file_id file) f).
  - intros f Hin Hid. rewrite Hf' in Hin.
    apply in_map_iff in Hin as [f0 [<- _]].
    unfold eq_id in *. destruct (String.eqb (file_id f0) (file_id file)) eqn:Ee.
    + now simpl.
    + apply String.eqb_neq in Ee. contradiction.
  - intros q k T a sources rows [l [[[missed Hperm] _] [Hlim ->]]] row Hrow Hin.
    apply in_map_iff in Hrow as [[c d] [<- Hcd]].
    apply (limit_incl _ _ _ Hlim) in Hcd.
    assert (Hcd' : In (c, d) (l ++ missed)) by (apply in_or_app; now left).
    apply (Permutation_in _ Hperm) in Hcd'.
    apply filter_In in Hcd' as [Hjoin _]. simpl in Hin.
    apply in_chunks_join_documents in Hjoin as [_ [Hdin _]].
    rewrite Hdocs in Hdin. apply filter_In in Hdin as [_ Hm].
    apply negb_true_iff in Hm. apply mem_false in Hm. contradiction.
Qed.

(** *** [t_topic_files_bump] *)

Lemma topics_after_update_topic_files (s : file_set) (now : timestamptz) (db : DB)
    (new : TopicFile) :
  topics (after_update_topic_files s now db new)
  = map (stamped now [new]) (topics db).
Proof.
  unfold after_update_topic_files, bump_topic_last_used_from_topic, stamped.
  destruct (fires_t_file_sync_chunks s); simpl;
    apply map_ext; intros t; now rewrite orb_false_r.
Qed.

Lemma topics_fold_after_update (s : file_set) (now : timestamptz) (l : list TopicFile)
    (db : DB) :
  topics (fold_left (after_update_topic_files s now) l db)
  = map (stamped now l) (topics db).
Proof.
  revert db. induction l as [|g l IH]; intros db; simpl.
  - symmetry. apply map_fixed. reflexivity.
  - rewrite IH, topics_after_update_topic_files, map_map.
    apply map_ext. intros t. unfold stamped. simpl. rewrite orb_false_r.
    destruct (String.eqb (topic_id t) (file_topic_id g)); simpl; [|reflexivity].
    now destruct (existsb _ l).
Qed.

Lemma Forall2_map_r {A B} (P : A -> B -> Prop) (g : A -> B) (l : list A) :
  (forall x, In x l -> P x (g x)) -> Forall2 P l (map g l).
Proof.
  induction l as [|x l IH]; simpl; intros H; constructor.
  - apply H. now left.
  - apply IH. intros y Hy. apply H. now right.
Qed.

(** X3.  Writing rows of topic_files stamps their topics: after an
    [update topic_files] the topics of the updated rows have
    [last_used_at = now()], after an insert the topic of the new row has;
    the [last_used_at] of every other topic, and the id, owner, category,
    name and status of every topic, are as they were.  (The column
    [updated_at], which [t_topics_updated_at] rewrites on the stamped
    rows, is not among the columns of the model.) *)
Theorem file_write_stamps_topic
    (db : DB) (where_ : TopicFile -> bool) (s : file_set) (now : timestamptz) :
  Forall2 (fun t t' =>
             stamped_from
               (existsb (fun f => where_ f
                                  && String.eqb (topic_id t) (file_topic_id f))
                        (topic_files db))
               now t t')
          (topics db) (topics (update_topic_files where_ s now db))
  /\ forall row db',
       insert_topic_file row now db = Ok db' ->
       Forall2 (fun t t' =>
                  stamped_from (String.eqb (topic_id t) (file_topic_id row)) now t t')
               (topics db) (topics db').
Proof.
  split.
  - unfold update_topic_files. rewrite topics_fold_after_update. simpl.
    apply Forall2_map_r. intros t _. unfold stamped, stamped_from.
    replace (existsb (fun g => String.eqb (topic_id t) (file_topic_id g))
                     (map (apply_file_set s) (filter where_ (topic_files db))))
      with (existsb (fun f => where_ f && String.eqb (topic_id t) (file_topic_id f))
                    (topic_files db)).
    + destruct (existsb _ (topic_files db)); simpl; auto 10.
    + induction (topic_files db) as [|f l IH]; simpl; [reflexivity|].
      rewrite IH. now destruct (where_ f).
  - intros row db'. unfold insert_topic_file, bind, guard.
    pass_guards; intros H; inversion H. simpl.
    apply Forall2_map_r. intros t _. unfold stamped_from.
    destruct (String.eqb (topic_id t) (file_topic_id row)); simpl; auto 10.
Qed.

(* ------------------------------------------------------------------ *)
(** ** The quiz pages *)
(* ------------------------------------------------------------------ *)

(** The first row of a sorted table is the row that is strictly before all
    the others. *)
Lemma hd_sort_by_first {A} (leb : A -> A -> bool) (l : list A) (x : A) :
  (forall a b, leb a b = true \/ leb b a = true) ->
  (forall a b c, leb a b = true -> leb b c = true -> leb a c = true) ->
  In x l ->
  (forall y, In y l -> y = x \/ leb y x = false) ->
  hd_error (sort_by leb l) = Some x.
Proof.
  intros Htot Htrans Hx Hfirst.
  pose proof (sort_by_perm leb l) as Hperm.
  pose proof (sort_by_sorted leb Htot Htrans l) as Hsorted.
  destruct (sort_by leb l) as [|h t].
  - apply Permutation_nil in Hperm. subst l. contradiction.
  - simpl. f_equal.
    assert (Hh : In h l) by (apply (Permutation_in _ Hperm); now left).
    destruct (Hfirst h Hh) as [E|Hlt]; [assumption|].
    apply (Permutation_in _ (Permutation_sym Hperm)) in Hx.
    destruct Hx as [E|Hx]; [assumption|].
    apply StronglySorted_inv in Hsorted as [_ Hall].
    rewrite Forall_forall in Hall. rewrite (Hall x Hx) in Hlt. discriminate.
Qed.

Lemma submitted_desc_total (a b : QuizAttempt) :
  submitted_desc a b = true \/ submitted_desc b a = true.
Proof.
  unfold submitted_desc.
  destruct (submitted_at a), (submitted_at b); auto.
  destruct (Z.leb_spec t0 t); [now left|right]. apply Z.leb_le. lia.
Qed.

Lemma submitted_desc_trans (a b c : QuizAttempt) :
  submitted_desc a b = true -> submitted_desc b c = true -> submitted_desc a c = true.
Proof.
  unfold submitted_desc.
  destruct (submitted_at a), (submitted_at b), (submitted_at c);
    try discriminate; try reflexivity.
  rewrite !Z.leb_le. lia.
Qed.

Lemma find_app {A} (p : A -> bool) (l1 l2 : list A) :
  find p (l1 ++ l2) = match find p l1 with Some x => Some x | None => find p l2 end.
Proof.
  induction l1 as [|x l1 IH]; simpl; [reflexivity|].
  now destruct (p x).
Qed.

Lemma find_map {A B} (p : B -> bool) (f : A -> B) (l : list A) :
  find p (map f l) = option_map f (find (fun x => p (f x)) l).
Proof.
  induction l as [|x l IH]; simpl; [reflexivity|].
  now destruct (p (f x)).
Qed.

(** A key that the later pairs bind to one value is bound to that value. *)
Lemma Map_get_app (old new : list (string * string)) (key v : string) :
  In key (map fst new) ->
  (forall p, In p new -> fst p = key -> snd p = v) ->
  Map_get (old ++ new) key = Some v.
Proof.
  intros Hin Hv. unfold Map_get. rewrite rev_app_distr, find_app.
  destruct (find (fun p => String.eqb (fst p) key) (rev new)) as [p|] eqn:E.
  - apply find_some in E as [Hp E]. apply String.eqb_eq in E.
    simpl. f_equal. apply Hv; [|assumption]. now apply in_rev.
  - apply in_map_iff in Hin as [p [Hk Hp]].
    exfalso. apply in_rev in Hp.
      pose proof (find_none _ _ E p Hp) as Hn. simpl in Hn.
      rewrite Hk, String.eqb_refl in Hn. discriminate.
Qed.

Lemma insert_attempt_answer_Ok (row : answer_insert) (db db' : DB) :
  insert_attempt_answer row db = Ok db' ->
  exists opt,
    ans_selected_option_id row = Some opt
    /\ db' = with_attempt_answers db
               (attempt_answers db
                ++ [{| attempt_id := ans_attempt_id row;
                       aa_question_id := ans_question_id row;
                       selected_option_id := opt;
                       aa_is_correct := ans_is_correct row |}]).
Proof.
  unfold insert_attempt_answer, bind, guard.
  destruct (ans_selected_option_id row) as [opt|]; [|discriminate].
  pass_guards; intros H; inversion H. now exists opt.
Qed.

(** What a successful multi-row insert of answers leaves: the new rows
    after the old ones, every other quiz table as it was. *)
Lemma for_each_insert_attempt_answer_Ok (rows : list answer_insert) (db db' : DB) :
  for_each insert_attempt_answer rows db = Ok db' ->
  quizzes db' = quizzes db
  /\ quiz_questions db' = quiz_questions db
  /\ quiz_options db' = quiz_options db
  /\ quiz_attempts db' = quiz_attempts db
  /\ exists recs,
       attempt_answers db' = (attempt_answers db ++ recs)%list
       /\ Forall2 (fun row rec =>
                     attempt_id rec = ans_attempt_id row
                     /\ aa_question_id rec = ans_question_id row
                     /\ ans_selected_option_id row = Some (selected_option_id rec))
                  rows recs.
Proof.
  revert db. induction rows as [|row rows IH]; intros db H.
  - inversion H. subst db'. repeat split; try reflexivity.
    exists []. split; [now rewrite app_nil_r | constructor].
  - rewrite for_each_cons in H.
    destruct (insert_attempt_answer row db) as [db1|e] eqn:E1; [|discriminate].
    simpl in H. apply insert_attempt_answer_Ok in E1 as [opt [Hopt ->]].
    apply IH in H as [Hz [Hq [Ho [Ha [recs [Hrecs Hall]]]]]]. simpl in *.
    repeat split; try assumption.
    eexists (_ :: recs). split.
    + rewrite Hrecs, <- app_assoc. reflexivity.
    + constructor; [|assumption]. simpl. auto.
Qed.

(** The tables a successful [submit] leaves. *)
Lemma submit_tables quizId user attemptId questions answers now db db' :
  submit quizId (Some user) attemptId questions answers now db = (db', results_page) ->
  (quizzes db' = quizzes db /\ In quizId (map quiz_id (quizzes db)))
  /\ quiz_questions db' = quiz_questions db
  /\ quiz_options db' = quiz_options db
  /\ quiz_attempts db'
     = (quiz_attempts db
        ++ [{| qa_id := attemptId; qa_quiz_id := quizId; qa_user_id := user;
               submitted_at := Some now;
               score_percent :=
                 score_of (correct_of (map (detail_of answers) questions))
                          (List.length questions);
               duration_sec := None |}])%list
  /\ exists recs,
       attempt_answers db' = (attempt_answers db ++ recs)%list
       /\ Forall2 (fun qq rec =>
                     attempt_id rec = attemptId
                     /\ aa_question_id rec = question_id qq
                     /\ answers (question_id qq) = Some (selected_option_id rec))
                  questions recs.
Proof.
  unfold submit.
  destruct (insert_quiz_attempt _ db) as [db1|e] eqn:E1; [|discriminate].
  assert (H1 : db1 = with_quiz_attempts db
                       (quiz_attempts db
                        ++ [{| qa_id := attemptId; qa_quiz_id := quizId;
                               qa_user_id := user; submitted_at := None;
                               score_percent := None; duration_sec := None |}])
               /\ ~ In attemptId (map qa_id (quiz_attempts db))
               /\ In quizId (map quiz_id (quizzes db))).
  { revert E1. unfold insert_quiz_attempt, bind, guard. simpl.
    destruct (mem attemptId (map qa_id (quiz_attempts db))) eqn:Em; simpl;
      [discriminate|].
    destruct (mem quizId (map quiz_id (quizzes db))) eqn:Ez; simpl; [|discriminate].
    intros H; inversion H. split; [reflexivity|].
    split; [now apply mem_false | now apply mem_In]. }
  destruct H1 as [-> [Hfresh Hquiz]]. clear E1.
  set (details := map (detail_of answers) questions).
  set (db1 := with_quiz_attempts db _).
  assert (H2 : forall db2,
             match map (answerRow attemptId) details with
             | [] => Ok db1
             | _ :: _ => for_each insert_attempt_answer
                           (map (answerRow attemptId) details) db1
             end = Ok db2 ->
             for_each insert_attempt_answer (map (answerRow attemptId) details) db1
             = Ok db2).
  { intros db2. destruct (map (answerRow attemptId) details); auto. }
  destruct (match map (answerRow attemptId) details with
            | [] => Ok db1
            | _ :: _ => _
            end) as [db2|e] eqn:E2; [|discriminate].
  specialize (H2 db2 eq_refl). clear E2.
  apply for_each_insert_attempt_answer_Ok
    in H2 as [Hz [Hq [Ho [Ha [recs [Hrecs Hall]]]]]].
  destruct (update_quiz_attempt attemptId now _ None db2) as [db3|e] eqn:E3;
    [|discriminate].
  intros H; inversion H; subst db3. clear H.
  revert E3. unfold update_quiz_attempt, bind, guard.
  destruct (negb _ || _); simpl; [|discriminate].
  intros H; inversion H. clear H. simpl.
  split; [split; [exact Hz | exact Hquiz]|].
  split; [exact Hq|]. split; [exact Ho|]. split.
  - rewrite Ha. unfold db1. simpl. rewrite map_app. simpl.
    rewrite String.eqb_refl. f_equal.
    apply map_fixed. intros a Hin.
    destruct (String.eqb (qa_id a) attemptId) eqn:Ee; [|reflexivity].
    apply String.eqb_eq in Ee. exfalso. apply Hfresh. rewrite <- Ee.
    now apply in_map.
  - exists recs. split; [exact Hrecs|].
    clear - Hall. unfold details in Hall. rewrite map_map in Hall.
    revert recs Hall. induction questions as [|qq qs IH]; intros recs Hall;
      inversion Hall; subst; constructor; auto.
Qed.

Lemma filter_app_all {A} (p : A -> bool) (l1 l2 : list A) :
  (forall x, In x l2 -> p x = true) ->
  filter p (l1 ++ l2) = (filter p l1 ++ l2)%list.
Proof.
  intros H. rewrite filter_app. f_equal. now apply filter_all.
Qed.

(** The details the results page builds from the tables are the ones the
    runner built from its questions and answers. *)
Lemma result_detail_detail_of (db db' : DB) (answers : Answers)
    (selectedByQ : list (string * string)) (r : QuizQuestion) :
  quiz_options db' = quiz_options db ->
  Map_get selectedByQ (qq_id r) = answers (qq_id r) ->
  result_detail db' selectedByQ r = detail_of answers (question_of db r).
Proof.
  intros Ho Hget. unfold result_detail, detail_of, question_of, embedded_quiz_options.
  simpl. rewrite Hget, Ho, find_map. simpl.
  now destruct (find _ _).
Qed.

(** X4.  The results page reads back what the runner submitted: when
    [submit] ends on the results page, with the questions as the tables
    give them and no attempt of the same user and quiz submitted at [now]
    or later, the page loads the new attempt, rebuilds for every
    question the same correct option and the same selected option as the
    runner had, and shows the stored score with the number of questions
    as total. *)
Theorem results_page_reads_back_the_submission
    (quizId user attemptId : uuid) (answers : Answers) (now : timestamptz)
    (db db' : DB) :
  let questions := map (question_of db) (select_quiz_questions db quizId) in
  let details := map (detail_of answers) questions in
  submit quizId (Some user) attemptId questions answers now db = (db', results_page) ->
  (forall a t, In a (quiz_attempts db) -> qa_quiz_id a = quizId -> qa_user_id a = user ->
               submitted_at a = Some t -> t < now) ->
  load_results (Some user) quizId db'
  = Some {| stored_score :=
              shown_score (score_of (correct_of details) (List.length questions));
            stored_total := List.length questions;
            completedAt := Some now;
            detail := details |}.
Proof.
  intros questions details Hsubmit Hearlier.
  apply submit_tables in Hsubmit as [_ [Hq [Ho [Ha [recs [Hrecs Hall]]]]]].
  fold details in Ha.
  set (new := {| qa_id := attemptId; qa_quiz_id := quizId; qa_user_id := user;
                 submitted_at := Some now;
                 score_percent := score_of (correct_of details) (List.length questions);
                 duration_sec := None |}) in Ha.
  assert (Hlatest : latest_submitted_attempt db' quizId user = Some new).
  { unfold latest_submitted_attempt.
    apply hd_sort_by_first.
    - apply submitted_desc_total.
    - apply submitted_desc_trans.
    - apply filter_In. split.
      + rewrite Ha. apply in_or_app. right. now left.
      + simpl. now rewrite !String.eqb_refl.
    - intros y Hy. apply filter_In in Hy as [Hy Hp].
      rewrite Ha in Hy. apply in_app_or in Hy as [Hy|[<-|[]]]; [|now left].
      right. apply andb_true_iff in Hp as [Hp Hs].
      apply andb_true_iff in Hp as [Hz Hu].
      apply String.eqb_eq in Hz, Hu.
      unfold submitted_desc. simpl.
      destruct (submitted_at y) as [t|] eqn:Et; [|discriminate].
      apply Z.leb_gt. now apply (Hearlier y t). }
  unfold load_results. rewrite Hlatest.
  assert (Hsel : select_quiz_questions db' quizId = select_quiz_questions db quizId)
    by (unfold select_quiz_questions; now rewrite Hq).
  rewrite Hsel. cbv zeta.
  assert (Hids : forall rec, In rec recs -> attempt_id rec = attemptId).
  { clear - Hall. induction Hall as [|qq rec qs rs [H _] _ IH]; intros r Hr;
      [contradiction|]. destruct Hr as [<-|Hr]; auto. }
  assert (Hkeys : forall qq, In qq questions ->
            In (question_id qq) (map fst (map (fun r => (aa_question_id r,
                                                         selected_option_id r)) recs))).
  { clear - Hall. induction Hall as [|qq rec qs rs [_ [H _]] _ IH]; intros q Hq;
      [contradiction|]. destruct Hq as [<-|Hq].
    - left. simpl. assumption.
    - right. now apply IH. }
  assert (Hvals : forall rec, In rec recs ->
            answers (aa_question_id rec) = Some (selected_option_id rec)).
  { clear - Hall. induction Hall as [|qq rec qs rs [_ [H1 H2]] _ IH]; intros r Hr;
      [contradiction|]. destruct Hr as [<-|Hr].
    - now rewrite H1.
    - now apply IH. }
  assert (Hdetails :
            map (result_detail db'
                   (map (fun r => (aa_question_id r, selected_option_id r))
                        (filter (fun a => String.eqb (attempt_id a) (qa_id new))
                                (attempt_answers db'))))
                (select_quiz_questions db quizId)
            = details).
  { unfold details, questions. rewrite map_map. apply map_ext_in. intros r Hr.
    apply result_detail_detail_of; [exact Ho|].
    rewrite Hrecs, filter_app_all, map_app.
    2:{ intros rec Hrec. simpl. rewrite (Hids rec Hrec). apply String.eqb_refl. }
    assert (Hin : In (question_of db r) questions) by (unfold questions; now apply in_map).
    specialize (Hkeys _ Hin). simpl in Hkeys.
    destruct (answers (qq_id r)) as [y|] eqn:Ey.
    - apply Map_get_app; [exact Hkeys|].
      intros p Hp Hk. apply in_map_iff in Hp as [rec [<- Hrec]]. simpl in *.
      specialize (Hvals rec Hrec). rewrite Hk, Ey in Hvals. now inversion Hvals.
    - exfalso. rewrite map_map in Hkeys. simpl in Hkeys.
      apply in_map_iff in Hkeys as [rec [Hk Hrec]].
      specialize (Hvals rec Hrec). rewrite Hk, Ey in Hvals. discriminate. }
  rewrite Hdetails. simpl. do 2 f_equal.
  unfold details. apply length_map.
Qed.

Lemma results_page_reads_back_the_submission_witness :
  let db := gen_db "z" 10 in
  let questions := map (question_of db) (select_quiz_questions db "z") in
  exists db',
    submit "z" (Some "u1") "att" questions (gen_answers "z" 6) 99 db
    = (db', results_page)
    /\ questions = gen_questions "z" 10
    /\ option_map stored_score (load_results (Some "u1") "z" db') = Some 60
    /\ option_map stored_total (load_results (Some "u1") "z" db') = Some 10%nat
    /\ option_map (fun s => correct_of (detail s)) (load_results (Some "u1") "z" db')
       = Some 6%nat.
Proof.
  intros db questions.
  assert (H : exists db',
             submit "z" (Some "u1") "att" questions (gen_answers "z" 6) 99 db
             = (db', results_page))
    by (vm_compute; eexists; reflexivity).
  destruct H as [db' H]. exists db'. split; [exact H|].
  split; [vm_compute; reflexivity|].
  pose proof (results_page_reads_back_the_submission "z" "u1" "att"
                (gen_answers "z" 6) 99 db db' H) as R.
  cbv zeta in R. specialize (R (fun a t (F : False) => match F with end)).
  split; [|split].
  - refine (eq_trans (f_equal (option_map stored_score) R) _).
    vm_compute. reflexivity.
  - refine (eq_trans (f_equal (option_map stored_total) R) _).
    vm_compute. reflexivity.
  - refine (eq_trans (f_equal (option_map (fun s => correct_of (detail s))) R) _).
    vm_compute. reflexivity.
Defined.

(** *** What the runner loads *)

Lemma filter_map_swap {A B} (p : B -> bool) (f : A -> B) (l : list A) :
  filter p (map f l) = map f (filter (fun x => p (f x)) l).
Proof.
  induction l as [|x l IH]; simpl; [reflexivity|].
  destruct (p (f x)); simpl; now rewrite IH.
Qed.

Lemma NoDup_key_once {A} (f : A -> uuid) (k : uuid) (l : list A) :
  NoDup (map f l) ->
  (List.length (filter (fun x => String.eqb (f x) k) l) <= 1)%nat.
Proof.
  induction l as [|a l IH]; simpl; intros H; [lia|].
  inversion H as [|? ? Hnotin Hnodup]; subst.
  destruct (String.eqb (f a) k) eqn:E; [|now apply IH].
  apply String.eqb_eq in E. simpl.
  rewrite filter_none; [simpl; lia|].
  intros x Hx. apply String.eqb_neq. intros Hk. apply Hnotin.
  rewrite E, <- Hk. now apply in_map.
Qed.

Lemma one_correct_at_most_question_of (db : DB) (r : QuizQuestion) :
  uq_correct_option_per_question (quiz_options db) ->
  one_correct_at_most (question_of db r) = true.
Proof.
  intros Huq. unfold one_correct_at_most, question_of, embedded_quiz_options. simpl.
  rewrite filter_map_swap, length_map. simpl.
  rewrite filter_filter.
  replace (filter (fun x => String.eqb (qo_question_id x) (qq_id r) && is_correct x)
                  (quiz_options db))
    with (filter (fun x => String.eqb (qo_question_id x) (qq_id r))
                 (filter is_correct (quiz_options db))).
  - apply Nat.leb_le. now apply NoDup_key_once.
  - rewrite filter_filter. apply filter_ext. intros o. apply andb_comm.
Qed.

(** X5.  What the runner has when [load] succeeds: the quiz is ready, there
    is at least one question, every question of the quiz is there once,
    with the options that reference it as choices; and, the partial unique
    index being in force, no question has two choices flagged correct. *)
Theorem load_quiz_questions
    (authed : option uuid) (quizId : uuid) (db : DB) (qs : list Question) :
  uq_correct_option_per_question (quiz_options db) ->
  load_quiz authed quizId db = inr qs ->
  qs <> []
  /\ (exists q, In q (quizzes db) /\ quiz_id q = quizId /\ quiz_status q = ready)
  /\ Permutation (map question_id qs) (quiz_question_ids db quizId)
  /\ (forall qq c, In qq qs ->
        (In c (choices qq) <->
         exists o, In o (quiz_options db) /\ qo_question_id o = question_id qq
                   /\ c = choice_of o))
  /\ forallb one_correct_at_most qs = true.
Proof.
  intros Huq. unfold load_quiz.
  destruct authed as [user|]; [|discriminate].
  destruct (filter (fun q => String.eqb (quiz_id q) quizId) (quizzes db))
    as [|quizRow [|q2 l]] eqn:Eq; try discriminate.
  destruct (quiz_status quizRow) eqn:Es; try discriminate.
  destruct (map (question_of db) (select_quiz_questions db quizId)) as [|q0 qs0] eqn:Em;
    [discriminate|].
  intros H. inversion H. subst qs. clear H. rewrite <- Em.
  split; [rewrite Em; discriminate|]. split; [|split; [|split]].
  - exists quizRow.
    assert (Hin : In quizRow (filter (fun q => String.eqb (quiz_id q) quizId)
                                     (quizzes db))) by (rewrite Eq; now left).
    apply filter_In in Hin as [Hin Hid]. apply String.eqb_eq in Hid. auto.
  - rewrite map_map. simpl. unfold select_quiz_questions, quiz_question_ids.
    apply Permutation_map. apply sort_by_perm.
  - intros qq c Hqq. apply in_map_iff in Hqq as [r [<- _]].
    unfold question_of, embedded_quiz_options. simpl. rewrite in_map_iff. split.
    + intros [o [<- Ho]]. apply filter_In in Ho as [Ho Hk]. apply String.eqb_eq in Hk.
      now exists o.
    + intros [o [Ho [Hk ->]]]. exists o. split; [reflexivity|].
      apply filter_In. split; [assumption|]. now apply String.eqb_eq.
  - apply forallb_forall. intros qq Hqq. apply in_map_iff in Hqq as [r [<- _]].
    now apply one_correct_at_most_question_of.
Qed.

Lemma load_quiz_questions_witness :
  exists qs,
    load_quiz (Some "u1") "z1" db_quiz = inr qs
    /\ map question_id qs = ["q1"; "q2"]
    /\ forallb one_correct_at_most qs = true.
Proof.
  eexists. split; [reflexivity|]. split; [reflexivity|].
  apply (load_quiz_questions (Some "u1") "z1" db_quiz).
  - unfold uq_correct_option_per_question. simpl. nodup_strings.
  - reflexivity.
Defined.

(* ------------------------------------------------------------------ *)
(** ** The view [quiz_latest_stats] *)
(* ------------------------------------------------------------------ *)

Lemma option_uuid_eqb_eq (a b : option uuid) : option_uuid_eqb a b = true <-> a = b.
Proof.
  destruct a as [x|], b as [y|]; simpl; split; try discriminate; try reflexivity.
  - intros H. apply String.eqb_eq in H. now subst.
  - intros H. inversion H. apply String.eqb_refl.
Qed.

Section DistinctOn.

Context {A : Type} (key : A -> uuid) (R : A -> A -> Prop).

(** The order sorts by the key first. *)
Hypothesis R_key : forall x y, R x y -> String.leb (key x) (key y) = true.

Let below (prev : option uuid) (l : list A) : Prop :=
  forall k y, prev = Some k -> In y l -> String.leb k (key y) = true.

(** A kept row is a row of the table, its key is not the one before, and
    it comes before every row of its key. *)
Lemma distinct_on_first (l : list A) :
  StronglySorted R l ->
  forall prev, below prev l ->
  forall x, In x (distinct_on key prev l) ->
    In x l /\ prev <> Some (key x)
    /\ forall y, In y l -> key y = key x -> y = x \/ R x y.
Proof.
  induction 1 as [|a l Hsorted IH Hall]; intros prev Hbelow x Hx; [contradiction|].
  rewrite Forall_forall in Hall. simpl in Hx.
  destruct (option_uuid_eqb prev (Some (key a))) eqn:E.
  - apply option_uuid_eqb_eq in E.
    destruct (IH prev) with (x := x) as [Hin [Hprev Hfirst]]; [|assumption|].
    { intros k y Hk Hy. apply (Hbelow k y Hk). now right. }
    split; [now right|]. split; [assumption|].
    intros y [<-|Hy] Hk; [|now apply Hfirst].
    exfalso. apply Hprev. now rewrite E, Hk.
  - assert (Hne : prev <> Some (key a)).
    { intros H. apply option_uuid_eqb_eq in H. rewrite H in E. discriminate. }
    destruct Hx as [<-|Hx].
    + split; [now left|]. split; [assumption|].
      intros y [<-|Hy] _; [now left|right]. now apply Hall.
    + destruct (IH (Some (key a))) with (x := x) as [Hin [Hprev Hfirst]]; [|assumption|].
      { intros k y Hk Hy. inversion Hk; subst k. apply R_key. now apply Hall. }
      split; [now right|]. split.
      * intros Hp. apply Hne. rewrite Hp. f_equal.
        apply String.leb_antisym.
        -- apply (Hbelow (key x) a Hp). now left.
        -- apply R_key. now apply Hall.
      * intros y [<-|Hy] Hk; [|now apply Hfirst].
        exfalso. apply Hprev. now rewrite Hk.
Qed.

(** Every key of the table is the key of a kept row, or the key before. *)
Lemma distinct_on_covers (l : list A) (prev : option uuid) (y : A) :
  In y l ->
  prev = Some (key y) \/ exists x, In x (distinct_on key prev l) /\ key x = key y.
Proof.
  revert prev. induction l as [|a l IH]; intros prev Hy; [contradiction|].
  simpl. destruct (option_uuid_eqb prev (Some (key a))) eqn:E.
  - apply option_uuid_eqb_eq in E. destruct Hy as [<-|Hy]; [now left|].
    now apply IH.
  - destruct Hy as [<-|Hy].
    + right. exists a. split; [now left | reflexivity].
    + destruct (IH (Some (key a)) Hy) as [Hk|[x [Hx Hk]]].
      * right. exists a. split; [now left | now inversion Hk].
      * right. exists x. split; [now right | assumption].
Qed.

(** No two kept rows share a key. *)
Lemma distinct_on_NoDup (l : list A) :
  StronglySorted R l ->
  forall prev, below prev l -> NoDup (map key (distinct_on key prev l)).
Proof.
  induction 1 as [|a l Hsorted IH Hall]; intros prev Hbelow; [constructor|].
  rewrite Forall_forall in Hall. simpl.
  destruct (option_uuid_eqb prev (Some (key a))) eqn:E.
  - apply IH. intros k y Hk Hy. apply (Hbelow k y Hk). now right.
  - assert (Hb : below (Some (key a)) l).
    { intros k y Hk Hy. inversion Hk; subst k. apply R_key. now apply Hall. }
    simpl. constructor; [|now apply IH].
    intros Hin. apply in_map_iff in Hin as [x [Hk Hx]].
    destruct (distinct_on_first l Hsorted (Some (key a)) Hb x Hx) as [_ [Hp _]].
    apply Hp. now rewrite Hk.
Qed.

End DistinctOn.

Lemma in_quizzes_left_join_attempts (db : DB) (q : Quiz) (oa : option QuizAttempt) :
  In (q, oa) (quizzes_left_join_attempts db) <->
  In q (quizzes db)
  /\ match oa with
     | Some a => In a (quiz_attempts db) /\ qa_quiz_id a = quiz_id q
                 /\ submitted_at a <> None
     | None => forall a, In a (quiz_attempts db) -> qa_quiz_id a = quiz_id q ->
                         submitted_at a = None
     end.
Proof.
  unfold quizzes_left_join_attempts. rewrite in_flat_map.
  set (p := fun q a => String.eqb (qa_quiz_id a) (quiz_id q) && is_some (submitted_at a)).
  assert (Hp : forall q a, p q a = true <->
                           qa_quiz_id a = quiz_id q /\ submitted_at a <> None).
  { intros q0 a. unfold p. rewrite andb_true_iff, String.eqb_eq.
    destruct (submitted_at a); simpl; intuition congruence. }
  split.
  - intros [q0 [Hq0 Hin]]. fold (p q0) in Hin.
    destruct (filter (p q0) (quiz_attempts db)) as [|a0 l] eqn:E.
    + destruct Hin as [Hin|[]]. inversion Hin; subst. split; [assumption|].
      intros a Ha Hz. destruct (submitted_at a) eqn:Es; [|reflexivity].
      assert (Hf : In a (filter (p q) (quiz_attempts db))).
      { apply filter_In. split; [assumption|]. apply Hp. split; congruence. }
      rewrite E in Hf. contradiction.
    + apply in_map_iff in Hin as [a [Ha Hin]]. inversion Ha; subst.
      split; [assumption|]. rewrite <- E in Hin. apply filter_In in Hin as [Hin Hpa].
      apply Hp in Hpa. tauto.
  - intros [Hq H]. exists q. split; [assumption|]. fold (p q).
    destruct oa as [a|].
    + destruct H as [Ha [Hz Hs]].
      assert (Hf : In a (filter (p q) (quiz_attempts db))).
      { apply filter_In. split; [assumption|]. now apply Hp. }
      destruct (filter (p q) (quiz_attempts db)) as [|a0 l]; [contradiction|].
      apply in_map_iff. now exists a.
    + rewrite filter_none; [now left|].
      intros a Ha. destruct (p q a) eqn:E; [|reflexivity].
      apply Hp in E as [Hz Hs]. exfalso. apply Hs. now apply H.
Qed.

Lemma quiz_latest_stats_kept (db : DB) (ordered : list (Quiz * option QuizAttempt))
    (x : Quiz * option QuizAttempt) :
  Permutation ordered (quizzes_left_join_attempts db) ->
  StronglySorted by_quiz_then_latest ordered ->
  In x (distinct_on (fun x => quiz_id (fst x)) None ordered) ->
  In x (quizzes_left_join_attempts db)
  /\ forall y, In y (quizzes_left_join_attempts db) ->
               quiz_id (fst y) = quiz_id (fst x) ->
               desc_nulls_first (joined_submitted_at x) (joined_submitted_at y).
Proof.
  intros Hperm Hsorted Hx.
  apply (distinct_on_first (fun x => quiz_id (fst x)) by_quiz_then_latest) in Hx
    as [Hx [_ Hfirst]]; [| now intros a b [H _] | assumption | discriminate].
  split; [now apply (Permutation_in _ Hperm)|].
  intros y Hy Hk. apply (Permutation_in _ (Permutation_sym Hperm)) in Hy.
  destruct (Hfirst y Hy Hk) as [->|[_ Hd]].
  - unfold desc_nulls_first. destruct (joined_submitted_at x); [lia|exact I].
  - apply Hd. now symmetry.
Qed.

(** The row the view shows for a quiz. *)
Lemma quiz_latest_stats_row (db : DB) (rows : list LatestStat) (row : LatestStat) :
  quiz_latest_stats_returns db rows ->
  In row rows ->
  match last_taken_at row with
  | Some t =>
      (exists a, In a (quiz_attempts db) /\ qa_quiz_id a = stat_quiz_id row
                 /\ submitted_at a = Some t
                 /\ score_percent a = last_score_percent row)
      /\ forall a t', In a (quiz_attempts db) -> qa_quiz_id a = stat_quiz_id row ->
                      submitted_at a = Some t' -> t' <= t
  | None =>
      last_score_percent row = None
      /\ forall a, In a (quiz_attempts db) -> qa_quiz_id a = stat_quiz_id row ->
                   submitted_at a = None
  end.
Proof.
  intros [ordered [Hperm [Hsorted ->]]] Hrow.
  apply in_map_iff in Hrow as [[q oa] [<- Hx]].
  apply (quiz_latest_stats_kept db) in Hx as [Hj Hfirst]; try assumption.
  apply in_quizzes_left_join_attempts in Hj as [Hq Hoa].
  unfold select_stat, joined_submitted_at, joined_score_percent. simpl.
  destruct oa as [a|].
  - destruct Hoa as [Ha [Hz Hs]].
    destruct (submitted_at a) as [t|] eqn:Et; [|congruence].
    split; [now exists a|].
    intros a' t' Ha' Hz' Ht'.
    assert (Hy : In (q, Some a') (quizzes_left_join_attempts db)).
    { apply in_quizzes_left_join_attempts. split; [assumption|].
      split; [assumption|]. split; [assumption|]. congruence. }
    specialize (Hfirst _ Hy eq_refl).
    unfold joined_submitted_at in Hfirst. simpl in Hfirst.
    now rewrite Et, Ht' in Hfirst.
  - split; [reflexivity | exact Hoa].
Qed.

(** X6.  The view [quiz_latest_stats] has exactly one row for every quiz,
    attempted or not.  The row of an attempted quiz carries the
    [submitted_at] and the score of a submitted attempt of that quiz, and no
    attempt of the quiz was submitted later; attempts that were started but
    not submitted do not count, and a quiz without a submitted attempt has
    NULL in both columns. *)
Theorem quiz_latest_stats_latest_attempt (db : DB) (rows : list LatestStat) :
  quiz_latest_stats_returns db rows ->
  NoDup (map stat_quiz_id rows)
  /\ (forall id, In id (map stat_quiz_id rows) <-> In id (map quiz_id (quizzes db)))
  /\ forall row, In row rows ->
       match last_taken_at row with
       | Some t =>
           (exists a, In a (quiz_attempts db) /\ qa_quiz_id a = stat_quiz_id row
                      /\ submitted_at a = Some t
                      /\ score_percent a = last_score_percent row)
           /\ forall a t', In a (quiz_attempts db) -> qa_quiz_id a = stat_quiz_id row ->
                           submitted_at a = Some t' -> t' <= t
       | None =>
           last_score_percent row = None
           /\ forall a, In a (quiz_attempts db) -> qa_quiz_id a = stat_quiz_id row ->
                        submitted_at a = None
       end.
Proof.
  intros Hret. split; [|split]; [| |intros row; now apply quiz_latest_stats_row].
  - destruct Hret as [ordered [Hperm [Hsorted ->]]].
    rewrite map_map. simpl.
    apply (distinct_on_NoDup (fun x => quiz_id (fst x)) by_quiz_then_latest);
      [now intros a b [H _] | assumption | discriminate].
  - destruct Hret as [ordered [Hperm [Hsorted ->]]].
    intros id. rewrite map_map. simpl. split.
    + intros Hin. apply in_map_iff in Hin as [[q oa] [<- Hx]].
      apply (quiz_latest_stats_kept db) in Hx as [Hx _]; try assumption.
      apply in_quizzes_left_join_attempts in Hx as [Hq _]. now apply in_map.
    + intros Hin. apply in_map_iff in Hin as [q [<- Hq]].
      assert (Hex : exists oa, In (q, oa) (quizzes_left_join_attempts db)).
      { destruct (filter (fun a => String.eqb (qa_quiz_id a) (quiz_id q)
                                   && is_some (submitted_at a))
                         (quiz_attempts db)) as [|a l] eqn:E.
        - exists None. apply in_quizzes_left_join_attempts. split; [assumption|].
          intros a Ha Hz. destruct (submitted_at a) eqn:Es; [|reflexivity].
          assert (Hf : In a (filter (fun a => String.eqb (qa_quiz_id a) (quiz_id q)
                                              && is_some (submitted_at a))
                                    (quiz_attempts db))).
          { apply filter_In. split; [assumption|].
            now rewrite Hz, String.eqb_refl, Es. }
          rewrite E in Hf. contradiction.
        - exists (Some a).
          assert (Hf : In a (filter (fun a => String.eqb (qa_quiz_id a) (quiz_id q)
                                              && is_some (submitted_at a))
                                    (quiz_attempts db)))
            by (rewrite E; now left).
          apply filter_In in Hf as [Ha Hp]. apply andb_true_iff in Hp as [Hz Hs].
          apply String.eqb_eq in Hz.
          apply in_quizzes_left_join_attempts. split; [assumption|].
          split; [assumption|]. split; [assumption|].
          destruct (submitted_at a); discriminate. }
      destruct Hex as [oa Hy].
      apply (Permutation_in _ (Permutation_sym Hperm)) in Hy.
      destruct (distinct_on_covers (fun x => quiz_id (fst x)) ordered None (q, oa) Hy)
        as [H|[x [Hx Hk]]]; [discriminate|].
      apply in_map_iff. exists x. split; [exact Hk | exact Hx].
Qed.

Lemma quiz_latest_stats_latest_attempt_witness :
  quiz_latest_stats_returns db_stats stats_of_db_stats
  /\ NoDup (map stat_quiz_id stats_of_db_stats)
  /\ map stat_quiz_id stats_of_db_stats = map quiz_id (quizzes db_stats).
Proof.
  assert (H : quiz_latest_stats_returns db_stats stats_of_db_stats).
  { exists (match quizzes_left_join_attempts db_stats with
             | a :: b :: r => b :: a :: r
             | j => j
             end).
    split; [|split].
    - vm_compute. apply perm_swap.
    - remember by_quiz_then_latest as R eqn:ER. vm_compute. subst R.
      repeat first [apply SSorted_nil | apply SSorted_cons
                    | apply Forall_nil | apply Forall_cons];
        (split; [reflexivity|]); simpl; intros E; try discriminate E;
        unfold desc_nulls_first; simpl; lia.
    - reflexivity. }
  split; [exact H|]. split; [|reflexivity].
  now apply (quiz_latest_stats_latest_attempt db_stats stats_of_db_stats).
Defined.

(** X7.  After a [submit] that ends on the results page, at an instant
    later than every attempt of the quiz was submitted (by whichever
    user), the view shows for the quiz the instant of the submission and
    the stored score. *)
Theorem quiz_latest_stats_after_submit
    (quizId user attemptId : uuid) (questions : list Question) (answers : Answers)
    (now : timestamptz) (db db' : DB) (rows : list LatestStat) :
  submit quizId (Some user) attemptId questions answers now db = (db', results_page) ->
  (forall a t, In a (quiz_attempts db) -> qa_quiz_id a = quizId ->
               submitted_at a = Some t -> t < now) ->
  quiz_latest_stats_returns db' rows ->
  (exists row, In row rows /\ stat_quiz_id row = quizId)
  /\ forall row, In row rows -> stat_quiz_id row = quizId ->
       last_taken_at row = Some now
       /\ last_score_percent row
          = score_of (correct_of (map (detail_of answers) questions))
                     (List.length questions).
Proof.
  intros Hsubmit Hearlier Hret.
  pose proof (submit_tables _ _ _ _ _ _ _ _ Hsubmit) as [[Hzs Hquiz] [_ [_ [Ha _]]]].
  rewrite <- Hzs in Hquiz.
  set (new := {| qa_id := attemptId; qa_quiz_id := quizId; qa_user_id := user;
                 submitted_at := Some now;
                 score_percent := score_of (correct_of (map (detail_of answers) questions))
                                           (List.length questions);
                 duration_sec := None |}) in Ha.
  split.
  - destruct Hret as [ordered [Hperm [Hsorted ->]]].
    apply in_map_iff in Hquiz as [q [Hid Hq]].
    assert (Hy : In (q, Some new) (quizzes_left_join_attempts db')).
    { apply in_quizzes_left_join_attempts. split; [assumption|].
      split; [rewrite Ha; apply in_or_app; right; now left|].
      split; [now rewrite Hid | discriminate]. }
    apply (Permutation_in _ (Permutation_sym Hperm)) in Hy.
    destruct (distinct_on_covers (fun x => quiz_id (fst x)) ordered None _ Hy)
      as [H|[x [Hx Hk]]]; [discriminate|].
    exists (select_stat x). split; [now apply in_map|].
    simpl in *. now rewrite Hk.
  - intros row Hrow Hid.
    pose proof (quiz_latest_stats_row db' rows row Hret Hrow) as H.
    assert (Hnew : In new (quiz_attempts db'))
      by (rewrite Ha; apply in_or_app; right; now left).
    destruct (last_taken_at row) as [t|].
    + destruct H as [[a [Hin [Hz [Ht Hs]]]] Hmax].
      assert (Hle : now <= t) by (apply (Hmax new now Hnew); [now rewrite Hid | reflexivity]).
      rewrite Ha in Hin. apply in_app_or in Hin as [Hin|[<-|[]]].
      * rewrite Hid in Hz. specialize (Hearlier a t Hin Hz Ht). lia.
      * simpl in Ht. inversion Ht. subst t. split; [reflexivity|]. now rewrite <- Hs.
    + destruct H as [_ H]. specialize (H new Hnew). rewrite Hid in H.
      specialize (H eq_refl). discriminate.
Qed.

Lemma quiz_latest_stats_after_submit_witness :
  let run := submit "z" (Some "u1") "att" (gen_questions "z" 10) (gen_answers "z" 6) 99
                    (gen_db "z" 10) in
  exists rows,
    snd run = results_page
    /\ quiz_latest_stats_returns (fst run) rows
    /\ (exists row, In row rows /\ stat_quiz_id row = "z")
    /\ forall row, In row rows -> stat_quiz_id row = "z" ->
         last_taken_at row = Some 99 /\ last_score_percent row = Some 60.
Proof.
  intros run.
  exists (map select_stat
            (distinct_on (fun x => quiz_id (fst x)) None
                         (quizzes_left_join_attempts (fst run)))).
  assert (Hrun : run = (fst run, results_page)) by (vm_compute; reflexivity).
  assert (Hret : quiz_latest_stats_returns (fst run)
                   (map select_stat
                      (distinct_on (fun x => quiz_id (fst x)) None
                                   (quizzes_left_join_attempts (fst run))))).
  { exists (quizzes_left_join_attempts (fst run)).
    split; [reflexivity|]. split; [|reflexivity].
    remember by_quiz_then_latest as R eqn:ER. vm_compute. subst R.
    repeat constructor. }
  split; [now rewrite Hrun|]. split; [exact Hret|].
  destruct (quiz_latest_stats_after_submit "z" "u1" "att" (gen_questions "z" 10)
              (gen_answers "z" 6) 99 (gen_db "z" 10) (fst run) _ Hrun
              (fun a t (F : False) => match F with end) Hret) as [Hex Hall].
  split; [exact Hex|].
  intros row Hrow Hid. destruct (Hall row Hrow Hid) as [Ht Hs].
  split; [exact Ht|]. rewrite Hs. vm_compute. reflexivity.
Defined.

(* ------------------------------------------------------------------ *)
(** ** Profiles *)
(* ------------------------------------------------------------------ *)

Lemma has_duplicate_false (l : list uuid) : has_duplicate l = false <-> NoDup l.
Proof.
  induction l as [|x l IH]; simpl.
  - split; [constructor | reflexivity].
  - rewrite orb_false_iff, IH, mem_false. split.
    + intros [Hx Hl]. now constructor.
    + intros H. inversion H. auto.
Qed.

Lemma fields_not_nil (sep : ascii) (s : string) : fields sep s <> [].
Proof.
  destruct s as [|c s]; simpl; [discriminate|].
  destruct (Ascii.eqb c sep); [discriminate|].
  destruct (fields sep s); discriminate.
Qed.

(** A word without the separator is one field. *)
Lemma fields_word (sep : ascii) (w : string) :
  (forall c, In c (list_ascii_of_string w) -> c <> sep) ->
  fields sep w = [w].
Proof.
  induction w as [|c w IH]; intros H; simpl; [reflexivity|].
  assert (Hc : Ascii.eqb c sep = false)
    by (apply Ascii.eqb_neq; apply H; now left).
  rewrite Hc, IH; [reflexivity|]. intros d Hd. apply H. now right.
Qed.

(** The first field ends at the first separator. *)
Lemma fields_app (sep : ascii) (w rest : string) :
  (forall c, In c (list_ascii_of_string w) -> c <> sep) ->
  fields sep (w ++ String sep rest) = w :: fields sep rest.
Proof.
  induction w as [|c w IH]; intros H; simpl.
  - now rewrite Ascii.eqb_refl.
  - assert (Hc : Ascii.eqb c sep = false)
      by (apply Ascii.eqb_neq; apply H; now left).
    rewrite Hc, IH; [reflexivity|]. intros d Hd. apply H. now right.
Qed.

Lemma append_empty (s : string) : s ++ "" = s.
Proof. induction s as [|c s IH]; simpl; [reflexivity | now rewrite IH]. Qed.

(** X8.  The names of the profile a sign-up creates.  Names given in the
    metadata are taken as they are.  Without them a full name of two words
    gives the first and the last name, and of a full name of more words
    the second word alone is the last name.  With no name at all the
    e-mail address (which has no space) is the first name and the last
    name is empty. *)
Theorem names_of_a_new_user (new : AuthUser) :
  (forall f, jsonb_get_text (raw_user_meta_data new) "first_name" = Some f ->
             v_first new = f)
  /\ (forall l, jsonb_get_text (raw_user_meta_data new) "last_name" = Some l ->
                v_last new = l)
  /\ (jsonb_get_text (raw_user_meta_data new) "first_name" = None ->
      jsonb_get_text (raw_user_meta_data new) "last_name" = None ->
      (forall w1 w2 rest,
          no_space w1 -> no_space w2 ->
          jsonb_get_text (raw_user_meta_data new) "full_name"
          = Some (w1 ++ " " ++ w2 ++ rest) ->
          rest = "" \/ (exists more, rest = String " " more) ->
          v_first new = w1 /\ v_last new = w2)
      /\ (forall address,
             no_space address ->
             jsonb_get_text (raw_user_meta_data new) "full_name" = None ->
             email new = Some address ->
             v_first new = address /\ v_last new = "")).
Proof.
  unfold v_first, v_last. split; [|split].
  - intros f ->. reflexivity.
  - intros l ->. reflexivity.
  - intros -> ->. split.
    + intros w1 w2 rest H1 H2 -> Hrest.
      unfold coalesce, split_part, nullif, option_map.
      change (w1 ++ " " ++ w2 ++ rest) with (w1 ++ String " " (w2 ++ rest)).
      rewrite (fields_app " " w1 (w2 ++ rest) H1).
      assert (Hf : exists ws, fields " " (w2 ++ rest) = w2 :: ws).
      { destruct Hrest as [->|[more ->]].
        - rewrite append_empty, (fields_word " " w2 H2). now exists [].
        - rewrite (fields_app " " w2 more H2). eauto. }
      destruct Hf as [ws ->]. simpl. split; [reflexivity|].
      destruct (String.eqb w2 "") eqn:E; [|reflexivity].
      apply String.eqb_eq in E. now subst.
    + intros address Ha -> ->.
      unfold coalesce, split_part, nullif, option_map.
      rewrite (fields_word " " address Ha). simpl. now split.
Qed.

Lemma names_of_a_new_user_witness :
  let ada := {| user_id := "u1"; email := Some "ada@example.org";
                raw_user_meta_data := Some [("full_name", Some "Ada King Lovelace")] |} in
  let bob := {| user_id := "u2"; email := Some "bob@example.org";
                raw_user_meta_data := None |} in
  (v_first ada = "Ada" /\ v_last ada = "King")
  /\ (v_first bob = "bob@example.org" /\ v_last bob = "").
Proof.
  intros ada bob.
  assert (Hword : forall w, forallb (fun c => negb (Ascii.eqb c " "))
                                    (list_ascii_of_string w) = true -> no_space w).
  { intros w H c Hc. rewrite forallb_forall in H. specialize (H c Hc).
    apply negb_true_iff in H. now apply Ascii.eqb_neq. }
  split.
  - apply (proj2 (proj2 (names_of_a_new_user ada)) eq_refl eq_refl)
      with (rest := " Lovelace").
    + now apply Hword.
    + now apply Hword.
    + reflexivity.
    + right. now exists "Lovelace".
  - apply (proj2 (proj2 (names_of_a_new_user bob)) eq_refl eq_refl).
    + now apply Hword.
    + reflexivity.
    + reflexivity.
Defined.

Lemma has_profile_In (l : list Profile) (id : uuid) :
  has_profile l id = true <-> In id (map profile_user_id l).
Proof. apply mem_In. Qed.

Lemma NoDup_app_one {A} (l : list A) (x : A) :
  NoDup l -> ~ In x l -> NoDup (l ++ [x]).
Proof.
  intros Hl Hx. induction Hl as [|y l Hy Hl IH]; simpl.
  - constructor; [intros []|constructor].
  - constructor.
    + intros Hin. apply in_app_or in Hin as [Hin|[E|[]]]; [contradiction|].
      apply Hx. now left.
    + apply IH. intros Hin. apply Hx. now right.
Qed.

(** X9.  A sign-up leaves every earlier profile as it was and the new
    user with a profile: the trigger adds the one row of
    [profile_of_user], or nothing when a profile of that id is there; the
    profiles keep one row per user, and if every user had a profile before,
    every user has one after. *)
Theorem sign_up_creates_the_profile (new : AuthUser) (st st' : Accounts) :
  insert_auth_user new st = Ok st' ->
  users st' = (users st ++ [new])%list
  /\ (profiles st' = profiles st
      \/ profiles st' = (profiles st ++ [profile_of_user new])%list)
  /\ In (user_id new) (map profile_user_id (profiles st'))
  /\ (NoDup (map profile_user_id (profiles st)) ->
      NoDup (map profile_user_id (profiles st')))
  /\ (every_user_has_a_profile st -> every_user_has_a_profile st').
Proof.
  unfold insert_auth_user, bind, guard.
  destruct (negb _); simpl; [|discriminate].
  intros H. inversion H. subst st'. clear H. simpl.
  unfold handle_new_user.
  destruct (has_profile (profiles st) (user_id new)) eqn:E.
  - apply has_profile_In in E.
    split; [reflexivity|]. split; [now left|]. split; [assumption|].
    split; [auto|].
    intros Hall u Hu. simpl in *. apply in_app_or in Hu as [Hu|[<-|[]]]; auto.
  - assert (Hnot : ~ In (user_id new) (map profile_user_id (profiles st))).
    { intros Hin. apply has_profile_In in Hin. rewrite Hin in E. discriminate. }
    split; [reflexivity|]. split; [now right|]. split; [|split].
    + rewrite map_app. apply in_or_app. right. now left.
    + intros Hnd. rewrite map_app. simpl. now apply NoDup_app_one.
    + intros Hall u Hu. simpl in *. rewrite map_app. apply in_or_app.
      apply in_app_or in Hu as [Hu|[<-|[]]]; [left; now apply Hall | right; now left].
Qed.

Lemma sign_up_creates_the_profile_witness :
  let new := {| user_id := "u1"; email := Some "ada@example.org";
                raw_user_meta_data := Some [("first_name", Some "Ada");
                                            ("last_name", None)] |} in
  exists st',
    insert_auth_user new {| users := []; profiles := [] |} = Ok st'
    /\ profiles st' = [{| profile_user_id := "u1"; first_name := "Ada";
                          last_name := ""; avatar_url := None; theme := light |}]
    /\ every_user_has_a_profile st'.
Proof.
  intros new. eexists. split; [reflexivity|]. split; [reflexivity|].
  apply (sign_up_creates_the_profile new {| users := []; profiles := [] |}).
  - reflexivity.
  - intros u [].
Defined.

(** X10.  The backfill, on a users table with its primary key: it goes
    through, leaves the profiles that were there as they were, gives every
    user without a profile the row the trigger would have given, so that
    every user has a profile afterwards, keeps one row per user, and run
    again it adds nothing. *)
Theorem backfill_completes_the_profiles (st : Accounts) :
  NoDup (map user_id (users st)) ->
  exists st',
    backfill_profiles st = Ok st'
    /\ users st' = users st
    /\ profiles st'
       = (profiles st
          ++ map profile_of_user
                 (filter (fun u => negb (has_profile (profiles st) (user_id u)))
                         (users st)))%list
    /\ every_user_has_a_profile st'
    /\ (NoDup (map profile_user_id (profiles st)) ->
        NoDup (map profile_user_id (profiles st')))
    /\ backfill_profiles st' = Ok st'.
Proof.
  intros Hpk. unfold backfill_profiles at 1, bind, guard.
  set (missing := filter (fun u => negb (has_profile (profiles st) (user_id u)))
                         (users st)).
  assert (Hids : map profile_user_id (map profile_of_user missing) = map user_id missing)
    by (rewrite map_map; reflexivity).
  assert (Hnd : NoDup (map user_id missing)).
  { unfold missing. clear - Hpk. induction (users st) as [|u l IH]; simpl; [constructor|].
    inversion Hpk as [|? ? Hu Hl]; subst.
    destruct (negb _); simpl; [|now apply IH].
    constructor; [|now apply IH].
    intros Hin. apply Hu. apply in_map_iff in Hin as [v [Hv Hin]].
    apply filter_In in Hin as [Hin _]. rewrite <- Hv. now apply in_map. }
  rewrite Hids. rewrite (proj2 (has_duplicate_false _) Hnd). simpl.
  eexists. split; [reflexivity|]. simpl.
  split; [reflexivity|]. split; [reflexivity|].
  assert (Hcover : forall u, In u (users st) ->
            In (user_id u)
               (map profile_user_id (profiles st ++ map profile_of_user missing))).
  { intros u Hu. rewrite map_app, Hids. apply in_or_app.
    destruct (has_profile (profiles st) (user_id u)) eqn:E.
    - left. now apply has_profile_In.
    - right. apply in_map. apply filter_In. split; [assumption|]. now rewrite E. }
  split; [exact Hcover|]. split.
  - intros Hp. rewrite map_app, Hids.
    apply NoDup_app; [assumption | assumption |].
    intros id Hin Hm. apply in_map_iff in Hm as [u [<- Hu]].
    apply filter_In in Hu as [_ Hu]. apply negb_true_iff in Hu.
    apply has_profile_In in Hin. rewrite Hin in Hu. discriminate.
  - unfold backfill_profiles, bind, guard. simpl.
    rewrite filter_none.
    + simpl. now rewrite app_nil_r.
    + intros u Hu. apply negb_false_iff. apply has_profile_In. now apply Hcover.
Qed.

Lemma backfill_completes_the_profiles_witness :
  let st := {| users := [{| user_id := "u1"; email := Some "ada@example.org";
                            raw_user_meta_data := None |};
                         {| user_id := "u2"; email := None;
                            raw_user_meta_data := Some [("full_name", Some "Bo Li")] |}];
               profiles := [{| profile_user_id := "u1"; first_name := "Ada";
                               last_name := "L."; avatar_url := None; theme := dark |}] |} in
  exists st',
    backfill_profiles st = Ok st'
    /\ profiles st'
       = [{| profile_user_id := "u1"; first_name := "Ada";
             last_name := "L."; avatar_url := None; theme := dark |};
          {| profile_user_id := "u2"; first_name := "Bo";
             last_name := "Li"; avatar_url := None; theme := light |}]
    /\ every_user_has_a_profile st'.
Proof.
  intros st.
  destruct (backfill_completes_the_profiles st) as [st' [H [_ [Hp [Hall _]]]]].
  - simpl. nodup_strings.
  - exists st'. split; [exact H|]. split; [rewrite Hp; reflexivity | exact Hall].
Defined.

(* ------------------------------------------------------------------ *)
(** ** Categories *)
(* ------------------------------------------------------------------ *)

(** X11.  The cleanup statement of the migration removes exactly the
    categories no topic references: the topics are untouched (the
    [on delete set null] finds nothing to reset), every category left is
    referenced by a topic, and a second run deletes nothing. *)
Theorem cleanup_leaves_used_categories (db : DB) :
  let db' := cleanup_stray_categories db in
  topics db' = topics db
  /\ categories db'
     = filter (fun c => existsb (references (cat_id c)) (topics db)) (categories db)
  /\ (forall c, In c (categories db') ->
                exists t, In t (topics db') /\ category_id t = Some (cat_id c))
  /\ cleanup_stray_categories db' = db'.
Proof.
  intros db'.
  assert (Ht : topics db' = topics db).
  { unfold db', cleanup_stray_categories, delete_categories. simpl.
    apply map_fixed. intros t Ht.
    destruct (category_id t) as [c|] eqn:Ec; [|reflexivity].
    destruct (mem c _) eqn:Em; [|reflexivity].
    apply mem_In in Em. apply in_map_iff in Em as [k [Hk Hin]].
    apply filter_In in Hin as [_ Hin]. apply negb_true_iff in Hin.
    assert (Hex : existsb (references (cat_id k)) (topics db) = true).
    { apply existsb_exists. exists t. split; [assumption|].
      apply references_iff. now rewrite Hk. }
    rewrite Hex in Hin. discriminate. }
  assert (Hc : categories db'
               = filter (fun c => existsb (references (cat_id c)) (topics db))
                        (categories db)).
  { unfold db', cleanup_stray_categories, delete_categories. simpl.
    apply filter_ext. intros c. apply negb_involutive. }
  split; [exact Ht|]. split; [exact Hc|]. split.
  - intros c Hin. rewrite Hc in Hin. apply filter_In in Hin as [_ Hin].
    apply existsb_exists in Hin as [t [Hin Hr]]. apply references_iff in Hr.
    exists t. split; [now rewrite Ht | assumption].
  - assert (Hkeep : forall c, In c (categories db') ->
                      negb (existsb (references (cat_id c)) (topics db')) = false).
    { intros c Hin. rewrite Hc in Hin. apply filter_In in Hin as [_ Hin].
      now rewrite Ht, Hin. }
    unfold cleanup_stray_categories at 1, delete_categories.
    rewrite (filter_none _ (categories db') Hkeep). simpl.
    replace (filter _ (categories db')) with (categories db').
    2:{ symmetry. apply filter_all. intros c Hin. apply negb_true_iff.
        now apply Hkeep. }
    replace (map _ (topics db')) with (topics db').
    2:{ symmetry. apply map_fixed. intros t _. now destruct (category_id t). }
    now destruct db'.
Qed.

Lemma insert_category_Ok (row : Category) (db db' : DB) :
  insert_category row db = Ok db' ->
  db' = with_categories db (categories db ++ [row])
  /\ ~ In (cat_id row) (map cat_id (categories db))
  /\ forall c, In c (categories db) -> cat_user_id c = cat_user_id row ->
               cat_name c <> cat_name row.
Proof.
  unfold insert_category, bind, guard.
  destruct (mem (cat_id row) (map cat_id (categories db))) eqn:Em; simpl; [discriminate|].
  destruct (existsb _ (categories db)) eqn:Ex; simpl; [discriminate|].
  intros H. inversion H. split; [reflexivity|]. split; [now apply mem_false|].
  intros c Hc Hu Hn.
  assert (Hex : existsb (fun c => String.eqb (cat_user_id c) (cat_user_id row)
                                  && String.eqb (cat_name c) (cat_name row))
                        (categories db) = true).
  { apply existsb_exists. exists c. split; [assumption|].
    now rewrite Hu, Hn, !String.eqb_refl. }
  rewrite Hex in Ex. discriminate.
Qed.

Lemma insert_topic_Ok (row : Topic) (db db' : DB) :
  insert_topic row db = Ok db' ->
  db' = with_topics db (topics db ++ [row])
  /\ ~ In (topic_id row) (map topic_id (topics db))
  /\ forall c, category_id row = Some c -> In c (map cat_id (categories db)).
Proof.
  unfold insert_topic, bind, guard.
  destruct (mem (topic_id row) (map topic_id (topics db))) eqn:Em; simpl; [discriminate|].
  destruct (category_id row) as [c|] eqn:Ec.
  - destruct (mem c (map cat_id (categories db))) eqn:Ef; simpl; [|discriminate].
    intros H. inversion H. split; [reflexivity|]. split; [now apply mem_false|].
    intros c' E. inversion E. subst c'. now apply mem_In.
  - simpl. intros H. inversion H. split; [reflexivity|].
    split; [now apply mem_false | discriminate].
Qed.

Section CreateTopicDialogFacts.

Variable trim : string -> string.
Variable toLowerCase : string -> string.
Variable categories_loaded : list CategoryItem.
Variable selectedCategoryId : option uuid.
Variable categoryInput : string.

(** The ways [ensureCategory] comes to a result: the entry picked in the
    list; an entry of the list with the typed name, case apart; a new
    category; the category the insert collided with; or none. *)
Lemma ensureCategory_cases (user new_id : uuid) (db db' : DB)
    (oid : option uuid) (name : string) :
  ensureCategory trim toLowerCase categories_loaded selectedCategoryId categoryInput
                 (Some user) new_id db
  = (db', inr (oid, name)) ->
  (selectedCategoryId = oid /\ oid <> None /\ db' = db)
  \/ (exists item, In item categories_loaded /\ oid = Some (item_id item) /\ db' = db)
  \/ (insert_category {| cat_id := new_id; cat_user_id := user;
                         cat_name := trim categoryInput |} db = Ok db'
      /\ oid = Some new_id)
  \/ (exists c, In c (categories db) /\ cat_user_id c = user
                /\ cat_name c = trim categoryInput
                /\ oid = Some (cat_id c) /\ db' = db)
  \/ (oid = None /\ db' = db /\ trim categoryInput = "").
Proof.
  unfold ensureCategory.
  destruct (match selectedCategoryId with
            | Some id => if truthy id then Some id else None
            | None => None
            end) as [id|] eqn:Es.
  - intros H. inversion H. left. split; [|split; [discriminate | reflexivity]].
    destruct selectedCategoryId as [id'|]; [|discriminate].
    destruct (truthy id'); now inversion Es.
  - destruct (truthy (trim categoryInput)) eqn:Ety.
    + destruct (find _ categories_loaded) as [item|] eqn:Ef.
      * intros H. inversion H. right. left. exists item.
        apply find_some in Ef as [Hin _]. auto.
      * destruct (insert_category _ db) as [db1|e] eqn:Ei.
        -- intros H. inversion H. subst. right. right. left. auto.
        -- destruct (filter _ (categories db)) as [|c [|c2 l]] eqn:Eq;
             try discriminate.
           assert (Hin : In c (filter (fun c => String.eqb (cat_name c)
                                                          (trim categoryInput)
                                                && String.eqb (cat_user_id c) user)
                                      (categories db))) by (rewrite Eq; now left).
           apply filter_In in Hin as [Hin Hp]. apply andb_true_iff in Hp as [Hn Hu].
           apply String.eqb_eq in Hn, Hu.
           intros H. inversion H. subst. right. right. right. left. exists c. auto.
    + intros H. inversion H. right. right. right. right.
      unfold truthy in Ety. apply negb_false_iff, String.eqb_eq in Ety. auto.
Qed.


(** What every way of [ensureCategory_cases] shares. *)
Lemma ensureCategory_Ok (user new_id : uuid) (db db' : DB)
    (oid : option uuid) (name : string) :
  dialog_state_ok categories_loaded selectedCategoryId user db ->
  ensureCategory trim toLowerCase categories_loaded selectedCategoryId categoryInput
                 (Some user) new_id db
  = (db', inr (oid, name)) ->
  topics db' = topics db
  /\ (forall id, oid = Some id ->
        exists c, In c (categories db') /\ cat_id c = id /\ cat_user_id c = user)
  /\ (categories db' = categories db
      \/ (categories db'
          = (categories db ++ [{| cat_id := new_id; cat_user_id := user;
                                  cat_name := trim categoryInput |}])%list
          /\ oid = Some new_id
          /\ ~ In new_id (map cat_id (categories db))
          /\ forall c, In c (categories db) -> cat_user_id c = user ->
                       cat_name c <> trim categoryInput)).
Proof.
  intros [Hloaded Hpicked] H.
  apply ensureCategory_cases in H
    as [[Hs [Hn ->]] | [[item [Hin [-> ->]]] | [[Hi ->] | [[c [Hc [Hu [Hnm [-> ->]]]]]
                                                          | [-> [-> Ht]]]]]].
  - split; [reflexivity|]. split; [|now left].
    intros id ->. pose proof (Hpicked id Hs) as Hp.
    apply in_map_iff in Hp as [item [Hid Hin]].
    destruct (Hloaded item Hin) as [c [Hc [Hcid Hu]]].
    exists c. repeat split; congruence.
  - split; [reflexivity|]. split; [|now left].
    intros id E. inversion E. subst id.
    destruct (Hloaded item Hin) as [c [Hc [Hcid Hu]]]. now exists c.
  - apply insert_category_Ok in Hi as [-> [Hfresh Hname]]. simpl in *.
    split; [reflexivity|]. split; [|right; auto].
    intros id E. inversion E. subst id.
    exists {| cat_id := new_id; cat_user_id := user; cat_name := trim categoryInput |}.
    split; [|split; reflexivity].
    apply in_or_app. right. now left.
  - split; [reflexivity|]. split; [|now left].
    intros id E. inversion E. subst id. now exists c.
  - split; [reflexivity|]. split; [discriminate | now left].
Qed.

(** X12.  [ensureCategory] never leaves the signed-in user with two
    categories of one name, and what it returns is a category of that
    user: it changes no topic; it inserts at most one category, named as
    typed, and only when the user has none of exactly that name; and the
    id it returns, if any, is the id of a category of the table that
    belongs to the user. *)
Theorem ensureCategory_reuses_or_creates (user new_id : uuid) (db db' : DB)
    (oid : option uuid) (name : string) :
  dialog_state_ok categories_loaded selectedCategoryId user db ->
  ensureCategory trim toLowerCase categories_loaded selectedCategoryId categoryInput
                 (Some user) new_id db
  = (db', inr (oid, name)) ->
  topics db' = topics db
  /\ (forall id, oid = Some id ->
        exists c, In c (categories db') /\ cat_id c = id /\ cat_user_id c = user)
  /\ (categories db' = categories db
      \/ categories db'
         = (categories db ++ [{| cat_id := new_id; cat_user_id := user;
                                 cat_name := trim categoryInput |}])%list)
  /\ ((exists c, In c (categories db) /\ cat_user_id c = user
                 /\ cat_name c = trim categoryInput) ->
      categories db' = categories db)
  /\ (NoDup (map cat_id (categories db)) -> NoDup (map cat_id (categories db'))).
Proof.
  intros Hok H.
  destruct (ensureCategory_Ok user new_id db db' oid name Hok H)
    as [Ht [Hid [Hsame | [Hnew [_ [Hfresh Hname]]]]]].
  - split; [assumption|]. split; [assumption|]. split; [now left|].
    split; [auto|]. now rewrite Hsame.
  - split; [assumption|]. split; [assumption|]. split; [now right|]. split.
    + intros [c [Hc [Hu Hn]]]. exfalso. now apply (Hname c).
    + intros Hnd. rewrite Hnew, map_app. simpl. now apply NoDup_app_one.
Qed.

(** X13.  A topic created through the dialog keeps the store in the
    shape the pruning of categories counts on: category ids stay unique,
    every topic with a category still references a category of the
    table, and every topic with a category has one of its own user, the
    new topic included. *)
Theorem handleCreate_keeps_categories_of_owner
    (topicName : string) (user new_category_id new_topic_id : uuid)
    (created now : timestamptz) (db db' : DB) :
  NoDup (map cat_id (categories db)) ->
  topics_category_fk db ->
  categories_of_owner db ->
  dialog_state_ok categories_loaded selectedCategoryId user db ->
  handleCreate trim toLowerCase categories_loaded selectedCategoryId categoryInput
               topicName (Some user) new_category_id new_topic_id created now db
  = (db', None) ->
  NoDup (map cat_id (categories db'))
  /\ topics_category_fk db'
  /\ categories_of_owner db'
  /\ exists t, In t (topics db') /\ topic_id t = new_topic_id
               /\ topic_user_id t = user /\ topic_name t = trim topicName
               /\ last_used_at t = now.
Proof.
  intros Hpk Hfk Hown Hok. unfold handleCreate.
  destruct (negb (truthy (trim topicName))); [discriminate|].
  destruct (ensureCategory _ _ _ _ _ (Some user) new_category_id db)
    as [db1 [e|[categoryId name]]] eqn:Ee; [discriminate|].
  destruct (insert_topic _ db1) as [db2|e] eqn:Et; [|discriminate].
  intros H. inversion H as [Hdb]. clear H.
  destruct (ensureCategory_Ok user new_category_id db db1 categoryId name Hok Ee)
    as [Htopics [Hid Hcats]].
  apply insert_topic_Ok in Et as [-> [Hfresh Hcat]].
  set (new := {| topic_id := new_topic_id; topic_user_id := user;
                 category_id := categoryId; topic_name := trim topicName;
                 status := active; last_used_at := created |}) in *.
  set (stamp := fun t => if String.eqb (topic_id t) new_topic_id
                         then set_last_used_at now t else t).
  rewrite Hdb.
  assert (Hc' : categories db' = categories db1) by (rewrite <- Hdb; reflexivity).
  assert (Ht' : topics db' = map stamp (topics db1 ++ [new]))
    by (rewrite <- Hdb; reflexivity).
  clear Hdb. simpl in Hcat.
  assert (Hpk1 : NoDup (map cat_id (categories db1))).
  { destruct Hcats as [-> | [-> [_ [Hf _]]]]; [assumption|].
    rewrite map_app. simpl. now apply NoDup_app_one. }
  assert (Hincl : forall c, In c (categories db) -> In c (categories db1)).
  { intros c Hc. destruct Hcats as [-> | [-> _]]; [assumption|].
    apply in_or_app. now left. }
  assert (Hstamp : forall t, category_id (stamp t) = category_id t
                             /\ topic_user_id (stamp t) = topic_user_id t).
  { intros t. unfold stamp. now destruct (String.eqb (topic_id t) new_topic_id). }
  assert (Hin : forall t, In t (map stamp (topics db1 ++ [new])) ->
                  exists t0, (In t0 (topics db) \/ t0 = new) /\ t = stamp t0).
  { intros t Ht. apply in_map_iff in Ht as [t0 [<- Ht0]].
    exists t0. split; [|reflexivity].
    apply in_app_or in Ht0 as [Ht0|[<-|[]]]; [left; now rewrite <- Htopics | now right]. }
  split; [now rewrite Hc'|]. split; [|split].
  - intros t c Ht Hc. rewrite Hc'. rewrite Ht' in Ht.
    apply Hin in Ht as [t0 [[Ht0 | ->] ->]];
      rewrite (proj1 (Hstamp _)) in Hc.
    + pose proof (Hfk t0 c Ht0 Hc) as Hk.
      apply in_map_iff in Hk as [k [Hk Hkin]].
      apply in_map_iff. exists k. split; [assumption | now apply Hincl].
    + now apply Hcat.
  - intros t c Ht Hc Href. rewrite Hc' in Hc. rewrite Ht' in Ht.
    apply Hin in Ht as [t0 [[Ht0 | ->] ->]].
    + destruct (Hstamp t0) as [E1 E2]. rewrite E1 in Href. rewrite E2.
      destruct Hcats as [Hsame|[Hnew [_ [Hf _]]]].
      * rewrite Hsame in Hc. now apply Hown.
      * rewrite Hnew in Hc. apply in_app_or in Hc as [Hc|[<-|[]]]; [now apply Hown|].
        exfalso. apply Hf. now apply (Hfk t0).
    + destruct (Hstamp new) as [E1 E2]. rewrite E1 in Href. rewrite E2.
      simpl in Href. destruct (Hid (cat_id c) Href) as [c0 [Hc0 [Hk Hu]]].
      rewrite <- (NoDup_map_eq cat_id _ c0 c Hpk1 Hc0 Hc Hk). simpl. now symmetry.
  - exists (stamp new). rewrite Ht'.
    split; [apply in_map; apply in_or_app; right; now left|].
    unfold stamp. simpl. rewrite String.eqb_refl. simpl. auto.
Qed.

End CreateTopicDialogFacts.

Lemma dialog_state_ok_db_two_topics :
  dialog_state_ok (select_categories db_two_topics "u1") None "u1" db_two_topics.
Proof.
  split; [|discriminate].
  intros item [<-|[<-|[]]]; eexists; (split; [|split; reflexivity]); simpl; auto.
Qed.

Lemma ensureCategory_reuses_or_creates_witness :
  let typed := ensureCategory (fun s => s) (fun s => s)
                 (select_categories db_two_topics "u1") None "Chemistry"
                 (Some "u1") "c9" db_two_topics in
  let again := ensureCategory (fun s => s) (fun s => s)
                 (select_categories db_two_topics "u1") None "Maths"
                 (Some "u1") "c9" db_two_topics in
  snd typed = inr (Some "c9", "Chemistry")
  /\ map cat_name (categories (fst typed)) = ["Maths"; "Art"; "Chemistry"]
  /\ again = (db_two_topics, inr (Some "c1", "Maths"))
  /\ NoDup (map cat_id (categories (fst typed))).
Proof.
  intros typed again.
  split; [reflexivity|]. split; [reflexivity|]. split; [reflexivity|].
  apply (ensureCategory_reuses_or_creates (fun s => s) (fun s => s)
           (select_categories db_two_topics "u1") None "Chemistry"
           "u1" "c9" db_two_topics (fst typed) (Some "c9") "Chemistry").
  - exact dialog_state_ok_db_two_topics.
  - reflexivity.
  - simpl. nodup_strings.
Defined.

Lemma handleCreate_keeps_categories_of_owner_witness :
  let run := handleCreate (fun s => s) (fun s => s)
               (select_categories db_two_topics "u1") None "Chemistry"
               "Acids" (Some "u1") "c9" "t9" 5 6 db_two_topics in
  snd run = None
  /\ map topic_id (topics (fst run)) = ["t1"; "t2"; "t3"; "t9"]
  /\ categories_of_owner (fst run).
Proof.
  intros run. split; [reflexivity|]. split; [reflexivity|].
  apply (handleCreate_keeps_categories_of_owner (fun s => s) (fun s => s)
           (select_categories db_two_topics "u1") None "Chemistry"
           "Acids" "u1" "c9" "t9" 5 6 db_two_topics (fst run)).
  - simpl. nodup_strings.
  - intros t c Ht Hc. simpl in Ht.
    destruct Ht as [<-|[<-|[<-|[]]]]; inversion Hc; simpl; auto.
  - intros t c Ht Hc _. simpl in Ht, Hc.
    destruct Ht as [<-|[<-|[<-|[]]]]; destruct Hc as [<-|[<-|[]]]; reflexivity.
  - exact dialog_state_ok_db_two_topics.
  - reflexivity.
Defined.

(* ------------------------------------------------------------------ *)
(** ** The helpers of the upload component and of the list of quizzes *)
(* ------------------------------------------------------------------ *)

Lemma lower_ascii_dot (c : ascii) :
  Ascii.eqb (lower_ascii c) "." = Ascii.eqb c ".".
Proof. destruct c as [[] [] [] [] [] [] [] []]; reflexivity. Qed.

Lemma lower_ascii_idem (c : ascii) : lower_ascii (lower_ascii c) = lower_ascii c.
Proof. destruct c as [[] [] [] [] [] [] [] []]; reflexivity. Qed.

Lemma lower_idem (s : string) : lower (lower s) = lower s.
Proof.
  induction s as [|c s IH]; simpl; [reflexivity|].
  now rewrite lower_ascii_idem, IH.
Qed.

Lemma fields_lower (s : string) : fields "." (lower s) = map lower (fields "." s).
Proof.
  induction s as [|c s IH]; simpl; [reflexivity|].
  rewrite lower_ascii_dot. destruct (Ascii.eqb c "."); simpl; [now rewrite IH|].
  rewrite IH. destruct (fields "." s); reflexivity.
Qed.

Lemma last_map {A B} (f : A -> B) (l : list A) (d : A) :
  last (map f l) (f d) = f (last l d).
Proof.
  induction l as [|x l IH]; simpl; [reflexivity|].
  destruct l; simpl in *; [reflexivity | exact IH].
Qed.

(** A string with a separator has two fields at least. *)
Lemma fields_app_two (sep : ascii) (stem rest : string) :
  exists w w2 ws, fields sep (stem ++ String sep rest) = w :: w2 :: ws.
Proof.
  induction stem as [|c stem [w [w2 [ws IH]]]]; simpl.
  - rewrite Ascii.eqb_refl.
    destruct (fields sep rest) as [|w2 ws] eqn:E; [now apply fields_not_nil in E|].
    now exists "", w2, ws.
  - rewrite IH. destruct (Ascii.eqb c sep); eauto.
Qed.

(** The last field of a string is the last field of what follows one of
    its separators. *)
Lemma last_fields_app (sep : ascii) (stem rest d : string) :
  last (fields sep (stem ++ String sep rest)) d = last (fields sep rest) d.
Proof.
  induction stem as [|c stem IH]; simpl.
  - rewrite Ascii.eqb_refl.
    destruct (fields sep rest) eqn:E; [now apply fields_not_nil in E | reflexivity].
  - destruct (fields_app_two sep stem rest) as [w [w2 [ws E]]].
    rewrite E in *. destruct (Ascii.eqb c sep); exact IH.
Qed.

(** X14.  [detectMediaType] looks at nothing but the text after the last
    dot, whatever its case: a name and the part after its last dot are
    classed alike, so that a file named just like an extension is classed
    by it, and lowering the letters of a name does not change its class. *)
Theorem detectMediaType_by_extension :
  (forall stem ext,
      (forall c, In c (list_ascii_of_string ext) -> c <> "."%char) ->
      extension (stem ++ "." ++ ext) = lower ext
      /\ detectMediaType (stem ++ "." ++ ext) = detectMediaType ext)
  /\ (forall name, detectMediaType (lower name) = detectMediaType name).
Proof.
  split.
  - intros stem ext Hext.
    assert (E : extension (stem ++ "." ++ ext) = lower ext).
    { unfold extension. change (stem ++ "." ++ ext) with (stem ++ String "." ext).
      rewrite last_fields_app.
      pose proof (fields_word "." ext Hext) as Hw. rewrite Hw. reflexivity. }
    split; [exact E|].
    unfold detectMediaType. rewrite E.
    unfold extension.
    pose proof (fields_word "." ext Hext) as Hw. rewrite Hw. reflexivity.
  - intros name. unfold detectMediaType, extension.
    rewrite fields_lower.
    pose proof (last_map lower (fields "." name) "") as Hl. simpl (lower "") in Hl.
    now rewrite Hl, lower_idem.
Qed.

Example detectMediaType_examples :
  detectMediaType "Lecture.Notes.PDF" = document
  /\ detectMediaType "talk.mp3" = audio
  /\ detectMediaType "mov" = video
  /\ detectMediaType "archive.tar.gz" = other
  /\ detectMediaType "slides." = other.
Proof. repeat split; reflexivity. Qed.

Lemma detectMediaType_by_extension_witness :
  extension "Lecture.Notes.PDF" = "pdf"
  /\ detectMediaType "Lecture.Notes.PDF" = detectMediaType "PDF".
Proof.
  apply (proj1 detectMediaType_by_extension "Lecture.Notes" "PDF").
  intros c Hc. simpl in Hc.
  destruct Hc as [<-|[<-|[<-|[]]]]; discriminate.
Defined.

(** X15.  [regenerate] asks for what [generate] asked for: from the card of
    a quiz row that [generate] inserted, [regenerate] sends the same scope,
    count and difficulty as [generate] sent, whatever was chosen in the
    dialog; and that row has a name and passes the check on [length]. *)
Theorem regenerate_repeats_generate
    (trim slice_0_40 : string -> string) (topic id : uuid) (config : quiz_config) :
  let row := generate_row trim slice_0_40 id config in
  regenerate_sends topic (card_of_row row) = generate_sends trim topic config
  /\ quizzes_length_check (row_length row) = true
  /\ row_name row <> "".
Proof.
  intros row. split; [|split].
  - unfold regenerate_sends, generate_sends, card_of_row, row, generate_row. simpl.
    f_equal.
    + unfold or_null. destruct (String.eqb (trim (config_scope config)) "") eqn:E;
        [reflexivity|]. now rewrite E.
    + destruct (config_difficulty config) as [[]|]; reflexivity.
  - unfold row, generate_row. simpl. now destruct (config_count config).
  - unfold row, generate_row. simpl.
    destruct (String.eqb (trim (config_name config)) "") eqn:E; simpl.
    + destruct (String.eqb (trim (config_scope config)) ""); simpl; discriminate.
    + now apply String.eqb_neq.
Qed.

(** *** [fmtSize] *)

Lemma Qle_bool_false (x y : Q) : Qle_bool x y = false -> (y < x)%Q.
Proof.
  intros H. apply Qnot_le_lt. intros Hle. apply Qle_bool_iff in Hle.
  rewrite Hle in H. discriminate.
Qed.

(** X16.  The unit [fmtSize] picks.  For a size of at least one byte the
    loop ends with the size divided by [1024^i], [i] being the index of
    the unit shown, at most 4 (TB); the number to print is at least 1,
    and below 1024 unless the unit is TB. *)
Theorem fmtSize_unit (b : Z) :
  0 < b ->
  exists v i,
    fmtSize_loop (List.length units - 1) (inject_Z b) 0 = (v, i)
    /\ (i <= 4)%nat
    /\ (v == inject_Z b / inject_Z (1024 ^ Z.of_nat i))%Q
    /\ (1 <= v)%Q
    /\ ((i < 4)%nat -> (v < 1024)%Q)
    /\ fmtSize (Some b)
       = (if Qlt_le_dec v 10 then if (0 <? i)%nat then toFixed_1 v else toFixed_0 v
          else toFixed_0 v)
         ++ " " ++ nth i units "".
Proof.
  intros Hb.
  assert (Hx : (1 <= inject_Z b)%Q).
  { change 1%Q with (inject_Z 1). rewrite <- Zle_Qle. lia. }
  assert (Htext : forall v i,
             fmtSize_loop (List.length units - 1) (inject_Z b) 0 = (v, i) ->
             fmtSize (Some b)
             = (if Qlt_le_dec v 10 then if (0 <? i)%nat then toFixed_1 v else toFixed_0 v
                else toFixed_0 v)
               ++ " " ++ nth i units "").
  { intros v i E. unfold fmtSize.
    destruct (b <=? 0) eqn:Eb; [apply Z.leb_le in Eb; lia|].
    now rewrite E. }
  set (x := inject_Z b) in *. clearbody x.
  simpl (List.length units - 1)%nat in *.
  unfold fmtSize_loop in *.
  destruct (Qle_bool 1024 x) eqn:E0.
  2:{ apply Qle_bool_false in E0. exists x, 0%nat.
      split; [reflexivity|]. split; [lia|]. split; [|split; [|split]].
      - change (inject_Z (1024 ^ Z.of_nat 0)) with (1 # 1). field.
      - exact Hx.
      - intros _. exact E0.
      - now apply Htext. }
  apply Qle_bool_iff in E0.
  destruct (Qle_bool 1024 (x / 1024)) eqn:E1.
  2:{ apply Qle_bool_false in E1. exists (x / 1024)%Q, 1%nat.
      split; [reflexivity|]. split; [lia|]. split; [|split; [|split]].
      - change (inject_Z (1024 ^ Z.of_nat 1)) with (1024 # 1). field.
      - apply Qle_shift_div_l; [reflexivity | lra].
      - intros _. exact E1.
      - now apply Htext. }
  apply Qle_bool_iff in E1.
  destruct (Qle_bool 1024 (x / 1024 / 1024)) eqn:E2.
  2:{ apply Qle_bool_false in E2. exists (x / 1024 / 1024)%Q, 2%nat.
      split; [reflexivity|]. split; [lia|]. split; [|split; [|split]].
      - change (inject_Z (1024 ^ Z.of_nat 2)) with (1048576 # 1). field.
      - apply Qle_shift_div_l; [reflexivity | lra].
      - intros _. exact E2.
      - now apply Htext. }
  apply Qle_bool_iff in E2.
  destruct (Qle_bool 1024 (x / 1024 / 1024 / 1024)) eqn:E3.
  2:{ apply Qle_bool_false in E3. exists (x / 1024 / 1024 / 1024)%Q, 3%nat.
      split; [reflexivity|]. split; [lia|]. split; [|split; [|split]].
      - change (inject_Z (1024 ^ Z.of_nat 3)) with (1073741824 # 1). field.
      - apply Qle_shift_div_l; [reflexivity | lra].
      - intros _. exact E3.
      - now apply Htext. }
  apply Qle_bool_iff in E3.
  exists (x / 1024 / 1024 / 1024 / 1024)%Q, 4%nat.
  split; [reflexivity|]. split; [lia|]. split; [|split; [|split]].
  - change (inject_Z (1024 ^ Z.of_nat 4)) with (1099511627776 # 1). field.
  - apply Qle_shift_div_l; [reflexivity | lra].
  - intros H. lia.
  - now apply Htext.
Qed.

Lemma fmtSize_unit_witness :
  fmtSize (Some 1536) = "1.5 KB"
  /\ fmtSize (Some (50 * 1024 * 1024 + 1)) = "50 MB"
  /\ fmtSize (Some 0) = "—"
  /\ exists v i,
       fmtSize_loop (List.length units - 1) (inject_Z 1048575) 0 = (v, i)
       /\ i = 1%nat /\ (v < 1024)%Q
       /\ fmtSize (Some 1048575) = "1024 KB".
Proof.
  split; [reflexivity|]. split; [reflexivity|]. split; [reflexivity|].
  destruct (fmtSize_unit 1048575) as [v [i [E [_ [_ [_ [Hlt _]]]]]]]; [lia|].
  exists v, i. split; [exact E|].
  assert (Hi : i = 1%nat) by (vm_compute in E; now inversion E).
  split; [exact Hi|]. split; [apply Hlt; lia | reflexivity].
Defined.

(* ------------------------------------------------------------------ *)
(** ** The view [topic_overview] *)
(* ------------------------------------------------------------------ *)

Lemma left_join_categories_one (db : DB) (t : Topic) :
  NoDup (map cat_id (categories db)) ->
  exists c, left_join_categories db t = [c].
Proof.
  intros Hpk. unfold left_join_categories.
  destruct (category_id t) as [k|].
  - pose proof (NoDup_key_once cat_id k (categories db) Hpk) as Hlen.
    replace (filter (fun c => option_uuid_eqb (Some k) (Some (cat_id c))) (categories db))
      with (filter (fun c => String.eqb (cat_id c) k) (categories db)).
    2:{ apply filter_ext. intros c. simpl. apply String.eqb_sym. }
    destruct (filter _ (categories db)) as [|c [|c2 l]]; simpl in *; eauto. lia.
  - rewrite filter_none; [eauto|]. reflexivity.
Qed.

(** The live files of a topic, before and after the soft delete of one. *)
Lemma live_files_after_delete (now : timestamptz) (T : uuid) (file : TopicFile)
    (l : list TopicFile) :
  NoDup (map file_id l) -> In file l -> deleted_at file = None ->
  List.length
    (filter (fun f => String.eqb (file_topic_id f) T && negb (is_some (deleted_at f))) l)
  = (List.length
       (filter (fun f => String.eqb (file_topic_id f) T && negb (is_some (deleted_at f)))
               (map (fun f => if eq_id (file_id file) f
                              then apply_file_set (delete_set now) f else f) l))
     + (if String.eqb (file_topic_id file) T then 1 else 0))%nat.
Proof.
  intros Hnd Hin Hlive.
  set (p := fun f => String.eqb (file_topic_id f) T && negb (is_some (deleted_at f))).
  set (g := fun f => if eq_id (file_id file) f
                     then apply_file_set (delete_set now) f else f).
  induction l as [|f l IH]; [contradiction|].
  inversion Hnd as [|? ? Hf Hl]; subst.
  destruct Hin as [->|Hin].
  - assert (Hg : g file = apply_file_set (delete_set now) file)
      by (unfold g, eq_id; now rewrite String.eqb_refl).
    assert (Hpg : p (g file) = false) by (rewrite Hg; unfold p; simpl; apply andb_false_r).
    assert (Hp : p file = String.eqb (file_topic_id file) T)
      by (unfold p; rewrite Hlive; apply andb_true_r).
    assert (Hrest : map g l = l).
    { apply map_fixed. intros h Hh. unfold g, eq_id.
      destruct (String.eqb (file_id h) (file_id file)) eqn:E; [|reflexivity].
      apply String.eqb_eq in E. exfalso. apply Hf. rewrite <- E. now apply in_map. }
    simpl. rewrite Hpg, Hp, Hrest.
    destruct (String.eqb (file_topic_id file) T); simpl; lia.
  - assert (Hg : g f = f).
    { unfold g, eq_id. destruct (String.eqb (file_id f) (file_id file)) eqn:E;
        [|reflexivity].
      apply String.eqb_eq in E. exfalso. apply Hf. rewrite E. now apply in_map. }
    simpl. rewrite Hg. specialize (IH Hl Hin).
    destruct (p f); simpl; lia.
Qed.

Lemma after_update_topic_files_rest (s : file_set) (now : timestamptz) (l : list TopicFile)
    (db : DB) :
  categories (fold_left (after_update_topic_files s now) l db) = categories db
  /\ quizzes (fold_left (after_update_topic_files s now) l db) = quizzes db.
Proof.
  revert db. induction l as [|f l IH]; intros db; simpl; [now split|].
  destruct (IH (after_update_topic_files s now db f)) as [-> ->].
  unfold after_update_topic_files. now destruct (fires_t_file_sync_chunks s).
Qed.

(** What [deleteFile] leaves of the tables the overview reads. *)
Lemma deleteFile_overview_tables (file : TopicFile) (now : timestamptz) (db : DB) :
  topic_files (fst (deleteFile file now db))
  = map (fun f => if eq_id (file_id file) f
                  then apply_file_set (delete_set now) f else f)
        (topic_files db)
  /\ categories (fst (deleteFile file now db)) = categories db
  /\ quizzes (fst (deleteFile file now db)) = quizzes db
  /\ exists l, topics (fst (deleteFile file now db)) = map (stamped now l) (topics db).
Proof.
  unfold deleteFile.
  set (db1 := match documents_of_file db (file_id file) with
              | [] => (db, [])
              | _ :: _ => _
              end).
  assert (H1 : topic_files (fst db1) = topic_files db
               /\ categories (fst db1) = categories db
               /\ quizzes (fst db1) = quizzes db
               /\ topics (fst db1) = topics db).
  { unfold db1. destruct (documents_of_file db (file_id file)); simpl; auto. }
  destruct db1 as [d1 log1]. simpl in *. destruct H1 as [Hf [Hc [Hq Ht]]].
  unfold update_topic_files.
  destruct (after_update_topic_files_rest (delete_set now) now
              (map (apply_file_set (delete_set now))
                   (filter (eq_id (file_id file)) (topic_files d1)))
              (with_topic_files d1
                 (map (fun f => if eq_id (file_id file) f
                                then apply_file_set (delete_set now) f else f)
                      (topic_files d1)))) as [Hc' Hq'].
  split; [|split; [|split]].
  - rewrite (proj2 (fold_after_update_frame (delete_set now) now _ _)). simpl.
    now rewrite Hf.
  - rewrite Hc'. exact Hc.
  - rewrite Hq'. exact Hq.
  - eexists. rewrite topics_fold_after_update. simpl. now rewrite Ht.
Qed.

(** The rows of the view before and after [deleteFile], computed in the
    same order. *)
Lemma topic_overview_rows_after_deleteFile
    (db : DB) (summaries : list TopicSummary) (file : TopicFile) (now : timestamptz) :
  NoDup (map cat_id (categories db)) ->
  NoDup (map file_id (topic_files db)) ->
  In file (topic_files db) ->
  deleted_at file = None ->
  let db' := fst (deleteFile file now db) in
  map ov_topic_id (topic_overview db summaries) = map topic_id (topics db)
  /\ Forall2 (fun r r' =>
                ov_topic_id r' = ov_topic_id r
                /\ ov_category_name r' = ov_category_name r
                /\ quiz_count r' = quiz_count r
                /\ file_count r'
                   = file_count r
                     - (if String.eqb (file_topic_id file) (ov_topic_id r) then 1 else 0))
             (topic_overview db summaries) (topic_overview db' summaries).
Proof.
  intros Hpk Hfiles Hin Hlive db'. unfold topic_overview. split.
  - induction (topics db) as [|t ts IH]; simpl; [reflexivity|].
    destruct (left_join_categories_one db t Hpk) as [c ->]. simpl. now rewrite IH.
  - destruct (deleteFile_overview_tables file now db) as [Hf [Hc [Hq [l Ht]]]].
    fold db' in Hf, Hc, Hq, Ht. rewrite Ht. clear Ht.
    induction (topics db) as [|t ts IH]; simpl; [constructor|].
    assert (Hid : topic_id (stamped now l t) = topic_id t
                  /\ category_id (stamped now l t) = category_id t).
    { unfold stamped. destruct (existsb _ l); split; reflexivity. }
    destruct Hid as [Hid Hcat].
    assert (Hj : left_join_categories db' (stamped now l t) = left_join_categories db t)
      by (unfold left_join_categories; now rewrite Hc, Hcat).
    rewrite Hj. destruct (left_join_categories_one db t Hpk) as [c ->]. simpl.
    constructor; [|exact IH]. simpl.
    split; [exact Hid|]. split; [reflexivity|]. split.
    + unfold quiz_count_of. now rewrite Hq, Hid.
    + unfold file_count_of. rewrite Hf, Hid.
      rewrite (live_files_after_delete now (topic_id t) file (topic_files db)
                 Hfiles Hin Hlive).
      destruct (String.eqb (file_topic_id file) (topic_id t)); lia.
Qed.

Lemma Forall2_In_r {A B} (P : A -> B -> Prop) (l : list A) (l' : list B) (y : B) :
  Forall2 P l l' -> In y l' -> exists x, In x l /\ P x y.
Proof.
  induction 1 as [|x y0 l l' Hxy _ IH]; simpl; [contradiction|].
  intros [<-|Hy]; [eauto|]. destruct (IH Hy) as [x' [Hx' Hp]]. eauto.
Qed.

(** X17.  With the ids of the categories and of the topics distinct, the
    overview has one row for every topic, in whatever order it returns
    them, before and after the soft delete of a live file; and the row of
    a topic after [deleteFile] shows the same category and the same
    [quiz_count] as the row of that topic before, and a [file_count] that
    is one less for the topic of the file and unchanged for every other
    topic. *)
Theorem topic_overview_after_deleteFile
    (db : DB) (summaries : list TopicSummary) (file : TopicFile) (now : timestamptz)
    (rows rows' : list TopicOverviewRow) :
  NoDup (map cat_id (categories db)) ->
  NoDup (map topic_id (topics db)) ->
  NoDup (map file_id (topic_files db)) ->
  In file (topic_files db) ->
  deleted_at file = None ->
  topic_overview_returns db summaries rows ->
  topic_overview_returns (fst (deleteFile file now db)) summaries rows' ->
  Permutation (map ov_topic_id rows) (map topic_id (topics db))
  /\ Permutation (map ov_topic_id rows') (map topic_id (topics db))
  /\ forall r r',
       In r rows -> In r' rows' -> ov_topic_id r' = ov_topic_id r ->
       ov_category_name r' = ov_category_name r
       /\ quiz_count r' = quiz_count r
       /\ file_count r'
          = file_count r
            - (if String.eqb (file_topic_id file) (ov_topic_id r) then 1 else 0).
Proof.
  intros Hpk Htopics Hfiles Hin Hlive Hrows Hrows'.
  unfold topic_overview_returns in *.
  destruct (topic_overview_rows_after_deleteFile db summaries file now
              Hpk Hfiles Hin Hlive) as [Hids Hpair].
  assert (Hids' : map ov_topic_id (topic_overview (fst (deleteFile file now db)) summaries)
                  = map topic_id (topics db)).
  { rewrite <- Hids. clear - Hpair.
    induction Hpair as [|r r' l l' [E _] _ IH]; simpl; [reflexivity|].
    now rewrite E, IH. }
  split; [rewrite <- Hids; now apply Permutation_map|].
  split; [rewrite <- Hids'; now apply Permutation_map|].
  intros r r' Hr Hr' E.
  apply (Permutation_in _ Hrows) in Hr. apply (Permutation_in _ Hrows') in Hr'.
  destruct (Forall2_In_r _ _ _ _ Hpair Hr') as [r0 [Hr0 [E0 [Hc [Hq Hfc]]]]].
  assert (r0 = r) as ->.
  { apply (NoDup_map_eq ov_topic_id (topic_overview db summaries)); auto.
    - now rewrite Hids.
    - congruence. }
  auto.
Qed.

Lemma topic_overview_after_deleteFile_witness :
  let rows := topic_overview db_search [] in
  let rows' := rev (topic_overview (fst (deleteFile file_f1 9 db_search)) []) in
  map (fun r => (ov_topic_id r, file_count r)) rows = [("t1", 1); ("t2", 1)]
  /\ map (fun r => (ov_topic_id r, file_count r)) rows' = [("t2", 1); ("t1", 0)]
  /\ Permutation (map ov_topic_id rows) ["t1"; "t2"]
  /\ Permutation (map ov_topic_id rows') ["t1"; "t2"]
  /\ forall r r',
       In r rows -> In r' rows' -> ov_topic_id r' = ov_topic_id r ->
       ov_category_name r' = ov_category_name r
       /\ quiz_count r' = quiz_count r
       /\ file_count r'
          = file_count r - (if String.eqb "t1" (ov_topic_id r) then 1 else 0).
Proof.
  intros rows rows'. split; [reflexivity|]. split; [reflexivity|].
  apply (topic_overview_after_deleteFile db_search [] file_f1 9 rows rows').
  - constructor.
  - simpl. nodup_strings.
  - simpl. nodup_strings.
  - now left.
  - reflexivity.
  - apply Permutation_refl.
  - apply Permutation_sym, Permutation_rev.
Defined.

(* ------------------------------------------------------------------ *)
(** ** Relative times *)
(* ------------------------------------------------------------------ *)

(** The whole seconds, minutes, hours and days of [ago], read off the
    elapsed milliseconds. *)
Lemma elapsed_units (d : Z) :
  let s := Z.max 0 (d / 1000) in
  (s <? 60) = (d <? 60000)
  /\ (60000 <= d ->
      s / 60 = d / 60000
      /\ d / 60000 / 60 = d / 3600000
      /\ d / 3600000 / 24 = d / 86400000
      /\ (d / 60000 <? 60) = (d <? 3600000)
      /\ (d / 3600000 <? 24) = (d <? 86400000)).
Proof.
  intros s. split.
  - unfold s. destruct (Z.ltb_spec d 60000) as [H|H].
    + apply Z.ltb_lt. assert (d / 1000 < 60) by (apply Z.div_lt_upper_bound; lia). lia.
    + apply Z.ltb_ge. assert (60 <= d / 1000) by (apply Z.div_le_lower_bound; lia). lia.
  - intros H.
    assert (Hs : s = d / 1000).
    { unfold s. assert (0 <= d / 1000) by (apply Z.div_pos; lia). lia. }
    rewrite Hs. rewrite !Z.div_div by lia. simpl.
    repeat split; try reflexivity.
    + destruct (Z.ltb_spec d 3600000) as [H1|H1].
      * apply Z.ltb_lt. apply Z.div_lt_upper_bound; lia.
      * apply Z.ltb_ge. apply Z.div_le_lower_bound; lia.
    + destruct (Z.ltb_spec d 86400000) as [H1|H1].
      * apply Z.ltb_lt. apply Z.div_lt_upper_bound; lia.
      * apply Z.ltb_ge. apply Z.div_le_lower_bound; lia.
Qed.

Section AgoFacts.

Variable Date_parse : string -> option Z.

(** X18.  [ago] counts whole units of the elapsed milliseconds
    [d = Date.now() - timestamp]: below one minute, and for every instant
    in the future, it says "Just now"; below one hour it shows [d / 60000]
    minutes, below one day [d / 3600000] hours, and from then on
    [d / 86400000] days, the unit in the singular for a count of 1. *)
Theorem ago_counts_whole_units (now : Z) (input : ago_input) (timestamp : Z) :
  no_input input = false ->
  timestamp_of Date_parse input = Some timestamp ->
  let d := now - timestamp in
  ago Date_parse now input
  = if d <? 60000 then "Just now"
    else if d <? 3600000
    then string_of_Z (d / 60000) ++ " min"
         ++ (if d / 60000 =? 1 then "" else "s") ++ " ago"
    else if d <? 86400000
    then string_of_Z (d / 3600000) ++ " hour"
         ++ (if d / 3600000 =? 1 then "" else "s") ++ " ago"
    else string_of_Z (d / 86400000) ++ " day"
         ++ (if d / 86400000 =? 1 then "" else "s") ++ " ago".
Proof.
  intros Hin Hts d. unfold ago. rewrite Hin, Hts. fold d.
  destruct (elapsed_units d) as [H0 H1]. cbv zeta in H0, H1. cbv zeta.
  rewrite H0. destruct (Z.ltb_spec d 60000) as [Hd|Hd]; [reflexivity|].
  destruct (H1 Hd) as [Hm [Hh [Hday [Hm60 Hh24]]]].
  rewrite Hm, Hh, Hday, Hm60, Hh24. reflexivity.
Qed.

(** X19.  The [ago] of the application shell against the one of the
    library, on a string that is not empty.  For a string that is no date
    the library shows a dash and the shell "NaN days ago".  For a date the
    two agree, but for the minutes, which the shell spells out. *)
Theorem AppShell_ago_against_ago (now : Z) (iso : string) :
  iso <> "" ->
  match Date_parse iso with
  | None =>
      ago Date_parse now (input_string iso) = "—"
      /\ AppShell.ago Date_parse now (Some iso) = "NaN days ago"
  | Some timestamp =>
      let d := now - timestamp in
      AppShell.ago Date_parse now (Some iso)
      = if (60000 <=? d) && (d <? 3600000)
        then string_of_Z (d / 60000) ++ " minute"
             ++ (if d / 60000 =? 1 then "" else "s") ++ " ago"
        else ago Date_parse now (input_string iso)
  end.
Proof.
  intros Hne. apply String.eqb_neq in Hne.
  destruct (Date_parse iso) as [timestamp|] eqn:Hp.
  - intros d.
    unfold AppShell.ago, ago. simpl. rewrite Hne, Hp. simpl. fold d.
    destruct (elapsed_units d) as [H0 H1]. cbv zeta in H0, H1.
    rewrite H0. destruct (Z.ltb_spec d 60000) as [Hd|Hd].
    + replace (60000 <=? d) with false by (symmetry; apply Z.leb_gt; lia). reflexivity.
    + replace (60000 <=? d) with true by (symmetry; apply Z.leb_le; lia).
      destruct (H1 Hd) as [Hm [_ [_ [Hm60 _]]]].
      rewrite Hm, Hm60. simpl.
      destruct (d <? 3600000); reflexivity.
  - split.
    + unfold ago. simpl. now rewrite Hne, Hp.
    + unfold AppShell.ago. now rewrite Hne, Hp.
Qed.

End AgoFacts.

Lemma ago_counts_whole_units_witness :
  ago Date_parse_example 5460000 (input_string "1970-01-01T00:01:00.000Z") = "1 hour ago"
  /\ ago Date_parse_example 0 (input_string "1970-01-01T00:01:00.000Z") = "Just now"
  /\ ago Date_parse_example 172860000 (input_Date (Some 60000)) = "2 days ago".
Proof.
  split; [|split].
  - refine (eq_trans (ago_counts_whole_units Date_parse_example 5460000
                        (input_string "1970-01-01T00:01:00.000Z") 60000
                        eq_refl eq_refl) _).
    reflexivity.
  - refine (eq_trans (ago_counts_whole_units Date_parse_example 0
                        (input_string "1970-01-01T00:01:00.000Z") 60000
                        eq_refl eq_refl) _).
    reflexivity.
  - refine (eq_trans (ago_counts_whole_units Date_parse_example 172860000
                        (input_Date (Some 60000)) 60000 eq_refl eq_refl) _).
    reflexivity.
Defined.

Lemma AppShell_ago_against_ago_witness :
  (ago Date_parse_example 0 (input_string "yesterday") = "—"
   /\ AppShell.ago Date_parse_example 0 (Some "yesterday") = "NaN days ago")
  /\ AppShell.ago Date_parse_example 180000 (Some "1970-01-01T00:01:00.000Z")
     = "2 minutes ago"
  /\ ago Date_parse_example 180000 (input_string "1970-01-01T00:01:00.000Z")
     = "2 mins ago".
Proof.
  split; [|split].
  - refine (AppShell_ago_against_ago Date_parse_example 0 "yesterday" _). discriminate.
  - refine (eq_trans (AppShell_ago_against_ago Date_parse_example 180000
                        "1970-01-01T00:01:00.000Z" _) _);
      [discriminate | reflexivity].
  - reflexivity.
Defined.

(* ------------------------------------------------------------------ *)
(** ** Who writes the derived fields *)
(* ------------------------------------------------------------------ *)

Lemma quizzes_update_topic_files (where_ : TopicFile -> bool) (s : file_set)
    (now : timestamptz) (db : DB) :
  quizzes (update_topic_files where_ s now db) = quizzes db.
Proof.
  unfold update_topic_files.
  now rewrite (proj2 (after_update_topic_files_rest s now _ _)).
Qed.

Lemma quizzes_toggleInclude (busy : bool) (file : TopicFile) (next : bool)
    (now : timestamptz) (db : DB) :
  quizzes (fst (toggleInclude busy file next now db)) = quizzes db.
Proof.
  destruct busy; [reflexivity|].
  rewrite toggleInclude_fst. unfold setChunksActiveForFile.
  destruct (documents_of_file _ _); simpl; apply quizzes_update_topic_files.
Qed.

Lemma quizzes_insert_topic_file (row : TopicFile) (now : timestamptz) (db db' : DB) :
  insert_topic_file row now db = Ok db' -> quizzes db' = quizzes db.
Proof.
  unfold insert_topic_file, bind, guard.
  pass_guards; intros H; inversion H; reflexivity.
Qed.

Lemma quizzes_submit quizId authed attemptId questions answers now db :
  quizzes (fst (submit quizId authed attemptId questions answers now db)) = quizzes db.
Proof.
  unfold submit. destruct authed as [user|]; [|reflexivity].
  destruct (insert_quiz_attempt _ db) as [db1|e] eqn:E1; [|reflexivity].
  assert (H1 : quizzes db1 = quizzes db).
  { revert E1. unfold insert_quiz_attempt, bind, guard.
    pass_guards; intros H; inversion H; reflexivity. }
  match goal with
  | |- context [match ?r with Ok _ => _ | Err _ => _ end] =>
      destruct r as [db2|e] eqn:E2; [|exact H1]
  end.
  assert (H2 : quizzes db2 = quizzes db1).
  { destruct (map (answerRow attemptId) _); [now inversion E2|].
    now apply for_each_insert_attempt_answer_Ok in E2 as [E2 _]. }
  destruct (update_quiz_attempt _ _ _ _ db2) as [db3|e] eqn:E3; simpl;
    [|congruence].
  revert E3. unfold update_quiz_attempt, bind, guard.
  destruct (_ || _); simpl; [|discriminate].
  intros H. inversion H. simpl. congruence.
Qed.

Lemma quizzes_handleCreate
    (trim toLowerCase : string -> string) (categories_loaded : list CategoryItem)
    (selectedCategoryId : option uuid) (categoryInput topicName : string)
    (user : option uuid) (new_category_id new_topic_id : uuid)
    (created now : timestamptz) (db : DB) :
  quizzes (fst (handleCreate trim toLowerCase categories_loaded selectedCategoryId
                  categoryInput topicName user new_category_id new_topic_id
                  created now db))
  = quizzes db.
Proof.
  unfold handleCreate. destruct (negb _); [reflexivity|].
  destruct user as [u|]; [|reflexivity].
  assert (He : quizzes (fst (ensureCategory trim toLowerCase categories_loaded
                               selectedCategoryId categoryInput (Some u)
                               new_category_id db))
               = quizzes db).
  { unfold ensureCategory.
    destruct (match selectedCategoryId with Some _ => _ | None => _ end);
      [reflexivity|].
    destruct (truthy _); [|reflexivity].
    destruct (find _ categories_loaded); [reflexivity|].
    destruct (insert_category _ db) as [db1|e] eqn:E.
    - apply insert_category_Ok in E as [-> _]. reflexivity.
    - destruct (filter _ (categories db)) as [|c [|c' l]]; reflexivity. }
  destruct (ensureCategory _ _ _ _ _ _ _ db) as [db1 [e|[categoryId name]]];
    simpl in *; [exact He|].
  destruct (insert_topic _ db1) as [db2|e] eqn:E; simpl; [|exact He].
  apply insert_topic_Ok in E as [-> _]. exact He.
Qed.

Lemma insert_quiz_Ok (row : Quiz) (now : timestamptz) (db db' : DB) :
  insert_quiz row now db = Ok db' ->
  quizzes db' = (quizzes db ++ [row])%list
  /\ ~ In (quiz_id row) (map quiz_id (quizzes db)).
Proof.
  unfold insert_quiz, bind, guard.
  destruct (quizzes_length_check _); simpl; [|discriminate].
  destruct (mem (quiz_id row) (map quiz_id (quizzes db))) eqn:M; simpl; [discriminate|].
  destruct (mem (quiz_topic_id row) (map topic_id (topics db))); simpl; [|discriminate].
  intros H. inversion H. split; [reflexivity | now apply mem_false].
Qed.

Lemma quizzes_deleteQuiz (id : uuid) (db : DB) :
  quizzes (deleteQuiz id db) = quizzes db
  \/ quizzes (deleteQuiz id db)
     = filter (fun q => negb (String.eqb (quiz_id q) id)) (quizzes db).
Proof.
  unfold deleteQuiz, delete_quizzes, selected_option_restrict, bind, guard.
  destruct (negb _); simpl; auto.
Qed.

Lemma quizzes_fold_prune_orphan_category (olds : list Topic) (db : DB) :
  quizzes (fold_left prune_orphan_category olds db) = quizzes db.
Proof.
  revert db. induction olds as [|old olds IH]; intros db; simpl; [reflexivity|].
  rewrite IH. unfold prune_orphan_category.
  destruct (category_id old) as [cid|]; [|reflexivity].
  now destruct (existsb (references cid) (topics db)).
Qed.

Lemma quizzes_update_topics (where_ : Topic -> bool) (s : topic_set) (db db' : DB) :
  update_topics where_ s db = Ok db' -> quizzes db' = quizzes db.
Proof.
  unfold update_topics, bind, guard. destruct (forallb _ _); [|discriminate].
  intros H. inversion H. now rewrite quizzes_fold_prune_orphan_category.
Qed.

Lemma quizzes_delete_topics (where_ : Topic -> bool) (db db' : DB) :
  delete_topics where_ db = Ok db' ->
  quizzes db'
  = filter (fun q => negb (mem (quiz_topic_id q)
                               (map topic_id (filter where_ (topics db)))))
           (quizzes db).
Proof.
  unfold delete_topics, bind.
  destruct (delete_quizzes _ _) as [db5|e] eqn:E; [|discriminate].
  intros H. inversion H. rewrite quizzes_fold_prune_orphan_category.
  revert E. unfold delete_quizzes, selected_option_restrict, bind, guard.
  destruct (negb _); [|discriminate].
  intros E. inversion E. reflexivity.
Qed.

Lemma insert_topic_summaries_Ok (rows table table' : list TopicSummary) :
  insert_topic_summaries rows table = Ok table' -> table' = (table ++ rows)%list.
Proof.
  unfold insert_topic_summaries. revert table.
  induction rows as [|row rows IH]; intros table; simpl.
  - intros H. inversion H. now rewrite app_nil_r.
  - unfold bind at 2, guard. destruct (negb _); simpl.
    + intros H. apply IH in H. now rewrite <- app_assoc in H.
    + intros H. exfalso. revert H. clear.
      induction rows as [|r rows IH]; simpl; [discriminate | exact IH].
Qed.

(** C7 (as amended).  [chunks.is_active]: toggling a file off and on again
    leaves its chunks with [is_active = false], then [true], and the
    trigger alone does it, the component's own write to
    [chunks.is_active] changing nothing.  Job status: the client writes
    it when it creates the row, and then as [pending]: the quiz that
    [generate] inserts, the three summaries that [handleCreate] inserts.
    No statement of the client changes the status of a quiz that exists:
    the inserts append their rows, [deleteQuiz] removes the row of the quiz
    or nothing, the toggle, the deletion of a file, the upload, the
    submission of an attempt and the creation of a topic leave the quizzes
    as they are, and so does an update of topics (renaming, archiving,
    restoring), while a delete of topics removes the quizzes of the deleted
    topics and leaves the others as they are. *)
Theorem derived_fields_writers :
  (forall db file now1 now2,
      In (file_id file) (map file_id (topic_files db)) ->
      let off := fst (toggleInclude false file false now1 db) in
      let on := fst (toggleInclude false file true now2 off) in
      (forall c, In c (chunks off) -> owns off file c -> is_active c = false)
      /\ (forall c, In c (chunks on) -> owns on file c -> is_active c = true)
      /\ off = update_topic_files (eq_id (file_id file)) (toggle_set false) now1 db
      /\ on = update_topic_files (eq_id (file_id file)) (toggle_set true) now2 off)
  /\ (forall user topic id config now db db',
         insert_quiz (generate_quiz user topic id config) now db = Ok db' ->
         quiz_status (generate_quiz user topic id config) = pending
         /\ quiz_statuses db' = (quiz_statuses db ++ [(id, pending)])%list)
  /\ (forall topic now table table',
         insert_topic_summaries (handleCreate_summaries topic now) table = Ok table' ->
         table' = (table ++ handleCreate_summaries topic now)%list
         /\ map summary_status (handleCreate_summaries topic now)
            = [pending; pending; pending])
  /\ (forall id db,
         quiz_statuses (deleteQuiz id db) = quiz_statuses db
         \/ quiz_statuses (deleteQuiz id db)
            = filter (fun x => negb (String.eqb (fst x) id)) (quiz_statuses db))
  /\ (forall busy file next now db,
         quiz_statuses (fst (toggleInclude busy file next now db)) = quiz_statuses db)
  /\ (forall file now db,
         quiz_statuses (fst (deleteFile file now db)) = quiz_statuses db)
  /\ (forall row now db db',
         insert_topic_file row now db = Ok db' -> quiz_statuses db' = quiz_statuses db)
  /\ (forall quizId authed attemptId questions answers now db,
         quiz_statuses (fst (submit quizId authed attemptId questions answers now db))
         = quiz_statuses db)
  /\ (forall trim toLowerCase categories_loaded selectedCategoryId categoryInput
             topicName user new_category_id new_topic_id created now db,
         quiz_statuses
           (fst (handleCreate trim toLowerCase categories_loaded selectedCategoryId
                   categoryInput topicName user new_category_id new_topic_id
                   created now db))
         = quiz_statuses db)
  /\ (forall where_ s db db',
         update_topics where_ s db = Ok db' -> quiz_statuses db' = quiz_statuses db)
  /\ (forall where_ db db',
         delete_topics where_ db = Ok db' ->
         quizzes db'
         = filter (fun q => negb (mem (quiz_topic_id q)
                                      (map topic_id (filter where_ (topics db)))))
                  (quizzes db)).
Proof.
  unfold quiz_statuses.
  split; [|split; [|split; [|split; [|split; [|split; [|split; [|split;
    [|split; [|split]]]]]]]]].
  - intros db file now1 now2. apply toggle_off_then_on.
  - intros user topic id config now db db' H.
    apply insert_quiz_Ok in H as [-> _]. split; [reflexivity|].
    now rewrite map_app.
  - intros topic now table table' H.
    apply insert_topic_summaries_Ok in H. split; [exact H | reflexivity].
  - intros id db. destruct (quizzes_deleteQuiz id db) as [-> | ->]; [now left|].
    right. induction (quizzes db) as [|q l IH]; simpl; [reflexivity|].
    destruct (String.eqb (quiz_id q) id); simpl; now rewrite IH.
  - intros busy file next now db. now rewrite quizzes_toggleInclude.
  - intros file now db.
    now rewrite (proj1 (proj2 (proj2 (deleteFile_overview_tables file now db)))).
  - intros row now db db' H. now rewrite (quizzes_insert_topic_file row now db db' H).
  - intros quizId authed attemptId questions answers now db.
    now rewrite quizzes_submit.
  - intros. now rewrite quizzes_handleCreate.
  - intros where_ s db db' H. now rewrite (quizzes_update_topics where_ s db db' H).
  - intros where_ db db'. apply quizzes_delete_topics.
Qed.

Lemma derived_fields_writers_witness :
  let off := fst (toggleInclude false file_f1 false 7 db_upload) in
  let on := fst (toggleInclude false file_f1 true 8 off) in
  (forall c, In c (chunks off) -> owns off file_f1 c -> is_active c = false)
  /\ (forall c, In c (chunks on) -> owns on file_f1 c -> is_active c = true)
  /\ off = update_topic_files (eq_id "f1") (toggle_set false) 7 db_upload
  /\ on = update_topic_files (eq_id "f1") (toggle_set true) 8 off.
Proof.
  apply (proj1 derived_fields_writers db_upload file_f1 7 8). simpl. auto.
Defined.

(** C7 (as stated) fails on both fields.  Toggling [f1] off makes the
    upload component itself send
    [update chunks set is_active = false where document_id in ('d1')]; and
    the quiz that [generate] inserts, like the summaries that
    [handleCreate] inserts, carries a status written by the client. *)
Lemma client_writes_derived_fields :
  (snd (toggleInclude false file_f1 false 7 db_upload)
   = [update_topic_files_eq_id "f1" (toggle_set false);
      select_documents_eq_topic_file_id "f1";
      update_chunks_in_document_id ["d1"] false]
   /\ existsb writes_chunks_is_active
        (snd (toggleInclude false file_f1 false 7 db_upload)) = true)
  /\ (exists db',
         insert_quiz (generate_quiz "u1" "t1" "z9"
                        {| config_name := "Sums"; config_scope := "";
                           config_difficulty := None; config_count := count_unset |})
                     7 db_quiz = Ok db'
         /\ quiz_statuses db' = [("z1", ready); ("z2", ready); ("z9", pending)])
  /\ map summary_status (handleCreate_summaries "t1" 7) = [pending; pending; pending].
Proof.
  split; [exact toggleInclude_writes_chunks|].
  split; [vm_compute; eexists; split; reflexivity | reflexivity].
Qed.

(* ------------------------------------------------------------------ *)
(** ** The definitions at work *)
(* ------------------------------------------------------------------ *)

Example toggle_off_db_upload :
  chunks (fst (toggleInclude false file_f1 false 7 db_upload))
  = [mk_chunk 1 "d1" false; mk_chunk 2 "d1" false; mk_chunk 3 "d2" false]
  /\ map last_used_at (topics (fst (toggleInclude false file_f1 false 7 db_upload)))
     = [7].
Proof. split; reflexivity. Qed.

Example toggle_while_busy :
  toggleInclude true file_f1 false 7 db_upload = (db_upload, []).
Proof. reflexivity. Qed.

Example deleteFile_db_upload :
  let db' := fst (deleteFile file_f1 9 db_upload) in
  chunks db' = [mk_chunk 3 "d2" false]
  /\ documents db' = [doc_d2]
  /\ status_of db' "f1" = Some deleted
  /\ map deleted_at (topic_files db') = [Some 9; None].
Proof. repeat split; reflexivity. Qed.

(** Unscoped, the nearest chunk is the one of topic [t2]; scoped to [t1],
    it is not returned. *)
Example match_documents_db_search :
  match_documents example_distance (Some [1%Q; 0%Q]) (Some 1) None
    p_only_active_default db_search
  = Ok [{| row_document_id := "d9"; row_content := "text"; row_metadata := None;
           similarity := Some (Num 1) |}]
  /\ match_documents example_distance (Some [1%Q; 0%Q]) (Some 1) (Some "t1")
       p_only_active_default db_search
     = Ok [{| row_document_id := "d1"; row_content := "text"; row_metadata := None;
              similarity := Some (Num 0) |}].
Proof. split; reflexivity. Qed.

Example match_documents_negative_count :
  match_documents example_distance (Some [0%Q; 0%Q]) (Some (-1)) None
    p_only_active_default db_search
  = Err invalid_row_count_in_limit_clause.
Proof. reflexivity. Qed.

(** The delete of an answered quiz goes through: the answers go with
    their questions and attempts before the restriction on
    [attempt_answers.selected_option_id] is checked. *)
Example delete_quizzes_db_quiz :
  exists db',
    delete_quizzes (fun q => String.eqb (quiz_id q) "z1") db_quiz = Ok db'
    /\ map quiz_id (quizzes db') = ["z2"]
    /\ map qq_id (quiz_questions db') = ["q3"]
    /\ map qo_id (quiz_options db') = ["o4"]
    /\ map qa_id (quiz_attempts db') = ["a2"]
    /\ map aa_question_id (attempt_answers db') = ["q3"].
Proof. vm_compute. eexists. repeat split. Qed.

(** It is rejected when an answer of another quiz selects one of its
    options. *)
Example delete_quizzes_restricted :
  delete_quizzes (fun q => String.eqb (quiz_id q) "z1") db_cross
  = Err (foreign_key_violation "attempt_answers_selected_option_id_fkey")
  /\ exists db', delete_quizzes (fun q => String.eqb (quiz_id q) "z2") db_cross = Ok db'.
Proof. split; [reflexivity | vm_compute; eauto]. Qed.

Example delete_quiz_content_db_quiz :
  exists db',
    delete_quiz_content "z1" db_quiz = Ok db'
    /\ map qq_id (quiz_questions db') = ["q3"]
    /\ map qo_id (quiz_options db') = ["o4"]
    /\ map qa_id (quiz_attempts db') = ["a2"]
    /\ map aa_question_id (attempt_answers db') = ["q3"].
Proof. vm_compute. eexists. repeat split. Qed.

Example score_examples :
  score_of 6 10 = Some 60 /\ score_of 1 8 = Some 13 /\ score_of 23 40 = Some 57
  /\ score_of 0 0 = None /\ round_percent 1 8 = 13.
Proof. vm_compute. repeat split; reflexivity. Qed.

(** An unanswered question makes the insert of the answers fail (the
    column is not null); the attempt stays, without score. *)
Example submit_with_unanswered_question :
  let run := submit "z" (Some "u1") "att" (gen_questions "z" 5)
                    (fun qid => if String.eqb qid "z-0" then None
                                else Some (String.append qid "-a"))
                    99 (gen_db "z" 5) in
  snd run = quizzes_list
  /\ map score_percent (quiz_attempts (fst run)) = [None]
  /\ attempt_answers (fst run) = [].
Proof. vm_compute. repeat split; reflexivity. Qed.
